(** * SIS dynamics on a network: a model of [netrd/dynamics/SIS.py]

    The development embeds [SISModel.simulate] as a program in a small
    state-and-exception monad and proves the properties of the simulator
    that its specification lists.

    Modelling decisions, all taken from the source:
    - Python objects that the function shares with its caller live in a
      store: graph objects in [heap], the [self.results] dictionary in
      [results], the global NumPy random state in [rng_raw]/[rng_pos].
    - A graph object holds what networkx keeps: the ordered node
      dictionary (keys in [g_nodes], attribute dictionaries in [g_attr])
      and the adjacency dictionary [g_adj].
    - The time series is a NumPy array of shape (N, L); it is stored by
      column, because the program only reads and writes whole columns.
    - Floating-point rates are exact rationals extended with the two
      infinities and NaN, which is what [1 / avg_k] produces on a graph
      without edges or without nodes.
    - The random source is an arbitrary stream of raw words; a uniform
      draw is a multiple of 2^-53 in [0,1), a permutation is built from
      one raw word per element.  Quantifying over the stream quantifies
      over every outcome of the random draws.  How many raw words NumPy
      itself consumes for a permutation is not modelled, and nothing is
      stated about the position of the stream after one. *)

From Stdlib Require Import ZArith QArith Lia.
From stdpp Require Import gmap strings list fin_maps.

#[local] Set Warnings "-clear-no-such-hyp".

Close Scope Q_scope.
Local Open Scope Z_scope.

(** ** Values *)

Definition node := nat.
Definition loc := positive.

(** Python/NumPy floats as used for the rates [beta] and [mu]. *)
Inductive pyfloat :=
  | Fin (q : Q)
  | PosInf
  | NegInf
  | NaN.

(** Exceptions the function can let escape. *)
Inductive exn :=
  | ValueError
  | IndexError
  | KeyError
  | ZeroDivisionError
  | AttributeError
  | NetworkXError.

(** A networkx graph object. *)
Record Graph := mkGraph {
  g_nodes : list node;
  g_attr : gmap node (gmap string Z);
  g_adj : gmap node (list node)
}.

(** A two-dimensional NumPy array, stored by column. *)
Record ndarray := mkArray {
  shape0 : nat;
  cols : list (list Z)
}.

Definition shape1 (a : ndarray) : nat := length (cols a).

(** Values stored in [self.results]. *)
Inductive pyobj :=
  | PGraph (h : loc)
  | PArray (a : ndarray)
  | PIndex (d : gmap nat node).

Record world := mkWorld {
  heap : gmap loc Graph;
  results : gmap string pyobj;
  rng_raw : nat -> N;
  rng_pos : nat
}.

Definition set_heap (f : gmap loc Graph -> gmap loc Graph) (w : world) : world :=
  mkWorld (f (heap w)) (results w) (rng_raw w) (rng_pos w).

Definition set_results (f : gmap string pyobj -> gmap string pyobj) (w : world) : world :=
  mkWorld (heap w) (f (results w)) (rng_raw w) (rng_pos w).

Definition set_rng_pos (f : nat -> nat) (w : world) : world :=
  mkWorld (heap w) (results w) (rng_raw w) (f (rng_pos w)).

(** ** The monad *)

Inductive outcome (A : Type) :=
  | Ok (a : A)
  | Raise (e : exn).
Arguments Ok {A} a.
Arguments Raise {A} e.

Definition M (A : Type) : Type := world -> outcome A * world.

Definition ret {A} (a : A) : M A := fun w => (Ok a, w).

Definition raise {A} (e : exn) : M A := fun w => (Raise e, w).

Definition bind {A B} (m : M A) (f : A -> M B) : M B :=
  fun w =>
    match m w with
    | (Ok a, w') => f a w'
    | (Raise e, w') => (Raise e, w')
    end.

Declare Scope sis_scope.
Delimit Scope sis_scope with sis.
Notation "x <- m ;; k" := (bind m (fun x => k))
  (at level 100, m at next level, right associativity) : sis_scope.
Notation "m ;;; k" := (bind m (fun _ => k))
  (at level 100, right associativity) : sis_scope.
Local Open Scope sis_scope.

(** [for x in l: body x] *)
Fixpoint for_each {A} (l : list A) (body : A -> M unit) : M unit :=
  match l with
  | [] => ret tt
  | x :: l' => body x ;;; for_each l' body
  end.

(** A list comprehension whose element expression may raise. *)
Fixpoint map_M {A B} (f : A -> M B) (l : list A) : M (list B) :=
  match l with
  | [] => ret []
  | x :: l' => y <- f x ;; ys <- map_M f l' ;; ret (y :: ys)
  end.

(** ** Floats *)

Definition Qlt_bool (a b : Q) : bool := negb (Qle_bool b a).

(** [u < r] for a finite [u]. *)
Definition float_lt (u : Q) (r : pyfloat) : bool :=
  match r with
  | Fin q => Qlt_bool u q
  | PosInf => true
  | NegInf => false
  | NaN => false
  end.

(** Truth value of a float: only zero is false. *)
Definition float_truthy (r : pyfloat) : bool :=
  match r with
  | Fin q => negb (Qeq_bool q 0)
  | _ => true
  end.

(** [not x] for an optional rate: [None] and zero are the false values. *)
Definition py_not (x : option pyfloat) : bool :=
  match x with
  | None => true
  | Some r => negb (float_truthy r)
  end.

(** [1 / x] for a NumPy float: division by zero warns and gives [inf]. *)
Definition np_reciprocal (x : pyfloat) : pyfloat :=
  match x with
  | Fin q => if Qeq_bool q 0 then PosInf else Fin (Qinv q)
  | PosInf => Fin 0
  | NegInf => Fin 0
  | NaN => NaN
  end.

Definition sum_list (l : list Z) : Z := foldr Z.add 0 l.

(** [np.mean] of a list of integers: the mean of no values is NaN. *)
Definition np_mean (l : list Z) : pyfloat :=
  match l with
  | [] => NaN
  | _ => Fin (Qdiv (inject_Z (sum_list l)) (inject_Z (Z.of_nat (length l))))
  end.

(** [1 / n] for a Python integer [n >= 0]. *)
Definition int_reciprocal (n : nat) : M pyfloat :=
  match n with
  | O => raise ZeroDivisionError
  | S _ => ret (Fin (Qmake 1 (Pos.of_nat n)))
  end.

(** ** The random source *)

Definition next_raw : M N :=
  fun w => (Ok (rng_raw w (rng_pos w)), set_rng_pos S w).

Definition two53 : positive := 9007199254740992.

(** The uniform draw made from one raw word: a multiple of 2^-53 in
    [0, 1). *)
Definition uniform (r : N) : Q := Qmake (Z.of_N (r mod Npos two53)) two53.

(** [np.random.random()] *)
Definition np_random : M Q :=
  r <- next_raw ;;
  ret (uniform r).

(** [np.random.permutation(l)].  NumPy shuffles a copy of [l] with
    bounded draws made by rejection sampling, so the number of raw words
    it consumes depends on the words themselves.  Here the permutation
    is built by inserting every element at a position chosen by one raw
    word: the results are the permutations of [l], all of them
    ([np_permutation_complete]), but the position of the stream after a
    permutation is a convention of this model and no statement about
    [simulate] below depends on it. *)
Fixpoint np_permutation {A} (l : list A) : M (list A) :=
  match l with
  | [] => ret []
  | x :: l' =>
      p <- np_permutation l' ;;
      r <- next_raw ;;
      let j := N.to_nat (r mod N.of_nat (S (length p))) in
      ret (take j p ++ x :: drop j p)
  end.

(** ** NumPy arrays *)

(** [np.zeros((n, l))] *)
Definition np_zeros (n : nat) (l : Z) : M ndarray :=
  if l <? 0 then raise ValueError
  else ret (mkArray n (replicate (Z.to_nat l) (replicate n 0))).

(** [np.repeat(v, n)] *)
Definition np_repeat (v : Z) (n : Z) : M (list Z) :=
  if n <? 0 then raise ValueError
  else ret (replicate (Z.to_nat n) v).

(** [TS[:, t].sum()] *)
Definition col_sum (a : ndarray) (t : nat) : M Z :=
  match cols a !! t with
  | Some c => ret (sum_list c)
  | None => raise IndexError
  end.

(** [TS[:, t] = v]: the value must have the column's length, or length
    one, in which case it is broadcast. *)
Definition set_col (a : ndarray) (t : nat) (v : list Z) : M ndarray :=
  if decide (t < shape1 a)%nat then
    if decide (length v = shape0 a) then
      ret (mkArray (shape0 a) (<[t := v]> (cols a)))
    else
      match v with
      | [x] => ret (mkArray (shape0 a) (<[t := replicate (shape0 a) x]> (cols a)))
      | _ => raise ValueError
      end
  else raise IndexError.

(** [np.hstack([a, np.zeros((n, k))])] *)
Definition np_hstack_zeros (a : ndarray) (n : nat) (k : Z) : M ndarray :=
  z <- np_zeros n k ;;
  if decide (shape0 a = shape0 z) then
    ret (mkArray (shape0 a) (cols a ++ cols z))
  else raise ValueError.

(** ** networkx graphs *)

Definition read_graph (h : loc) : M Graph :=
  fun w =>
    match heap w !! h with
    | Some g => (Ok g, w)
    | None => (Raise AttributeError, w)
    end.

Definition write_graph (h : loc) (g : Graph) : M unit :=
  fun w => (Ok tt, set_heap (insert h g) w).

(** [G.copy()]: a new graph object with the same nodes and edges and
    with fresh attribute dictionaries holding the same entries. *)
Definition graph_copy (g : loc) : M loc :=
  G <- read_graph g ;;
  fun w =>
    let h := fresh (dom (heap w)) in
    (Ok h, set_heap (insert h G) w).

(** [G.number_of_nodes()], [G.order()] *)
Definition number_of_nodes (h : loc) : M nat :=
  G <- read_graph h ;; ret (length (g_nodes G)).

(** [list(G.nodes())] *)
Definition graph_nodes (h : loc) : M (list node) :=
  G <- read_graph h ;; ret (g_nodes G).

(** [G.nodes[n][name]] *)
Definition node_getattr (h : loc) (n : node) (name : string) : M Z :=
  G <- read_graph h ;;
  match g_attr G !! n with
  | None => raise KeyError
  | Some d =>
      match d !! name with
      | None => raise KeyError
      | Some v => ret v
      end
  end.

(** [G.nodes[n][name] = v] *)
Definition node_setattr (h : loc) (n : node) (name : string) (v : Z) : M unit :=
  G <- read_graph h ;;
  match g_attr G !! n with
  | None => raise KeyError
  | Some d =>
      write_graph h (mkGraph (g_nodes G) (<[n := <[name := v]> d]> (g_attr G)) (g_adj G))
  end.

(** [G.neighbors(n)] *)
Definition neighbors (h : loc) (n : node) : M (list node) :=
  G <- read_graph h ;;
  match g_adj G !! n with
  | None => raise NetworkXError
  | Some js => ret js
  end.

(** One entry of [G.degree()]: a self-loop counts twice. *)
Definition degree (h : loc) (n : node) : M Z :=
  js <- neighbors h n ;;
  ret (Z.of_nat (length js) + (if decide (n ∈ js) then 1 else 0)).

(** [list(dict(G.degree()).values())] *)
Definition degrees (h : loc) : M (list Z) :=
  ns <- graph_nodes h ;; map_M (degree h) ns.

(** [nx.set_node_attributes(G, value, name)] for a constant [value] *)
Definition set_node_attributes_const (h : loc) (v : Z) (name : string) : M unit :=
  ns <- graph_nodes h ;;
  for_each ns (fun n => node_setattr h n name v).

(** [nx.set_node_attributes(G, values, name)] for a dictionary [values]:
    a key that is not a node of [G] is skipped. *)
Definition set_node_attributes_dict (h : loc) (values : list (node * Z))
    (name : string) : M unit :=
  for_each values (fun nv =>
    G <- read_graph h ;;
    match g_attr G !! nv.1 with
    | None => ret tt
    | Some _ => node_setattr h nv.1 name nv.2
    end).

(** [nx.get_node_attributes(G, name)]: the nodes that have the attribute,
    in node order. *)
Definition get_node_attributes (h : loc) (name : string) : M (list (node * Z)) :=
  G <- read_graph h ;;
  ret (omap (fun n => d ← g_attr G !! n; v ← d !! name; Some (n, v)) (g_nodes G)).

(** ** The simulator *)

(** Lines 57-59: [if not beta: avg_k = np.mean(degrees); beta = 1 / avg_k] *)
Definition default_beta (h : loc) : M pyfloat :=
  ds <- degrees h ;;
  let avg_k := np_mean ds in
  ret (np_reciprocal avg_k).

Definition resolve_beta (h : loc) (beta : option pyfloat) : M pyfloat :=
  match beta with
  | Some b => if py_not beta then default_beta h else ret b
  | None => default_beta h
  end.

(** Lines 60-61: [if not mu: mu = 1 / H.number_of_nodes()] *)
Definition default_mu (h : loc) : M pyfloat :=
  n <- number_of_nodes h ;; int_reciprocal n.

Definition resolve_mu (h : loc) (mu : option pyfloat) : M pyfloat :=
  match mu with
  | Some m => if py_not mu then default_mu h else ret m
  | None => default_mu h
  end.

(** Lines 63-65: a random permutation of [num_seeds] ones and
    [N - num_seeds] zeros. *)
Definition draw_seeds (N : nat) (num_seeds : Z) : M (list Z) :=
  ones <- np_repeat 1 num_seeds ;;
  zeros <- np_repeat 0 (Z.of_nat N - num_seeds) ;;
  np_permutation (ones ++ zeros).

(** Line 67: [{index_to_node[i]: s for i, s in enumerate(seeds)}] *)
Definition seed_attr (index_to_node : gmap nat node) (seeds : list Z)
    : M (list (node * Z)) :=
  map_M (fun e : nat * Z =>
           match index_to_node !! e.1 with
           | Some n => ret (n, e.2)
           | None => raise KeyError
           end)
        (imap pair seeds).

(** The local variables of [simulate] when the main loop starts. *)
Record locals := mkLocals {
  l_H : loc;
  l_N : nat;
  l_TS : ndarray;
  l_index_to_node : gmap nat node;
  l_beta : pyfloat;
  l_mu : pyfloat
}.

(** Lines 52-69, with [H] the copy made on line 51. *)
Definition sis_init_from (H G : loc) (L : Z) (num_seeds : Z)
    (beta mu : option pyfloat) : M locals :=
  N <- number_of_nodes H ;;
  TS <- np_zeros N L ;;
  order <- number_of_nodes G ;;
  gnodes <- graph_nodes G ;;
  let index_to_node : gmap nat node :=
    list_to_map (zip (seq 0 order) gnodes) in
  beta <- resolve_beta H beta ;;
  mu <- resolve_mu H mu ;;
  seeds <- draw_seeds N num_seeds ;;
  TS <- set_col TS 0 seeds ;;
  infected_attr <- seed_attr index_to_node seeds ;;
  set_node_attributes_dict H infected_attr "infected" ;;;
  set_node_attributes_const H 0 "next_infected" ;;;
  ret (mkLocals H N TS index_to_node beta mu).

(** Lines 51-69. *)
Definition sis_init (G : loc) (L : Z) (num_seeds : Z)
    (beta mu : option pyfloat) : M locals :=
  H <- graph_copy G ;;
  sis_init_from H G L num_seeds beta mu.

(** Lines 82-94: the visit of one node. *)
Definition visit_node (H : loc) (beta mu : pyfloat) (i : node) : M unit :=
  infected <- node_getattr H i "infected" ;;
  if decide (infected = 0) then ret tt
  else
    neigh <- neighbors H i ;;
    for_each neigh (fun j =>
      u <- np_random ;;
      if float_lt u beta then node_setattr H j "next_infected" 1
      else ret tt) ;;;
    u <- np_random ;;
    if float_lt u mu then node_setattr H i "infected" 0
    else node_setattr H i "next_infected" 1.

(** Lines 78-94: one pass over the nodes in a random order. *)
Definition visit_all (H : loc) (beta mu : pyfloat) : M unit :=
  ns <- graph_nodes H ;;
  nodes <- np_permutation ns ;;
  for_each nodes (visit_node H beta mu).

(** Lines 95-99: the staged flags become the current ones. *)
Definition commit (H : loc) : M unit :=
  next_infections <- get_node_attributes H "next_infected" ;;
  set_node_attributes_dict H next_infections "infected" ;;;
  set_node_attributes_const H 0 "next_infected".

(** Lines 78-103: the body of the main loop after the extinction test. *)
Definition sis_step (H : loc) (beta mu : pyfloat) (TS : ndarray) (t : nat)
    : M ndarray :=
  visit_all H beta mu ;;;
  commit H ;;;
  infections <- get_node_attributes H "infected" ;;
  set_col TS t infections.*2.

(** Lines 72-103: [for t in range(1, L)], given the remaining values of
    [t]; [break] returns the array as it is. *)
Fixpoint sis_loop (H : loc) (beta mu : pyfloat) (ts : list nat) (TS : ndarray)
    : M ndarray :=
  match ts with
  | [] => ret TS
  | t :: ts' =>
      s <- col_sum TS (t - 1) ;;
      if s <? 1 then ret TS
      else
        TS' <- sis_step H beta mu TS t ;;
        sis_loop H beta mu ts' TS'
  end.

(** [range(1, L)] *)
Definition py_range1 (L : Z) : list nat := seq 1 (Z.to_nat L - 1).

(** Lines 105-107. *)
Definition pad (N : nat) (L : Z) (TS : ndarray) : M ndarray :=
  if Z.of_nat (shape1 TS) <? L then
    np_hstack_zeros TS N (L - Z.of_nat (shape1 TS))
  else ret TS.

(** Lines 109-111. *)
Definition store_results (H : loc) (TS : ndarray) (index_to_node : gmap nat node)
    : M unit :=
  fun w =>
    (Ok tt,
     set_results (fun r =>
       <["index_to_node" := PIndex index_to_node]>
         (<["TS" := PArray TS]> (<["ground_truth" := PGraph H]> r))) w).

(** Lines 51-107: everything before the results are stored. *)
Definition sis_run (G : loc) (L : Z) (num_seeds : Z)
    (beta mu : option pyfloat) : M (locals * ndarray) :=
  l <- sis_init G L num_seeds beta mu ;;
  TS <- sis_loop (l_H l) (l_beta l) (l_mu l) (py_range1 L) (l_TS l) ;;
  ret (l, TS).

Definition simulate (G : loc) (L : Z) (num_seeds : Z)
    (beta mu : option pyfloat) : M ndarray :=
  r <- sis_run G L num_seeds beta mu ;;
  TS <- pad (l_N r.1) L r.2 ;;
  store_results (l_H r.1) TS (l_index_to_node r.1) ;;;
  ret TS.

(** ** Concrete inputs *)

(** Two nodes joined by an edge. *)
Definition K2 : Graph :=
  mkGraph [0; 1]%nat
    {[ 0%nat := ∅; 1%nat := ∅ ]}
    {[ 0%nat := [1%nat]; 1%nat := [0%nat] ]}.

Definition world0 (G : Graph) (raw : nat -> N) : world :=
  mkWorld {[ 1%positive := G ]} ∅ raw 0.

(** ** Specification vocabulary *)

(** A program keeps an observation of the world when no run of it,
    successful or not, changes that observation. *)
Definition keeps {X A} (obs : world -> X) (m : M A) : Prop :=
  forall w, obs (m w).2 = obs w.

(** [wp m Q w]: from the world [w] the program [m] returns normally, with
    a value and a world that satisfy [Q]. *)
Definition wp {A} (m : M A) (Q : A -> world -> Prop) (w : world) : Prop :=
  exists a w', m w = (Ok a, w') /\ Q a w'.

(** [wr m e R w]: from the world [w] the program [m] raises [e], in a
    world that satisfies [R]. *)
Definition wr {A} (m : M A) (e : exn) (R : world -> Prop) (w : world) : Prop :=
  exists w', m w = (Raise e, w') /\ R w'.

(** The exception that ends a call whose seed count or length is out of
    range: NumPy refuses a negative dimension or repeat count, and
    otherwise the write to column 0 of an array without columns fails. *)
Definition request_error (N : nat) (L num_seeds : Z) : exn :=
  if (L <? 0) || (num_seeds <? 0) || (Z.of_nat N <? num_seeds)
  then ValueError else IndexError.

(** What a program sees of the world: the graph object [h] and the
    random state. *)
Definition sees (h : loc) (raw : nat -> N) (H : Graph) (p : nat) (w : world)
    : Prop :=
  heap w !! h = Some H /\ rng_raw w = raw /\ rng_pos w = p.

(** The flag [name] of node [n], if the node and the flag exist. *)
Definition flag (H : Graph) (n : node) (name : string) : option Z :=
  d ← g_attr H !! n; d !! name.

(** The graph after [H.nodes[n][name] = v]. *)
Definition put_attr (n : node) (name : string) (v : Z) (H : Graph) : Graph :=
  mkGraph (g_nodes H) (alter (insert name v) n (g_attr H)) (g_adj H).

(** Two graph objects with the same nodes, the same edges and attribute
    dictionaries for the same nodes. *)
Definition similar (H H' : Graph) : Prop :=
  g_nodes H' = g_nodes H /\ g_adj H' = g_adj H /\
  forall n, is_Some (g_attr H' !! n) <-> is_Some (g_attr H !! n).

(** The dictionary read by [get_node_attributes] when every node has
    the attribute. *)
Definition attr_items (H : Graph) (name : string) : list (node * Z) :=
  (fun n => (n, default 0 (flag H n name))) <$> g_nodes H.

(** Among the first [k] transmission trials of a visit that starts at
    position [p] of the random stream, one reaches the neighbour [n]. *)
Definition infects (beta : pyfloat) (raw : nat -> N) (p : nat)
    (js : list node) (k : nat) (n : node) : Prop :=
  exists i, (i < k)%nat /\ js !! i = Some n /\
            float_lt (uniform (raw (p + i)%nat)) beta = true.

(** The recovery trial of that visit succeeds. *)
Definition cures (mu : pyfloat) (raw : nat -> N) (p : nat) (js : list node)
    : bool :=
  float_lt (uniform (raw (p + length js)%nat)) mu.

(** The effect of visiting the infected node [i], whose neighbours are
    [js], from position [p] of the random stream. *)
Definition visited (beta mu : pyfloat) (raw : nat -> N) (p : nat) (i : node)
    (js : list node) (H H' : Graph) : Prop :=
  similar H H' /\
  (forall n name, name <> "infected" -> name <> "next_infected" ->
     flag H' n name = flag H n name) /\
  (forall n, flag H' n "infected" =
     if decide (n = i /\ cures mu raw p js = true) then Some 0
     else flag H n "infected") /\
  (forall n, infects beta raw p js (length js) n \/
             (n = i /\ cures mu raw p js = false) ->
     flag H' n "next_infected" = Some 1) /\
  (forall n, ~ (infects beta raw p js (length js) n \/
                (n = i /\ cures mu raw p js = false)) ->
     flag H' n "next_infected" = flag H n "next_infected").

(** The effect of visiting node [i] of the working copy [H], a copy of
    [G0], from position [p] of the random stream: nothing for a
    susceptible node, [visited] for an infected one. *)
Definition visit_effect (beta mu : pyfloat) (raw : nat -> N) (G0 : Graph)
    (p : nat) (i : node) (H H' : Graph) : Prop :=
  (flag H i "infected" = Some 0 /\ H' = H) \/
  (exists js, g_adj G0 !! i = Some js /\ flag H i "infected" = Some 1 /\
              visited beta mu raw p i js H H').

(** The data invariant of a networkx graph: the node dictionary and the
    adjacency dictionary have the nodes as keys, and every neighbour is
    a node. *)
Definition well_formed (G : Graph) : bool :=
  bool_decide (NoDup (g_nodes G)) &&
  bool_decide (dom (g_attr G) = list_to_set (g_nodes G)) &&
  bool_decide (dom (g_adj G) = list_to_set (g_nodes G)) &&
  forallb (fun n =>
             match g_adj G !! n with
             | Some js => forallb (fun j => bool_decide (j ∈ g_nodes G)) js
             | None => false
             end) (g_nodes G).

Definition binary (o : option Z) : Prop := o = Some 0 \/ o = Some 1.

(** The working copy [H] of [G0] between two passes: same nodes and
    edges, and both flags of every node are 0 or 1. *)
Definition staged (G0 H : Graph) : Prop :=
  similar G0 H /\
  forall n, n ∈ g_nodes G0 ->
    binary (flag H n "infected") /\ binary (flag H n "next_infected").

(** The effect of lines 95-99 on the working copy. *)
Definition committed (H H' : Graph) : Prop :=
  similar H H' /\
  (forall n name, name <> "infected" -> name <> "next_infected" ->
     flag H' n name = flag H n name) /\
  (forall n, n ∈ g_nodes H ->
     flag H' n "infected" = flag H n "next_infected" /\
     flag H' n "next_infected" = Some 0).

(** A column of the time series: one entry per node, each 0 or 1. *)
Definition col_ok (N : nat) (c : list Z) : Prop :=
  length c = N /\ forall x, x ∈ c -> x = 0 \/ x = 1.

(** A time series of shape (N, L) whose entries are 0 or 1. *)
Definition shaped (N L : nat) (TS : ndarray) : Prop :=
  shape0 TS = N /\ shape1 TS = L /\ forall c, c ∈ cols TS -> col_ok N c.

(** Once a column sums to zero, every later column does. *)
Definition absorbing (TS : ndarray) : Prop :=
  forall t t' c c', (t < t')%nat ->
    cols TS !! t = Some c -> sum_list c = 0 ->
    cols TS !! t' = Some c' -> sum_list c' = 0.

(** The time series when the loop is about to run its iteration [t]:
    the columns from [t] on are still zero, and no column before [t - 1]
    is extinct. *)
Definition loop_inv (N L t : nat) (TS : ndarray) : Prop :=
  shaped N L TS /\
  (forall j c, (t <= j)%nat -> cols TS !! j = Some c -> sum_list c = 0) /\
  (forall j c, (j + 1 < t)%nat -> cols TS !! j = Some c -> 1 <= sum_list c).

(** What holds when the loop is left, by [break] or by exhaustion. *)
Definition loop_post (h : loc) (raw : nat -> N) (G0 : Graph) (L : nat)
    (TS0 TS : ndarray) (w : world) : Prop :=
  (exists H p, sees h raw H p w /\ staged G0 H) /\
  shaped (length (g_nodes G0)) L TS /\ absorbing TS /\
  cols TS !! 0%nat = cols TS0 !! 0%nat.

(** The degree of a node, as [G.degree()] reports it. *)
Definition degree_of (H : Graph) (n : node) : Z :=
  match g_adj H !! n with
  | Some js => Z.of_nat (length js) + (if decide (n ∈ js) then 1 else 0)
  | None => 0
  end.

(** The rates with which the loop runs on the graph [G0]. *)
Definition beta_used (G0 : Graph) (beta : option pyfloat) : pyfloat :=
  let avg_k := np_mean (degree_of G0 <$> g_nodes G0) in
  match beta with
  | Some b => if py_not beta then np_reciprocal avg_k else b
  | None => np_reciprocal avg_k
  end.

Definition mu_used (G0 : Graph) (mu : option pyfloat) : pyfloat :=
  let N := length (g_nodes G0) in
  match mu with
  | Some m => if py_not mu then Fin (Qmake 1 (Pos.of_nat N)) else m
  | None => Fin (Qmake 1 (Pos.of_nat N))
  end.

(** The state in which the main loop starts. *)
Definition seeded (G0 : Graph) (raw : nat -> N) (L k : nat) (l : locals)
    (w : world) : Prop :=
  let N := length (g_nodes G0) in
  exists H p seeds,
    sees (l_H l) raw H p w /\ staged G0 H /\
    l_N l = N /\
    l_TS l = mkArray N (<[0%nat := seeds]> (replicate L (replicate N 0))) /\
    seeds ≡ₚ replicate k 1 ++ replicate (N - k) 0 /\
    (forall i n, g_nodes G0 !! i = Some n -> flag H n "infected" = seeds !! i) /\
    (forall n, n ∈ g_nodes G0 -> flag H n "next_infected" = Some 0).

(** The world after lines 109-111. *)
Definition stored (l : locals) (TS : ndarray) (w : world) : world :=
  set_results (fun r =>
    <["index_to_node" := PIndex (l_index_to_node l)]>
      (<["TS" := PArray TS]> (<["ground_truth" := PGraph (l_H l)]> r))) w.

(** The complete graph on the nodes 0 .. n-1. *)
Definition complete_graph (n : nat) : Graph :=
  mkGraph (seq 0 n)
    (list_to_map ((fun i => (i, ∅)) <$> seq 0 n))
    (list_to_map
       ((fun i => (i, filter (fun j => j <> i) (seq 0 n))) <$> seq 0 n)).

(** A single node without edges. *)
Definition G1 : Graph :=
  mkGraph [0%nat] {[ 0%nat := ∅ ]} {[ 0%nat := [] ]}.

Definition raw0 : nat -> N := fun n => (N.of_nat n * 3000000000000000)%N.

(** [TS[i, t]] *)
Definition entry (TS : ndarray) (i t : nat) : option Z :=
  c ← cols TS !! t; c !! i.


(** The seed count or the length is outside the documented domain. *)
Definition bad_counts (N : nat) (L num_seeds : Z) : bool :=
  (num_seeds <? 0) || (Z.of_nat N <? num_seeds) || (L <? 1).

(** A rate that was supplied and is not in [0, 1]. *)
Definition rate_out_of_range (r : option pyfloat) : bool :=
  match r with
  | None => false
  | Some (Fin q) => Qlt_bool q 0 || Qlt_bool 1 q
  | Some _ => true
  end.

(** The requests that the specification of [simulate] calls invalid, for
    a graph with [N] nodes. *)
Definition invalid_request (N : nat) (L num_seeds : Z)
    (beta mu : option pyfloat) : bool :=
  (num_seeds <? 0) || (Z.of_nat N <? num_seeds) ||
  rate_out_of_range beta || rate_out_of_range mu || (L <? 1).

Definition is_binary (o : option Z) : bool :=
  match o with
  | Some 0 | Some 1 => true
  | _ => false
  end.

(** The working copy as a pass finds it: a well-formed graph whose nodes
    all carry both flags, each 0 or 1. *)
Definition between_passes (H : Graph) : bool :=
  well_formed H &&
  forallb (fun n => is_binary (flag H n "infected") &&
                    is_binary (flag H n "next_infected")) (g_nodes H).

(** The working copy of the two-node graph with node 0 infected. *)
Definition K2_seeded : Graph :=
  mkGraph [0; 1]%nat
    {[ 0%nat := {[ "infected" := 1; "next_infected" := 0 ]};
       1%nat := {[ "infected" := 0; "next_infected" := 0 ]} ]}
    {[ 0%nat := [1%nat]; 1%nat := [0%nat] ]}.

(** The working copy between two timesteps: both flags are 0 or 1 and
    nothing is staged. *)
Definition rested (G0 H : Graph) : Prop :=
  staged G0 H /\
  forall n, n ∈ g_nodes G0 -> flag H n "next_infected" = Some 0.

(** The column that line 103 reads off the working copy. *)
Definition flags_col (H : Graph) : list Z := (attr_items H "infected").*2.

(** The node attributes other than the two flags are the same. *)
Definition same_other_attrs (H H' : Graph) : Prop :=
  forall n name, name <> "infected" -> name <> "next_infected" ->
    flag H' n name = flag H n name.

(** No uniform draw is below the rate: the trial never succeeds. *)
Definition never_below (r : pyfloat) : bool :=
  match r with
  | Fin q => Qle_bool q 0
  | PosInf => false
  | NegInf => true
  | NaN => true
  end.

(** Every uniform draw is below the rate: the trial always succeeds. *)
Definition always_below (r : pyfloat) : bool :=
  match r with
  | Fin q => Qle_bool 1 q
  | PosInf => true
  | NegInf => false
  | NaN => false
  end.

(** A graph without edges. *)
Definition edgeless (G : Graph) : bool :=
  forallb (fun n => bool_decide (g_adj G !! n = Some [])) (g_nodes G).

(** Every timestep that starts from a rested working copy [H] ends in a
    rested copy [H'] related to it by [S], and writes the flags of [H']
    as the new column. *)
Definition step_spec (G0 : Graph) (beta mu : pyfloat)
    (S : Graph -> Graph -> Prop) : Prop :=
  forall h raw H p TS t (Q : ndarray -> world -> Prop) w,
    sees h raw H p w -> rested G0 H ->
    shape0 TS = length (g_nodes G0) -> (t < shape1 TS)%nat ->
    (forall w' H' p', sees h raw H' p' w' -> rested G0 H' -> S H H' ->
       Q (mkArray (shape0 TS) (<[t := flags_col H']> (cols TS))) w') ->
    wp (sis_step h beta mu TS t) Q w.

(** The columns before [t] were written one after the other, each from
    a working copy related by [S] to the one of the column before. *)
Definition trace_ok (G0 : Graph) (S : Graph -> Graph -> Prop) (t : nat)
    (TS : ndarray) : Prop :=
  forall j, (1 <= j < t)%nat ->
    exists Ha Hb, rested G0 Ha /\ rested G0 Hb /\
      cols TS !! (j - 1)%nat = Some (flags_col Ha) /\
      cols TS !! j = Some (flags_col Hb) /\ S Ha Hb.

(** What holds of the array and of the working copy when the loop is
    left at [t']: column [t' - 1] is the last one written and shows the
    flags of the working copy, and the later columns are untouched. *)
Definition trace_post (h : loc) (raw : nat -> N) (G0 : Graph)
    (S : Graph -> Graph -> Prop) (K : Graph -> Prop) (L : nat)
    (TS0 TS : ndarray) (w : world) : Prop :=
  exists H p t',
    sees h raw H p w /\ rested G0 H /\ K H /\
    (1 <= t' <= L)%nat /\
    cols TS !! (t' - 1)%nat = Some (flags_col H) /\
    (forall j c, (t' <= j)%nat -> cols TS !! j = Some c -> sum_list c = 0) /\
    ((t' < L)%nat -> sum_list (flags_col H) = 0) /\
    trace_ok G0 S t' TS /\
    shaped (length (g_nodes G0)) L TS /\
    cols TS !! 0%nat = cols TS0 !! 0%nat.

(** The local variables and the world when the main loop starts, in
    full: the working copy [h] is rested, carries the seeds as its
    [infected] flags and the other attributes of the input graph, and
    the seed permutation has consumed N words of the random stream. *)
Definition init_full (G0 : Graph) (raw : nat -> N) (p0 : nat) (h : loc)
    (L k : nat) (beta mu : option pyfloat) (l : locals) (w : world) : Prop :=
  let N := length (g_nodes G0) in
  exists H seeds,
    sees h raw H (p0 + N)%nat w /\ rested G0 H /\ same_other_attrs G0 H /\
    l = mkLocals h N
          (mkArray N (<[0%nat := seeds]> (replicate L (replicate N 0))))
          (list_to_map (zip (seq 0 N) (g_nodes G0)))
          (beta_used G0 beta) (mu_used G0 mu) /\
    seeds ≡ₚ replicate k 1 ++ replicate (N - k) 0 /\
    flags_col H = seeds.

(** Every node has at least one neighbour. *)
Definition no_isolated_node (G : Graph) : bool :=
  forallb (fun n =>
             match g_adj G !! n with
             | Some (_ :: _) => true
             | _ => false
             end) (g_nodes G).

(** The position of the random stream after the visit of node [i] from
    the state [H] at position [p]: an infected node draws once for each
    neighbour and once more, a susceptible node draws nothing. *)
Definition after_visit (G0 H : Graph) (p : nat) (i : node) : nat :=
  match flag H i "infected", g_adj G0 !! i with
  | Some v, Some js => if decide (v = 0) then p else (p + length js + 1)%nat
  | _, _ => p
  end.

(** The effect of visiting the nodes [vs] one after the other, from the
    state [H] at position [p] of the random stream: every visit starts
    from the state and the position that the visit before it has left. *)
Fixpoint pass_effect (beta mu : pyfloat) (raw : nat -> N) (G0 : Graph)
    (p : nat) (vs : list node) (H H' : Graph) (p' : nat) : Prop :=
  match vs with
  | [] => H' = H /\ p' = p
  | i :: vs' =>
      exists Hi, visit_effect beta mu raw G0 p i H Hi /\
                 pass_effect beta mu raw G0 (after_visit G0 H p i) vs' Hi H' p'
  end.

(** ** Reasoning about monadic programs *)

Lemma bind_Ok {A B} (m : M A) (f : A -> M B) w a w1 :
  m w = (Ok a, w1) -> bind m f w = f a w1.
Proof. intros E. unfold bind. by rewrite E. Qed.

Lemma bind_Raise {A B} (m : M A) (f : A -> M B) w e w1 :
  m w = (Raise e, w1) -> bind m f w = (Raise e, w1).
Proof. intros E. unfold bind. by rewrite E. Qed.

Lemma bind_inv_Ok {A B} (m : M A) (f : A -> M B) w b w2 :
  bind m f w = (Ok b, w2) ->
  exists a w1, m w = (Ok a, w1) /\ f a w1 = (Ok b, w2).
Proof.
  unfold bind. destruct (m w) as [[a|e] w1]; [eauto | discriminate].
Qed.

Section keeps.
Context {X : Type} (obs : world -> X).

Lemma keeps_ret {A} (a : A) : keeps obs (ret a).
Proof. by intros w. Qed.

Lemma keeps_raise {A} e : keeps obs (@raise A e).
Proof. by intros w. Qed.

Lemma keeps_bind_val {A B} (m : M A) (f : A -> M B) :
  keeps obs m ->
  (forall a w, (m w).1 = Ok a -> keeps obs (f a)) ->
  keeps obs (bind m f).
Proof.
  intros Hm Hf w. unfold bind.
  specialize (Hm w). specialize (Hf) with (w := w).
  destruct (m w) as [[a|e] w1]; simpl in *; [|done].
  by rewrite (Hf a eq_refl w1).
Qed.

Lemma keeps_bind {A B} (m : M A) (f : A -> M B) :
  keeps obs m -> (forall a, keeps obs (f a)) -> keeps obs (bind m f).
Proof. intros Hm Hf. apply keeps_bind_val; auto. Qed.

Lemma keeps_for_each {A} (l : list A) (body : A -> M unit) :
  (forall x, x ∈ l -> keeps obs (body x)) -> keeps obs (for_each l body).
Proof.
  induction l as [|x l IH]; intros Hb; simpl.
  - apply keeps_ret.
  - apply keeps_bind; [apply Hb; left|].
    intros _. apply IH. intros y Hy. apply Hb. by right.
Qed.

Lemma keeps_map_M {A B} (f : A -> M B) (l : list A) :
  (forall x, keeps obs (f x)) -> keeps obs (map_M f l).
Proof.
  intros Hf. induction l as [|x l IH]; simpl.
  - apply keeps_ret.
  - apply keeps_bind; [done|]. intros y.
    apply keeps_bind; [done|]. intros ys. apply keeps_ret.
Qed.

(** Observations that do not look at the random state. *)
Hypothesis obs_rng : forall f w, obs (set_rng_pos f w) = obs w.

Lemma keeps_next_raw : keeps obs next_raw.
Proof. intros w. apply obs_rng. Qed.

Lemma keeps_np_random : keeps obs np_random.
Proof. apply keeps_bind; [apply keeps_next_raw|]. intros r. apply keeps_ret. Qed.

Lemma keeps_np_permutation {A} (l : list A) : keeps obs (np_permutation l).
Proof.
  induction l as [|x l IH]; simpl; [apply keeps_ret|].
  apply keeps_bind; [done|]. intros p.
  apply keeps_bind; [apply keeps_next_raw|]. intros r. apply keeps_ret.
Qed.

Lemma keeps_int_reciprocal n : keeps obs (int_reciprocal n).
Proof. destruct n; [apply keeps_raise | apply keeps_ret]. Qed.

Lemma keeps_np_zeros n l : keeps obs (np_zeros n l).
Proof. unfold np_zeros. case_match; [apply keeps_raise | apply keeps_ret]. Qed.

Lemma keeps_np_repeat v n : keeps obs (np_repeat v n).
Proof. unfold np_repeat. case_match; [apply keeps_raise | apply keeps_ret]. Qed.

Lemma keeps_col_sum a t : keeps obs (col_sum a t).
Proof. unfold col_sum. case_match; [apply keeps_ret | apply keeps_raise]. Qed.

Lemma keeps_set_col a t v : keeps obs (set_col a t v).
Proof.
  unfold set_col. repeat case_match;
    first [apply keeps_ret | apply keeps_raise].
Qed.

Lemma keeps_np_hstack_zeros a n k : keeps obs (np_hstack_zeros a n k).
Proof.
  apply keeps_bind; [apply keeps_np_zeros|]. intros z.
  case_match; [apply keeps_ret | apply keeps_raise].
Qed.

Lemma keeps_draw_seeds n k : keeps obs (draw_seeds n k).
Proof.
  apply keeps_bind; [apply keeps_np_repeat|]. intros ones.
  apply keeps_bind; [apply keeps_np_repeat|]. intros zeros.
  apply keeps_np_permutation.
Qed.

Lemma keeps_seed_attr d seeds : keeps obs (seed_attr d seeds).
Proof.
  apply keeps_map_M. intros e. case_match; [apply keeps_ret | apply keeps_raise].
Qed.

Lemma keeps_pad n l ts : keeps obs (pad n l ts).
Proof.
  unfold pad. case_match; [apply keeps_np_hstack_zeros | apply keeps_ret].
Qed.

Lemma keeps_read_graph h : keeps obs (read_graph h).
Proof. intros w. unfold read_graph. by case_match. Qed.
End keeps.

(** Programs that only write the graph object [h] keep every observation
    that does not depend on that object. *)
Section keeps_graph.
Context {X : Type} (obs : world -> X) (h : loc).
Hypothesis obs_rng : forall f w, obs (set_rng_pos f w) = obs w.
Hypothesis obs_heap : forall G w, obs (set_heap (insert h G) w) = obs w.

Lemma keeps_write_graph G : keeps obs (write_graph h G).
Proof. intros w. apply obs_heap. Qed.

Lemma keeps_number_of_nodes g : keeps obs (number_of_nodes g).
Proof. apply keeps_bind; [apply keeps_read_graph|]. intros G. apply keeps_ret. Qed.

Lemma keeps_graph_nodes g : keeps obs (graph_nodes g).
Proof. apply keeps_bind; [apply keeps_read_graph|]. intros G. apply keeps_ret. Qed.

Lemma keeps_node_getattr g n name : keeps obs (node_getattr g n name).
Proof.
  apply keeps_bind; [apply keeps_read_graph|]. intros G.
  repeat case_match; first [apply keeps_ret | apply keeps_raise].
Qed.

Lemma keeps_node_setattr n name v : keeps obs (node_setattr h n name v).
Proof.
  apply keeps_bind; [apply keeps_read_graph|]. intros G.
  case_match; [apply keeps_write_graph | apply keeps_raise].
Qed.

Lemma keeps_neighbors g n : keeps obs (neighbors g n).
Proof.
  apply keeps_bind; [apply keeps_read_graph|]. intros G.
  case_match; [apply keeps_ret | apply keeps_raise].
Qed.

Lemma keeps_degrees g : keeps obs (degrees g).
Proof.
  apply keeps_bind; [apply keeps_graph_nodes|]. intros ns.
  apply keeps_map_M. intros n.
  apply keeps_bind; [apply keeps_neighbors|]. intros js. apply keeps_ret.
Qed.

Lemma keeps_set_node_attributes_const v name :
  keeps obs (set_node_attributes_const h v name).
Proof.
  apply keeps_bind; [apply keeps_graph_nodes|]. intros ns.
  apply keeps_for_each. intros n _. apply keeps_node_setattr.
Qed.

Lemma keeps_set_node_attributes_dict values name :
  keeps obs (set_node_attributes_dict h values name).
Proof.
  apply keeps_for_each. intros nv _.
  apply keeps_bind; [apply keeps_read_graph|]. intros G.
  case_match; [apply keeps_node_setattr | apply keeps_ret].
Qed.

Lemma keeps_get_node_attributes g name : keeps obs (get_node_attributes g name).
Proof. apply keeps_bind; [apply keeps_read_graph|]. intros G. apply keeps_ret. Qed.

Lemma keeps_resolve_beta g beta : keeps obs (resolve_beta g beta).
Proof.
  assert (keeps obs (default_beta g)).
  { apply keeps_bind; [apply keeps_degrees|]. intros ds. apply keeps_ret. }
  unfold resolve_beta. repeat case_match; auto using keeps_ret.
Qed.

Lemma keeps_resolve_mu g mu : keeps obs (resolve_mu g mu).
Proof.
  assert (keeps obs (default_mu g)).
  { apply keeps_bind; [apply keeps_number_of_nodes|]. intros n.
    by apply keeps_int_reciprocal. }
  unfold resolve_mu. repeat case_match; auto using keeps_ret.
Qed.

Lemma keeps_visit_node beta mu i : keeps obs (visit_node h beta mu i).
Proof.
  apply keeps_bind; [apply keeps_node_getattr|]. intros v.
  case_match; [apply keeps_ret|].
  apply keeps_bind; [apply keeps_neighbors|]. intros js.
  apply keeps_bind.
  - apply keeps_for_each. intros j _.
    apply keeps_bind; [by apply keeps_np_random|]. intros u.
    case_match; [apply keeps_node_setattr | apply keeps_ret].
  - intros _. apply keeps_bind; [by apply keeps_np_random|]. intros u.
    case_match; apply keeps_node_setattr.
Qed.

Lemma keeps_visit_all beta mu : keeps obs (visit_all h beta mu).
Proof.
  apply keeps_bind; [apply keeps_graph_nodes|]. intros ns.
  apply keeps_bind; [by apply keeps_np_permutation|]. intros p.
  apply keeps_for_each. intros i _. apply keeps_visit_node.
Qed.

Lemma keeps_commit : keeps obs (commit h).
Proof.
  apply keeps_bind; [apply keeps_get_node_attributes|]. intros d.
  apply keeps_bind; [apply keeps_set_node_attributes_dict|]. intros _.
  apply keeps_set_node_attributes_const.
Qed.

Lemma keeps_sis_step beta mu TS t : keeps obs (sis_step h beta mu TS t).
Proof.
  apply keeps_bind; [apply keeps_visit_all|]. intros _.
  apply keeps_bind; [apply keeps_commit|]. intros _.
  apply keeps_bind; [apply keeps_get_node_attributes|]. intros d.
  by apply keeps_set_col.
Qed.

Lemma keeps_sis_loop beta mu ts TS : keeps obs (sis_loop h beta mu ts TS).
Proof.
  revert TS. induction ts as [|t ts IH]; intros TS; simpl; [apply keeps_ret|].
  apply keeps_bind; [by apply keeps_col_sum|]. intros s.
  case_match; [apply keeps_ret|].
  apply keeps_bind; [apply keeps_sis_step|]. done.
Qed.

Lemma keeps_sis_init_from G L num_seeds beta mu :
  keeps obs (sis_init_from h G L num_seeds beta mu).
Proof.
  apply keeps_bind; [apply keeps_number_of_nodes|]. intros N.
  apply keeps_bind; [by apply keeps_np_zeros|]. intros TS.
  apply keeps_bind; [apply keeps_number_of_nodes|]. intros order.
  apply keeps_bind; [apply keeps_graph_nodes|]. intros gnodes.
  apply keeps_bind; [apply keeps_resolve_beta|]. intros b.
  apply keeps_bind; [apply keeps_resolve_mu|]. intros m.
  apply keeps_bind; [by apply keeps_draw_seeds|]. intros seeds.
  apply keeps_bind; [by apply keeps_set_col|]. intros TS'.
  apply keeps_bind; [by apply keeps_seed_attr|]. intros ia.
  apply keeps_bind; [apply keeps_set_node_attributes_dict|]. intros _.
  apply keeps_bind; [apply keeps_set_node_attributes_const|]. intros _.
  apply keeps_ret.
Qed.
End keeps_graph.

(** Inverting a successful run of a sequence of binds. *)
Ltac inv_binds H :=
  repeat (let a := fresh "a" in let w := fresh "w" in let E := fresh "E" in
          apply bind_inv_Ok in H as (a & w & E & H); cbv beta in H).

Lemma ret_inv_Ok {A} (a b : A) w w' : ret a w = (Ok b, w') -> a = b /\ w = w'.
Proof. unfold ret. by intros [= -> ->]. Qed.

Lemma sis_init_from_H h G L num_seeds beta mu w l w' :
  sis_init_from h G L num_seeds beta mu w = (Ok l, w') -> l_H l = h.
Proof.
  intros E. unfold sis_init_from in E. inv_binds E.
  apply ret_inv_Ok in E as [<- _]. done.
Qed.

Lemma graph_copy_inv g w h w' :
  graph_copy g w = (Ok h, w') ->
  exists G, heap w !! g = Some G /\ h = fresh (dom (heap w)) /\
            w' = set_heap (insert h G) w.
Proof.
  unfold graph_copy, bind, read_graph.
  destruct (heap w !! g) as [G|] eqn:E; [|discriminate].
  intros [= <- <-]. eauto.
Qed.

Lemma graph_copy_fresh g w h w' :
  graph_copy g w = (Ok h, w') -> heap w !! h = None.
Proof.
  intros (G & _ & -> & _)%graph_copy_inv.
  apply not_elem_of_dom, is_fresh.
Qed.

(** No run of [sis_run] writes the results dictionary. *)
Lemma sis_run_keeps_results G L num_seeds beta mu :
  keeps results (sis_run G L num_seeds beta mu).
Proof.
  assert (forall h, keeps results (graph_copy h)) as Hcopy.
  { intros h w. unfold graph_copy, bind, read_graph. by destruct (heap w !! h). }
  apply keeps_bind.
  - apply keeps_bind; [apply Hcopy|]. intros h.
    by apply keeps_sis_init_from.
  - intros l. apply keeps_bind; [by apply keeps_sis_loop|].
    intros TS. apply keeps_ret.
Qed.

(** No run of [simulate] changes a graph object that existed before the
    call. *)
Lemma simulate_keeps_object G L num_seeds beta mu g w X :
  heap w !! g = Some X ->
  heap (simulate G L num_seeds beta mu w).2 !! g = Some X.
Proof.
  intros Hg. unfold simulate, sis_run, sis_init.
  unfold bind at 1. unfold bind at 1. unfold bind at 1.
  destruct (graph_copy G w) as [[h|e] w1] eqn:Ecopy.
  2:{ simpl. unfold graph_copy, bind, read_graph in Ecopy.
      destruct (heap w !! G); [done|]. by injection Ecopy as <- <-. }
  assert (h <> g) as Hne.
  { apply graph_copy_fresh in Ecopy. congruence. }
  assert (heap w1 !! g = Some X) as Hg1.
  { apply graph_copy_inv in Ecopy as (G0 & _ & _ & ->). simpl.
    by rewrite lookup_insert_ne. }
  set (obs := fun w : world => heap w !! g).
  assert (forall f w, obs (set_rng_pos f w) = obs w) as Hrng by done.
  assert (forall G w, obs (set_heap (insert h G) w) = obs w) as Hheap.
  { intros G0 w0. unfold obs. simpl. by rewrite lookup_insert_ne. }
  pose proof (keeps_sis_init_from obs h Hrng Hheap G L num_seeds beta mu w1) as K1.
  destruct (sis_init_from h G L num_seeds beta mu w1) as [[l|e] w2] eqn:Einit;
    simpl in K1.
  2:{ simpl. unfold obs in K1. congruence. }
  apply sis_init_from_H in Einit as Hl. unfold bind at 1.
  pose proof (keeps_sis_loop obs h Hrng Hheap (l_beta l) (l_mu l) (py_range1 L)
                (l_TS l) w2) as K2.
  rewrite Hl.
  destruct (sis_loop h (l_beta l) (l_mu l) (py_range1 L) (l_TS l) w2)
    as [[TS|e] w3] eqn:Eloop; simpl in K2.
  2:{ simpl. unfold obs in *. congruence. }
  unfold ret at 2. simpl.
  pose proof (keeps_pad obs (l_N l) L TS w3) as K3.
  unfold bind.
  destruct (pad (l_N l) L TS w3) as [[TS'|e] w4]; simpl in *;
    unfold obs in *; congruence.
Qed.

(** ** Successful runs *)

Lemma wp_ret {A} (a : A) (Q : A -> world -> Prop) w : Q a w -> wp (ret a) Q w.
Proof. intros HQ. by exists a, w. Qed.

Lemma wp_bind {A B} (m : M A) (f : A -> M B) (Q : B -> world -> Prop) w :
  wp m (fun a w' => wp (f a) Q w') w -> wp (bind m f) Q w.
Proof.
  intros (a & w1 & Em & b & w2 & Ef & HQ).
  exists b, w2. split; [|done]. by rewrite (bind_Ok _ _ _ _ _ Em).
Qed.

Lemma wp_mono {A} (m : M A) (Q Q' : A -> world -> Prop) w :
  wp m Q w -> (forall a w', Q a w' -> Q' a w') -> wp m Q' w.
Proof. intros (a & w' & E & HQ) H. exists a, w'. auto. Qed.

Lemma wp_for_each {A} (I : nat -> world -> Prop) (l : list A)
    (body : A -> M unit) (Q : unit -> world -> Prop) w :
  I 0%nat w ->
  (forall k x w1, l !! k = Some x -> I k w1 ->
     wp (body x) (fun _ w2 => I (S k) w2) w1) ->
  (forall w', I (length l) w' -> Q tt w') ->
  wp (for_each l body) Q w.
Proof.
  revert I w. induction l as [|x l IH]; intros I w H0 Hstep Hend; simpl.
  - apply wp_ret. by apply Hend.
  - apply wp_bind.
    eapply wp_mono; [apply (Hstep 0%nat x w); done|].
    intros [] w1 H1. simpl in H1.
    apply (IH (fun k => I (S k))); [done| |done].
    intros k y w2 Hk. by apply (Hstep (S k)).
Qed.

Lemma flag_put_attr H n name v n' name' :
  is_Some (g_attr H !! n) ->
  flag (put_attr n name v H) n' name' =
    if decide (n' = n /\ name' = name) then Some v else flag H n' name'.
Proof.
  intros [d Hd]. unfold flag, put_attr. simpl.
  destruct (decide (n' = n)) as [->|Hn].
  - rewrite lookup_alter_eq, Hd. simpl.
    destruct (decide (name' = name)) as [->|Hname].
    + rewrite lookup_insert_eq. by rewrite decide_True.
    + rewrite lookup_insert_ne by done. case_decide; naive_solver.
  - rewrite lookup_alter_ne by done. case_decide; naive_solver.
Qed.

Lemma put_attr_dict H n name v n' :
  is_Some (g_attr (put_attr n name v H) !! n') <-> is_Some (g_attr H !! n').
Proof.
  unfold put_attr. simpl. destruct (decide (n' = n)) as [->|Hn].
  - rewrite lookup_alter_eq. by rewrite fmap_is_Some.
  - by rewrite lookup_alter_ne.
Qed.

Section wp_primitives.
Context (h : loc) (raw : nat -> N).

Lemma wp_read_graph H p (Q : Graph -> world -> Prop) w :
  sees h raw H p w -> Q H w -> wp (read_graph h) Q w.
Proof.
  intros (Hh & _ & _) HQ. exists H, w. split; [|done].
  unfold read_graph. by rewrite Hh.
Qed.

Lemma wp_graph_nodes H p (Q : list node -> world -> Prop) w :
  sees h raw H p w -> Q (g_nodes H) w -> wp (graph_nodes h) Q w.
Proof.
  intros Hs HQ. apply wp_bind. eapply wp_read_graph; [done|]. by apply wp_ret.
Qed.

Lemma wp_number_of_nodes H p (Q : nat -> world -> Prop) w :
  sees h raw H p w -> Q (length (g_nodes H)) w -> wp (number_of_nodes h) Q w.
Proof.
  intros Hs HQ. apply wp_bind. eapply wp_read_graph; [done|]. by apply wp_ret.
Qed.

Lemma wp_node_getattr H p n name v (Q : Z -> world -> Prop) w :
  sees h raw H p w -> flag H n name = Some v -> Q v w ->
  wp (node_getattr h n name) Q w.
Proof.
  intros Hs Hf HQ. apply wp_bind. eapply wp_read_graph; [done|].
  unfold flag in Hf. destruct (g_attr H !! n) as [d|]; [|done].
  simpl in Hf. rewrite Hf. by apply wp_ret.
Qed.

Lemma wp_node_setattr H p n name v (Q : unit -> world -> Prop) w :
  sees h raw H p w -> is_Some (g_attr H !! n) ->
  (forall w', sees h raw (put_attr n name v H) p w' -> Q tt w') ->
  wp (node_setattr h n name v) Q w.
Proof.
  intros Hs [d Hd] HQ. apply wp_bind. eapply wp_read_graph; [done|].
  rewrite Hd. eexists tt, _. split; [reflexivity|].
  apply HQ. destruct Hs as (Hh & Hr & Hp).
  split; [|done]. simpl. rewrite lookup_insert_eq. f_equal.
  unfold put_attr. f_equal. apply map_eq. intros i.
  destruct (decide (i = n)) as [->|Hi].
  - by rewrite lookup_insert_eq, lookup_alter_eq, Hd.
  - by rewrite lookup_insert_ne, lookup_alter_ne.
Qed.

Lemma wp_neighbors H p n js (Q : list node -> world -> Prop) w :
  sees h raw H p w -> g_adj H !! n = Some js -> Q js w ->
  wp (neighbors h n) Q w.
Proof.
  intros Hs Hf HQ. apply wp_bind. eapply wp_read_graph; [done|].
  rewrite Hf. by apply wp_ret.
Qed.

Lemma wp_np_random H p (Q : Q -> world -> Prop) w :
  sees h raw H p w ->
  (forall w', sees h raw H (S p) w' -> Q (uniform (raw p)) w') ->
  wp np_random Q w.
Proof.
  intros (Hh & Hr & Hp) HQ. apply wp_bind.
  eexists _, _. split; [reflexivity|]. apply wp_ret.
  rewrite Hr, Hp. apply HQ. split; [done|]. simpl. by rewrite Hp.
Qed.

Lemma wp_np_permutation {A} (l : list A) H p (Q : list A -> world -> Prop) w :
  sees h raw H p w ->
  (forall l' w', l' ≡ₚ l -> sees h raw H (p + length l)%nat w' -> Q l' w') ->
  wp (np_permutation l) Q w.
Proof.
  revert p Q w. induction l as [|x l IH]; intros p Q w Hs HQ; simpl.
  - apply wp_ret. apply HQ; [done|]. by rewrite Nat.add_0_r.
  - apply wp_bind. eapply IH; [done|]. intros l' w1 Hl' Hs1.
    apply wp_bind. destruct Hs1 as (Hh & Hr & Hp).
    eexists _, _. split; [reflexivity|]. apply wp_ret. apply HQ.
    + rewrite <- Hl'. rewrite <- Permutation_middle.
      by rewrite take_drop.
    + split; [done|]. split; [done|]. simpl. rewrite Hp. lia.
Qed.
End wp_primitives.

(** Every permutation of [l] is drawn by some words of the random
    stream: quantifying over streams covers every order of visit and
    every placement of the seeds. *)
Lemma np_permutation_complete {A} (l : list A) : forall l',
  l' ≡ₚ l ->
  exists ws : list N,
    length ws = length l /\
    forall w,
      (forall i r, ws !! i = Some r -> rng_raw w (rng_pos w + i)%nat = r) ->
      np_permutation l w = (Ok l', set_rng_pos (fun p => p + length l)%nat w).
Proof.
  induction l as [|x l IH]; intros l' Hperm.
  - apply Permutation_nil_r in Hperm as ->. exists []. split; [done|].
    intros [hp res raw p] _. unfold set_rng_pos. simpl.
    by rewrite Nat.add_0_r.
  - assert (x ∈ l') as Hx by (rewrite Hperm; left).
    apply list_elem_of_split in Hx as (l1 & l2 & ->).
    symmetry in Hperm. apply Permutation_cons_app_inv in Hperm.
    symmetry in Hperm.
    destruct (IH (l1 ++ l2)) as (ws & Hlen & Hrun); [done|].
    exists (ws ++ [N.of_nat (length l1)]). split.
    { rewrite length_app. simpl. lia. }
    intros w Hw. simpl.
    erewrite bind_Ok; [|apply Hrun].
    2:{ intros i r Hi. apply Hw. by apply lookup_app_l_Some. }
    unfold bind, next_raw. simpl.
    rewrite (Hw (length l) (N.of_nat (length l1))).
    2:{ rewrite <- Hlen. rewrite lookup_app_r by lia.
        by rewrite Nat.sub_diag. }
    assert (length l1 < S (length (l1 ++ l2)))%nat as Hlt.
    { rewrite length_app. lia. }
    rewrite N.mod_small by lia. rewrite Nat2N.id.
    rewrite take_app_length, drop_app_length.
    unfold ret, set_rng_pos. simpl. do 2 f_equal. lia.
Qed.

Lemma similar_refl H : similar H H.
Proof. by repeat split. Qed.

Lemma similar_trans H1 H2 H3 : similar H1 H2 -> similar H2 H3 -> similar H1 H3.
Proof.
  intros (N1 & A1 & D1) (N2 & A2 & D2). repeat split; try congruence.
  - intros ?. by apply D1, D2.
  - intros ?. by apply D2, D1.
Qed.

Lemma similar_put_attr H n name v : similar H (put_attr n name v H).
Proof. split; [done|]. split; [done|]. intros n'. apply put_attr_dict. Qed.

Section wp_attributes.
Context (h : loc) (raw : nat -> N).

Lemma wp_set_node_attributes_const H p v name (Q : unit -> world -> Prop) w :
  sees h raw H p w ->
  (forall n, n ∈ g_nodes H -> is_Some (g_attr H !! n)) ->
  (forall w' H', sees h raw H' p w' -> similar H H' ->
     (forall n name', name' <> name -> flag H' n name' = flag H n name') ->
     (forall n, n ∈ g_nodes H -> flag H' n name = Some v) ->
     Q tt w') ->
  wp (set_node_attributes_const h v name) Q w.
Proof.
  intros Hs Hd HQ. apply wp_bind. eapply wp_graph_nodes; [done|].
  eapply (wp_for_each (fun k w' => exists H',
    sees h raw H' p w' /\ similar H H' /\
    (forall n name', name' <> name -> flag H' n name' = flag H n name') /\
    (forall n, n ∈ take k (g_nodes H) -> flag H' n name = Some v))).
  - exists H. split; [done|]. split; [apply similar_refl|].
    split; [done|]. intros n. simpl. by intros ?%elem_of_nil.
  - intros k n w1 Hk (H1 & Hs1 & Hsim & Hoth & Hset).
    assert (is_Some (g_attr H1 !! n)) as Hn.
    { apply Hsim, Hd. by eapply list_elem_of_lookup_2. }
    eapply wp_node_setattr; [done..|]. intros w2 Hs2.
    exists (put_attr n name v H1). split; [done|].
    split; [eapply similar_trans; [done|apply similar_put_attr]|].
    split.
    + intros n' name' Hne. rewrite flag_put_attr by done.
      rewrite decide_False by naive_solver. by apply Hoth.
    + intros n'. rewrite (take_S_r _ _ _ Hk).
      rewrite flag_put_attr by done. intros Hin.
      case_decide; [done|]. apply Hset.
      apply elem_of_app in Hin as [?|Hin]; [done|].
      apply list_elem_of_singleton in Hin. naive_solver.
  - intros w' (H' & Hs' & Hsim & Hoth & Hset).
    eapply HQ; [done..|]. intros n Hn. apply Hset.
    by rewrite firstn_all.
Qed.

Lemma wp_set_node_attributes_dict H p values name (Q : unit -> world -> Prop) w :
  sees h raw H p w ->
  NoDup values.*1 ->
  (forall n, n ∈ values.*1 -> is_Some (g_attr H !! n)) ->
  (forall w' H', sees h raw H' p w' -> similar H H' ->
     (forall n name', name' <> name -> flag H' n name' = flag H n name') ->
     (forall n, n ∉ values.*1 -> flag H' n name = flag H n name) ->
     (forall i n v, values !! i = Some (n, v) -> flag H' n name = Some v) ->
     Q tt w') ->
  wp (set_node_attributes_dict h values name) Q w.
Proof.
  intros Hs Hnd Hd HQ.
  eapply (wp_for_each (fun k w' => exists H',
    sees h raw H' p w' /\ similar H H' /\
    (forall n name', name' <> name -> flag H' n name' = flag H n name') /\
    (forall n, n ∉ (take k values).*1 -> flag H' n name = flag H n name) /\
    (forall i n v, (i < k)%nat -> values !! i = Some (n, v) ->
       flag H' n name = Some v))).
  - exists H. split; [done|]. split; [apply similar_refl|].
    split; [done|]. split; [done|]. intros; lia.
  - intros k [n v] w1 Hk (H1 & Hs1 & Hsim & Hoth & Hout & Hset). simpl.
    assert (is_Some (g_attr H1 !! n)) as Hn.
    { apply Hsim, Hd. apply list_elem_of_fmap. exists (n, v).
      split; [done|]. by eapply list_elem_of_lookup_2. }
    apply wp_bind. eapply wp_read_graph; [done|].
    destruct Hn as [d Hn]. rewrite Hn.
    eapply wp_node_setattr; [done|by rewrite Hn|]. intros w2 Hs2.
    exists (put_attr n name v H1). split; [done|].
    split; [eapply similar_trans; [done|apply similar_put_attr]|].
    split; [|split].
    + intros n' name' Hne. rewrite flag_put_attr by (by rewrite Hn).
      rewrite decide_False by naive_solver. by apply Hoth.
    + intros n'. rewrite (take_S_r _ _ _ Hk), fmap_app. simpl.
      intros Hin. rewrite flag_put_attr by (by rewrite Hn).
      rewrite decide_False; [apply Hout|]; set_solver.
    + intros i n' v' Hi Hv'. rewrite flag_put_attr by (by rewrite Hn).
      case_decide as Hc.
      * destruct Hc as [-> _].
        assert (i = k) as ->; [|congruence].
        eapply NoDup_lookup; [done| |].
        -- rewrite list_lookup_fmap, Hv'. done.
        -- rewrite list_lookup_fmap, Hk. done.
      * apply (Hset i n' v'); [|done].
        destruct (decide (i = k)) as [->|]; [|lia].
        rewrite Hk in Hv'. naive_solver.
  - intros w' (H' & Hs' & Hsim & Hoth & Hout & Hset).
    eapply HQ; [done..| |].
    + intros n Hn. apply Hout. by rewrite firstn_all.
    + intros i n v Hi. eapply Hset; [|done]. by eapply lookup_lt_Some.
Qed.

Lemma wp_get_node_attributes H p name (Q : list (node * Z) -> world -> Prop) w :
  sees h raw H p w ->
  (forall n, n ∈ g_nodes H -> is_Some (flag H n name)) ->
  Q (attr_items H name) w ->
  wp (get_node_attributes h name) Q w.
Proof.
  intros Hs Hall HQ. apply wp_bind. eapply wp_read_graph; [done|].
  apply wp_ret.
  assert (omap (fun n => d ← g_attr H !! n; v ← d !! name; Some (n, v))
            (g_nodes H) = attr_items H name) as ->; [|done].
  unfold attr_items. induction (g_nodes H) as [|n ns IH]; [done|].
  simpl. destruct (Hall n) as [v Hv]; [left|].
  assert ((d ← g_attr H !! n; v ← d !! name; Some (n, v)) = Some (n, v)) as ->.
  { unfold flag in Hv. destruct (g_attr H !! n) as [d|]; [|done].
    simpl in *. by rewrite Hv. }
  rewrite Hv. simpl. f_equal. apply IH. intros n' Hn'. apply Hall. by right.
Qed.
End wp_attributes.

Lemma attr_items_keys H name : (attr_items H name).*1 = g_nodes H.
Proof.
  unfold attr_items. rewrite <- list_fmap_compose.
  induction (g_nodes H) as [|n ns IH]; [done|]. simpl. by f_equal.
Qed.

Lemma attr_items_values H name :
  (attr_items H name).*2 = (fun n => default 0 (flag H n name)) <$> g_nodes H.
Proof. unfold attr_items. by rewrite <- list_fmap_compose. Qed.

Lemma attr_items_lookup H name i n v :
  attr_items H name !! i = Some (n, v) ->
  g_nodes H !! i = Some n /\ v = default 0 (flag H n name).
Proof.
  unfold attr_items. rewrite list_lookup_fmap.
  destruct (g_nodes H !! i) as [n'|]; [|done]. simpl. by intros [= <- <-].
Qed.

(** ** One visit *)

Lemma infects_0 beta raw p js n : ~ infects beta raw p js 0 n.
Proof. intros (i & Hi & _). lia. Qed.

Lemma infects_S beta raw p js k n :
  infects beta raw p js (S k) n <->
  infects beta raw p js k n \/
  (js !! k = Some n /\ float_lt (uniform (raw (p + k)%nat)) beta = true).
Proof.
  split.
  - intros (i & Hi & Hn & Hlt). destruct (decide (i = k)) as [->|].
    + by right.
    + left. exists i. split; [lia|done].
  - intros [(i & Hi & Hn & Hlt)|[Hn Hlt]].
    + exists i. split; [lia|done].
    + exists k. split; [lia|done].
Qed.

Lemma infects_dec beta raw p js k n :
  infects beta raw p js k n \/ ~ infects beta raw p js k n.
Proof.
  induction k as [|k [IH|IH]].
  - right. apply infects_0.
  - left. apply infects_S. by left.
  - destruct (decide (js !! k = Some n)) as [Hk|Hk];
      [destruct (float_lt (uniform (raw (p + k)%nat)) beta) eqn:Hlt|].
    + left. apply infects_S. by right.
    + right. rewrite infects_S. intros [?|[_ ?]]; [done|congruence].
    + right. rewrite infects_S. tauto.
Qed.

Section wp_visit.
Context (h : loc) (raw : nat -> N).

Lemma flag_dict H n name : is_Some (flag H n name) -> is_Some (g_attr H !! n).
Proof. unfold flag. destruct (g_attr H !! n); [eauto|]. by intros [? ?]. Qed.

Lemma wp_visit_node_susceptible H p beta mu i (Q : unit -> world -> Prop) w :
  sees h raw H p w -> flag H i "infected" = Some 0 -> Q tt w ->
  wp (visit_node h beta mu i) Q w.
Proof.
  intros Hs Hi HQ. apply wp_bind. eapply wp_node_getattr; [done..|].
  rewrite decide_True by done. by apply wp_ret.
Qed.

Lemma wp_visit_node_infected H p beta mu i v js (Q : unit -> world -> Prop) w :
  sees h raw H p w ->
  flag H i "infected" = Some v -> v <> 0 ->
  g_adj H !! i = Some js ->
  (forall j, j ∈ js -> is_Some (g_attr H !! j)) ->
  (forall w' H', sees h raw H' (p + length js + 1)%nat w' ->
     visited beta mu raw p i js H H' -> Q tt w') ->
  wp (visit_node h beta mu i) Q w.
Proof.
  intros Hs Hi Hv Hjs Hd HQ.
  assert (is_Some (g_attr H !! i)) as Hdi by (eapply flag_dict; eauto).
  apply wp_bind. eapply wp_node_getattr; [done..|].
  rewrite decide_False by done.
  apply wp_bind. eapply wp_neighbors; [done..|].
  apply wp_bind.
  eapply (wp_for_each (fun k w' => exists H1,
    sees h raw H1 (p + k)%nat w' /\ similar H H1 /\
    (forall n name, name <> "next_infected" -> flag H1 n name = flag H n name) /\
    (forall n, infects beta raw p js k n -> flag H1 n "next_infected" = Some 1) /\
    (forall n, ~ infects beta raw p js k n ->
       flag H1 n "next_infected" = flag H n "next_infected"))).
  - exists H. rewrite Nat.add_0_r. split; [done|].
    split; [apply similar_refl|]. split; [done|].
    split; [|done]. intros n Hn. by apply infects_0 in Hn.
  - intros k j w1 Hk (H1 & Hs1 & Hsim & Hoth & Hhit & Hmiss).
    apply wp_bind. eapply wp_np_random; [done|]. intros w2 Hs2.
    replace (S (p + k)) with (p + S k)%nat in Hs2 by lia.
    destruct (float_lt (uniform (raw (p + k)%nat)) beta) eqn:Hlt.
    + assert (is_Some (g_attr H1 !! j)) as Hj.
      { apply Hsim, Hd. by eapply list_elem_of_lookup_2. }
      eapply wp_node_setattr; [done..|]. intros w3 Hs3.
      exists (put_attr j "next_infected" 1 H1). split; [done|].
      split; [eapply similar_trans; [done|apply similar_put_attr]|].
      split; [|split].
      * intros n name Hne. rewrite flag_put_attr by done.
        rewrite decide_False by naive_solver. by apply Hoth.
      * intros n Hn. rewrite flag_put_attr by done.
        case_decide; [done|]. apply Hhit.
        apply infects_S in Hn as [Hn|[Hn _]]; [done|]. naive_solver.
      * intros n Hn. rewrite flag_put_attr by done.
        rewrite infects_S in Hn.
        rewrite decide_False by naive_solver. apply Hmiss. tauto.
    + apply wp_ret. exists H1. split; [done|]. split; [done|].
      split; [done|]. split.
      * intros n Hn. apply Hhit.
        apply infects_S in Hn as [Hn|[_ Hn]]; [done|congruence].
      * intros n Hn. apply Hmiss. rewrite infects_S in Hn. tauto.
  - intros w1 (H1 & Hs1 & Hsim & Hoth & Hhit & Hmiss).
    assert (is_Some (g_attr H1 !! i)) as Hi1 by by apply Hsim.
    apply wp_bind. eapply wp_np_random; [done|]. intros w2 Hs2.
    replace (S (p + length js)) with (p + length js + 1)%nat in Hs2 by lia.
    fold (cures mu raw p js).
    destruct (cures mu raw p js) eqn:Hc.
    + eapply wp_node_setattr; [done..|]. intros w3 Hs3.
      eapply HQ; [done|]. unfold visited. rewrite Hc.
      split; [eapply similar_trans; [done|apply similar_put_attr]|].
      split; [|split; [|split]].
      * intros n name Hne1 Hne2. rewrite flag_put_attr by done.
        rewrite decide_False by naive_solver. by apply Hoth.
      * intros n. rewrite flag_put_attr by done.
        destruct (decide (n = i)) as [->|Hn].
        -- by rewrite !decide_True.
        -- rewrite !decide_False by naive_solver. by apply Hoth.
      * intros n [Hn|[_ ?]]; [|done]. rewrite flag_put_attr by done.
        rewrite decide_False by naive_solver. by apply Hhit.
      * intros n Hn. rewrite flag_put_attr by done.
        rewrite decide_False by naive_solver. apply Hmiss. tauto.
    + eapply wp_node_setattr; [done..|]. intros w3 Hs3.
      eapply HQ; [done|]. unfold visited. rewrite Hc.
      split; [eapply similar_trans; [done|apply similar_put_attr]|].
      split; [|split; [|split]].
      * intros n name Hne1 Hne2. rewrite flag_put_attr by done.
        rewrite decide_False by naive_solver. by apply Hoth.
      * intros n. rewrite flag_put_attr by done.
        rewrite !decide_False by naive_solver. by apply Hoth.
      * intros n Hn. rewrite flag_put_attr by done.
        case_decide as Hd'; [done|]. apply Hhit. naive_solver.
      * intros n Hn. rewrite flag_put_attr by done.
        rewrite decide_False by naive_solver. apply Hmiss. tauto.
Qed.
End wp_visit.

(** ** Well-formed graphs and the loop invariant *)

Lemma well_formed_NoDup G : well_formed G = true -> NoDup (g_nodes G).
Proof.
  unfold well_formed. rewrite !andb_true_iff, !bool_decide_eq_true. tauto.
Qed.

Lemma well_formed_attr G n :
  well_formed G = true -> n ∈ g_nodes G -> is_Some (g_attr G !! n).
Proof.
  unfold well_formed. rewrite !andb_true_iff, !bool_decide_eq_true.
  intros [[[_ Hd] _] _] Hn. apply elem_of_dom. rewrite Hd.
  by apply elem_of_list_to_set.
Qed.

Lemma well_formed_adj G n :
  well_formed G = true -> n ∈ g_nodes G ->
  exists js, g_adj G !! n = Some js /\ forall j, j ∈ js -> j ∈ g_nodes G.
Proof.
  unfold well_formed. rewrite !andb_true_iff, !bool_decide_eq_true.
  intros [_ Hn] Hin. rewrite forallb_forall in Hn.
  specialize (Hn n). rewrite <- list_elem_of_In in Hn. specialize (Hn Hin).
  destruct (g_adj G !! n) as [js|]; [|done]. exists js. split; [done|].
  intros j Hj. rewrite forallb_forall in Hn. specialize (Hn j).
  rewrite <- list_elem_of_In in Hn. specialize (Hn Hj).
  by apply bool_decide_eq_true in Hn.
Qed.

Lemma visited_staged G0 beta mu raw p i js H H' :
  staged G0 H -> visited beta mu raw p i js H H' -> staged G0 H'.
Proof.
  intros [Hsim Hbin] (Hsim' & _ & Hinf & Hhit & Hmiss).
  split; [by eapply similar_trans|]. intros n Hn.
  destruct (Hbin n Hn) as [Hb1 Hb2]. split.
  - rewrite Hinf. destruct (decide _); [by left|done].
  - assert (Decision (n = i /\ cures mu raw p js = false)) as [Hc|Hc]
      by apply _.
    { right. apply Hhit. by right. }
    destruct (infects_dec beta raw p js (length js) n) as [Hc'|Hc'].
    + right. apply Hhit. by left.
    + rewrite Hmiss; [done|]. tauto.
Qed.

Lemma visited_keeps_set beta mu raw p i js H H' n :
  visited beta mu raw p i js H H' ->
  flag H n "next_infected" = Some 1 -> flag H' n "next_infected" = Some 1.
Proof.
  intros (_ & _ & _ & Hhit & Hmiss) Hn.
  assert (Decision (n = i /\ cures mu raw p js = false)) as [Hc|Hc]
    by apply _.
  { apply Hhit. by right. }
  destruct (infects_dec beta raw p js (length js) n) as [Hc'|Hc'].
  - apply Hhit. by left.
  - rewrite Hmiss; [done|]. tauto.
Qed.

Section wp_pass.
Context (h : loc) (raw : nat -> N) (G0 : Graph).
Hypothesis G0_wf : well_formed G0 = true.

Lemma wp_visit_node H p beta mu i (Q : unit -> world -> Prop) w :
  sees h raw H p w -> staged G0 H -> i ∈ g_nodes G0 ->
  (forall w' H' p', sees h raw H' p' w' -> staged G0 H' ->
     visit_effect beta mu raw G0 p i H H' -> Q tt w') ->
  wp (visit_node h beta mu i) Q w.
Proof.
  intros Hs Hst Hi HQ. pose proof Hst as [(Hn & Ha & Hd) Hbin].
  destruct (Hbin i Hi) as [[H0|H1] _].
  - eapply wp_visit_node_susceptible; [done..|]. eapply HQ; [done..|]. by left.
  - destruct (well_formed_adj G0 i G0_wf Hi) as (js & Hjs & Hnb).
    eapply wp_visit_node_infected; [done|done|done|by rewrite Ha| |].
    + intros j Hj. apply Hd. apply well_formed_attr; auto.
    + intros w' H' Hs' Hv. eapply HQ; [done| |].
      * by eapply visited_staged.
      * right. exists js. done.
Qed.

(** A pass keeps every property [J] of the working copy that each single
    visit keeps. *)
Lemma wp_visit_all_inv (J : Graph -> Prop) H p beta mu
    (Q : unit -> world -> Prop) w :
  sees h raw H p w -> staged G0 H -> J H ->
  (forall H1 H2 p1 i, staged G0 H1 -> J H1 -> i ∈ g_nodes G0 ->
     visit_effect beta mu raw G0 p1 i H1 H2 -> J H2) ->
  (forall w' H' p', sees h raw H' p' w' -> staged G0 H' -> J H' -> Q tt w') ->
  wp (visit_all h beta mu) Q w.
Proof.
  intros Hs Hst HJ Hkeep HQ. pose proof Hst as [(Hn & Ha & Hd) Hbin].
  apply wp_bind. eapply wp_graph_nodes; [done|].
  apply wp_bind. eapply wp_np_permutation; [done|].
  intros nodes w1 Hperm Hs1.
  eapply (wp_for_each (fun _ w' => exists H' p',
    sees h raw H' p' w' /\ staged G0 H' /\ J H')).
  - eauto.
  - intros k i w2 Hk (H2 & p2 & Hs2 & Hst2 & HJ2).
    assert (i ∈ g_nodes G0) as Hi.
    { rewrite <- Hn, <- Hperm. by eapply list_elem_of_lookup_2. }
    eapply wp_visit_node; [done..|].
    intros w3 H3 p3 Hs3 Hst3 Heff. exists H3, p3.
    split; [done|]. split; [done|]. by apply (Hkeep H2 H3 p2 i).
  - intros w' (H' & p' & Hs' & Hst' & HJ'). by eapply HQ.
Qed.

Lemma wp_visit_all H p beta mu (Q : unit -> world -> Prop) w :
  sees h raw H p w -> staged G0 H ->
  (forall w' H' p', sees h raw H' p' w' -> staged G0 H' -> Q tt w') ->
  wp (visit_all h beta mu) Q w.
Proof.
  intros Hs Hst HQ.
  eapply (wp_visit_all_inv (fun _ => True)); [done..| |]; eauto.
Qed.
End wp_pass.

(** ** One timestep *)

Lemma col_ok_sum N c : col_ok N c -> 0 <= sum_list c.
Proof.
  intros [_ Hc]. induction c as [|x c IH]; simpl; [done|].
  assert (x = 0 \/ x = 1) as Hx by (apply Hc; left).
  assert (0 <= sum_list c) by (apply IH; intros y Hy; apply Hc; by right).
  lia.
Qed.

Lemma col_ok_zeros N : col_ok N (replicate N 0).
Proof.
  split; [apply length_replicate|].
  intros x Hx. apply elem_of_replicate in Hx as [-> _]. by left.
Qed.

Lemma sum_list_zeros n : sum_list (replicate n 0) = 0.
Proof. induction n as [|n IH]; simpl; [done|]. by rewrite IH. Qed.

Section wp_step.
Context (h : loc) (raw : nat -> N) (G0 : Graph).
Hypothesis G0_wf : well_formed G0 = true.

Lemma wp_commit H p (Q : unit -> world -> Prop) w :
  sees h raw H p w ->
  NoDup (g_nodes H) ->
  (forall n, n ∈ g_nodes H -> is_Some (flag H n "next_infected")) ->
  (forall w' H', sees h raw H' p w' -> committed H H' -> Q tt w') ->
  wp (commit h) Q w.
Proof.
  intros Hs Hnd Hnext HQ.
  apply wp_bind. eapply wp_get_node_attributes; [done..|].
  apply wp_bind. eapply wp_set_node_attributes_dict; [done| | |].
  { by rewrite attr_items_keys. }
  { intros n. rewrite attr_items_keys. intros Hn.
    eapply flag_dict. by apply Hnext. }
  intros w1 H1 Hs1 Hsim1 Hoth1 Hout1 Hset1.
  pose proof Hsim1 as (Hn1 & _ & Hd1).
  eapply wp_set_node_attributes_const; [done| |].
  { intros n. rewrite Hn1. intros Hn. apply Hd1.
    eapply flag_dict. by apply Hnext. }
  intros w2 H2 Hs2 Hsim2 Hoth2 Hset2.
  eapply HQ; [done|]. split; [by eapply similar_trans|]. split.
  - intros n name Hne1 Hne2. rewrite Hoth2 by done. by apply Hoth1.
  - intros n Hn. split.
    + rewrite Hoth2 by done.
      apply list_elem_of_lookup in Hn as [i Hi].
      destruct (Hnext n) as [v Hv]; [by eapply list_elem_of_lookup_2|].
      rewrite Hv. apply (Hset1 i).
      unfold attr_items. rewrite list_lookup_fmap, Hi. simpl. by rewrite Hv.
    + apply Hset2. by rewrite Hn1.
Qed.

Lemma committed_staged H H' : staged G0 H -> committed H H' -> staged G0 H'.
Proof.
  intros [Hsim Hbin] (Hsim' & _ & Hc).
  split; [by eapply similar_trans|]. intros n Hn.
  destruct Hsim as (Hnodes & _). rewrite <- Hnodes in Hn.
  destruct (Hc n Hn) as [-> ->]. split; [|by left].
  apply Hbin. by rewrite <- Hnodes.
Qed.

Lemma wp_set_col TS t c (Q : ndarray -> world -> Prop) w :
  (t < shape1 TS)%nat -> length c = shape0 TS ->
  Q (mkArray (shape0 TS) (<[t := c]> (cols TS))) w ->
  wp (set_col TS t c) Q w.
Proof.
  intros Ht Hc HQ. unfold set_col.
  rewrite decide_True by done. rewrite decide_True by done. by apply wp_ret.
Qed.

Lemma staged_column H :
  staged G0 H ->
  col_ok (length (g_nodes G0)) (attr_items H "infected").*2.
Proof.
  intros [(Hn & _) Hbin]. rewrite attr_items_values, Hn. split.
  - by rewrite length_fmap.
  - intros x (n & -> & Hin)%list_elem_of_fmap.
    destruct (Hbin n Hin) as [[-> | ->] _]; simpl; auto.
Qed.

(** One timestep, with a property [J] of the working copy that every
    visit keeps: the column written is the list of the flags staged by
    the pass. *)
Lemma wp_sis_step_inv (J : Graph -> Prop) H p beta mu TS t
    (Q : ndarray -> world -> Prop) w :
  sees h raw H p w -> staged G0 H -> J H ->
  (forall H1 H2 p1 i, staged G0 H1 -> J H1 -> i ∈ g_nodes G0 ->
     visit_effect beta mu raw G0 p1 i H1 H2 -> J H2) ->
  shape0 TS = length (g_nodes G0) -> (t < shape1 TS)%nat ->
  (forall w' H1 H' p', sees h raw H' p' w' -> staged G0 H' ->
     J H1 -> committed H1 H' ->
     Q (mkArray (shape0 TS)
          (<[t := (attr_items H' "infected").*2]> (cols TS))) w') ->
  wp (sis_step h beta mu TS t) Q w.
Proof.
  intros Hs Hst HJ Hkeep HN Ht HQ.
  apply wp_bind. eapply (wp_visit_all_inv h raw G0 G0_wf J); [done..|].
  intros w1 H1 p1 Hs1 Hst1 HJ1. pose proof Hst1 as [(Hn1 & _) Hbin1].
  apply wp_bind. eapply wp_commit; [done| | |].
  { rewrite Hn1. by apply well_formed_NoDup. }
  { intros n. rewrite Hn1. intros Hn.
    destruct (Hbin1 n Hn) as [_ [-> | ->]]; eauto. }
  intros w2 H2 Hs2 Hc2.
  assert (staged G0 H2) as Hst2 by by eapply committed_staged.
  pose proof Hst2 as [(Hn2 & _) Hbin2].
  apply wp_bind. eapply wp_get_node_attributes; [done| |].
  { intros n. rewrite Hn2. intros Hn.
    destruct (Hbin2 n Hn) as [[-> | ->] _]; eauto. }
  pose proof (staged_column H2 Hst2) as Hcol.
  apply wp_set_col; [done|by rewrite HN; apply Hcol|].
  by eapply HQ.
Qed.

Lemma wp_sis_step H p beta mu TS t (Q : ndarray -> world -> Prop) w :
  sees h raw H p w -> staged G0 H ->
  shape0 TS = length (g_nodes G0) -> (t < shape1 TS)%nat ->
  (forall w' H' p' c, sees h raw H' p' w' -> staged G0 H' ->
     col_ok (shape0 TS) c ->
     Q (mkArray (shape0 TS) (<[t := c]> (cols TS))) w') ->
  wp (sis_step h beta mu TS t) Q w.
Proof.
  intros Hs Hst HN Ht HQ.
  eapply (wp_sis_step_inv (fun _ => True)); [done..| | | |]; [eauto|done..|].
  intros w' H1 H' p' Hs' Hst' _ _. eapply HQ; [done..|].
  rewrite HN. by apply staged_column.
Qed.

(** A timestep on a graph without edges in which every recovery trial
    succeeds: every infected node recovers and the new column is zero. *)
Lemma wp_sis_step_recover H p beta mu TS t (Q : ndarray -> world -> Prop) w :
  sees h raw H p w -> staged G0 H ->
  (forall n, n ∈ g_nodes G0 -> flag H n "next_infected" = Some 0) ->
  (forall n, n ∈ g_nodes G0 -> g_adj G0 !! n = Some []) ->
  (forall r, float_lt (uniform r) mu = true) ->
  shape0 TS = length (g_nodes G0) -> (t < shape1 TS)%nat ->
  (forall w', Q (mkArray (shape0 TS)
                   (<[t := replicate (length (g_nodes G0)) 0]> (cols TS))) w') ->
  wp (sis_step h beta mu TS t) Q w.
Proof.
  intros Hs Hst Hnext Hadj Hmu HN Ht HQ.
  eapply (wp_sis_step_inv
    (fun H' => forall n, n ∈ g_nodes G0 -> flag H' n "next_infected" = Some 0));
    [done..| | | |]; [|done..|].
  - intros H1 H2 p1 i Hst1 HJ1 Hi [[_ ->]|(js & Hjs & _ & Hv)]; [done|].
    rewrite (Hadj i Hi) in Hjs. injection Hjs as <-.
    destruct Hv as (_ & _ & _ & _ & Hmiss). intros n Hn.
    rewrite Hmiss; [by apply HJ1|].
    intros [Hc|[_ Hc]].
    + by apply infects_0 in Hc.
    + unfold cures in Hc. by rewrite Hmu in Hc.
  - intros w' H1 H' p' Hs' Hst' HJ1 (Hsim & _ & Hc).
    assert ((attr_items H' "infected").*2 = replicate (length (g_nodes G0)) 0)
      as ->; [|done].
    rewrite attr_items_values.
    destruct Hst' as [(Hn' & _) _]. rewrite Hn'.
    assert (forall n, n ∈ g_nodes G0 -> flag H' n "infected" = Some 0) as Hz.
    { intros n Hn. destruct Hsim as (Hn1 & _).
      assert (g_nodes H1 = g_nodes G0) as Hn1' by congruence.
      destruct (Hc n) as [-> _]; [by rewrite Hn1'|]. by apply HJ1. }
    clear -Hz. induction (g_nodes G0) as [|n ns IH]; [done|]. simpl.
    rewrite (Hz n) by left. simpl. f_equal. apply IH.
    intros m Hm. apply Hz. by right.
Qed.
End wp_step.

(** ** The main loop *)

Lemma shaped_set_col N L TS t c :
  shaped N L TS -> col_ok N c ->
  shaped N L (mkArray (shape0 TS) (<[t := c]> (cols TS))).
Proof.
  intros (H0 & H1 & Hc) Hcol. split; [done|]. split.
  - unfold shape1 in *. simpl. by rewrite length_insert.
  - simpl. intros c' Hc'. apply list_elem_of_lookup in Hc' as [j Hj].
    destruct (decide (j = t)) as [->|Hne].
    + destruct (decide (t < length (cols TS))%nat).
      * rewrite list_lookup_insert_eq in Hj by done. by injection Hj as <-.
      * rewrite list_insert_ge in Hj by lia.
        apply Hc. by eapply list_elem_of_lookup_2.
    + rewrite list_lookup_insert_ne in Hj by done.
      apply Hc. by eapply list_elem_of_lookup_2.
Qed.

Section wp_loop.
Context (h : loc) (raw : nat -> N) (G0 : Graph) (beta mu : pyfloat).
Hypothesis G0_wf : well_formed G0 = true.

Lemma wp_sis_loop L k : forall t TS H p w,
  (1 <= t)%nat -> (t + k = L)%nat ->
  sees h raw H p w -> staged G0 H ->
  loop_inv (length (g_nodes G0)) L t TS ->
  wp (sis_loop h beta mu (seq t k) TS) (loop_post h raw G0 L TS) w.
Proof.
  induction k as [|k IH]; intros t TS H p w Ht HL Hs Hst Hinv.
  - simpl. apply wp_ret. destruct Hinv as (Hsh & Hzero & Hlive).
    split; [eauto|]. split; [done|]. split; [|done].
    intros j j' c c' Hlt Hj Hsum Hj'.
    destruct (decide (j + 1 < t)%nat) as [Hjt|Hjt].
    + specialize (Hlive j c Hjt Hj). lia.
    + apply lookup_lt_Some in Hj'. destruct Hsh as (_ & Hsh1 & _).
      unfold shape1 in Hsh1. lia.
  - simpl. destruct Hinv as (Hsh & Hzero & Hlive).
    pose proof Hsh as (Hsh0 & Hsh1 & Hcols).
    destruct (lookup_lt_is_Some_2 (cols TS) (t - 1)) as [c Hc].
    { unfold shape1 in Hsh1. lia. }
    apply wp_bind. unfold col_sum. rewrite Hc. apply wp_ret.
    destruct (sum_list c <? 1) eqn:Hsum.
    + apply wp_ret. apply Z.ltb_lt in Hsum.
      split; [eauto|]. split; [done|]. split; [|done].
      intros j j' cj cj' Hlt Hj Hsumj Hj'.
      destruct (decide (j + 1 < t)%nat) as [Hjt|Hjt].
      * specialize (Hlive j cj Hjt Hj). lia.
      * apply (Hzero j'); [lia|done].
    + apply Z.ltb_ge in Hsum. apply wp_bind.
      eapply wp_sis_step; [done..| |].
      { unfold shape1 in *. lia. }
      intros w1 H1 p1 c1 Hs1 Hst1 Hc1. rewrite Hsh0 in Hc1.
      eapply wp_mono.
      * eapply (IH (S t)); [lia|lia|done|done|].
        split; [by apply shaped_set_col|]. simpl. split.
        -- intros j cj Hj. rewrite list_lookup_insert_ne by lia.
           apply Hzero. lia.
        -- intros j cj Hj. rewrite list_lookup_insert_ne by lia.
           destruct (decide (j = t - 1)%nat) as [->|].
           ++ rewrite Hc. by intros [= <-].
           ++ apply Hlive. lia.
      * intros TS' w' (Hw' & Hsh' & Habs' & Hcol0). simpl in Hcol0.
        rewrite list_lookup_insert_ne in Hcol0 by lia. done.
Qed.
End wp_loop.

(** ** Initialisation *)

Lemma index_to_node_lookup (l : list node) start i :
  (list_to_map (zip (seq start (length l)) l) : gmap nat node) !! (start + i)%nat
  = l !! i.
Proof.
  revert start i. induction l as [|x l IH]; intros start i; [done|].
  simpl. destruct i as [|i].
  - rewrite Nat.add_0_r. by rewrite lookup_insert_eq.
  - rewrite lookup_insert_ne by lia.
    replace (start + S i)%nat with (S start + i)%nat by lia. apply IH.
Qed.

Lemma seed_attr_run (idx : gmap nat node) w : forall seeds ns (f : nat -> nat),
  length seeds = length ns ->
  (forall i, idx !! f i = ns !! i) ->
  map_M (fun e : nat * Z =>
           match idx !! e.1 with
           | Some n => ret (n, e.2)
           | None => raise KeyError
           end)
        (imap (fun i s => (f i, s)) seeds) w
  = (Ok (zip ns seeds), w).
Proof.
  induction seeds as [|s seeds IH]; intros ns f Hlen Hidx.
  - by destruct ns.
  - destruct ns as [|n ns]; [done|]. rewrite imap_cons. simpl.
    rewrite (Hidx 0%nat). simpl.
    erewrite bind_Ok; [|reflexivity].
    erewrite bind_Ok; [reflexivity|].
    apply (IH ns (f ∘ S)); [by injection Hlen|].
    intros i. apply (Hidx (S i)).
Qed.

Section wp_init.
Context (h : loc) (raw : nat -> N).

Lemma wp_degrees H p (Q : list Z -> world -> Prop) w :
  sees h raw H p w ->
  (forall n, n ∈ g_nodes H -> is_Some (g_adj H !! n)) ->
  Q (degree_of H <$> g_nodes H) w ->
  wp (degrees h) Q w.
Proof.
  intros Hs Hadj HQ. apply wp_bind. eapply wp_graph_nodes; [done|].
  revert Q HQ. induction (g_nodes H) as [|n ns IH]; intros Q HQ; simpl.
  - by apply wp_ret.
  - destruct (Hadj n) as [js Hjs]; [left|].
    apply wp_bind. apply wp_bind. eapply wp_neighbors; [done..|].
    apply wp_ret. apply wp_bind. apply IH.
    + intros n' Hn'. apply Hadj. by right.
    + apply wp_ret. simpl in HQ. unfold degree_of in HQ at 1.
      by rewrite Hjs in HQ.
Qed.

Lemma wp_resolve_beta H p beta (Q : pyfloat -> world -> Prop) w :
  sees h raw H p w ->
  (forall n, n ∈ g_nodes H -> is_Some (g_adj H !! n)) ->
  Q (beta_used H beta) w ->
  wp (resolve_beta h beta) Q w.
Proof.
  intros Hs Hadj HQ.
  assert (forall Q' : pyfloat -> world -> Prop,
            Q' (np_reciprocal (np_mean (degree_of H <$> g_nodes H))) w ->
            wp (default_beta h) Q' w) as Hdef.
  { intros Q' HQ'. apply wp_bind. eapply wp_degrees; [done..|].
    by apply wp_ret. }
  unfold resolve_beta, beta_used in *. destruct beta as [b|]; [|by apply Hdef].
  destruct (py_not (Some b)); [by apply Hdef|]. by apply wp_ret.
Qed.

Lemma wp_resolve_mu H p mu (Q : pyfloat -> world -> Prop) w :
  sees h raw H p w ->
  (1 <= length (g_nodes H))%nat ->
  Q (mu_used H mu) w ->
  wp (resolve_mu h mu) Q w.
Proof.
  intros Hs HN HQ.
  assert (forall Q' : pyfloat -> world -> Prop,
            Q' (Fin (Qmake 1 (Pos.of_nat (length (g_nodes H))))) w ->
            wp (default_mu h) Q' w) as Hdef.
  { intros Q' HQ'. apply wp_bind. eapply wp_number_of_nodes; [done|].
    destruct (length (g_nodes H)); [lia|]. by apply wp_ret. }
  unfold resolve_mu, mu_used in *. destruct mu as [m|]; [|by apply Hdef].
  destruct (py_not (Some m)); [by apply Hdef|]. by apply wp_ret.
Qed.

Lemma wp_draw_seeds H p (N k : nat) (Q : list Z -> world -> Prop) w :
  sees h raw H p w -> (k <= N)%nat ->
  (forall seeds w', seeds ≡ₚ replicate k 1 ++ replicate (N - k) 0 ->
     sees h raw H (p + N)%nat w' -> Q seeds w') ->
  wp (draw_seeds N (Z.of_nat k)) Q w.
Proof.
  intros Hs Hk HQ. unfold draw_seeds, np_repeat.
  destruct (Z.of_nat k <? 0) eqn:E1; [lia|].
  destruct (Z.of_nat N - Z.of_nat k <? 0) eqn:E2; [lia|].
  apply wp_bind, wp_ret. apply wp_bind, wp_ret.
  rewrite Nat2Z.id. replace (Z.to_nat (Z.of_nat N - Z.of_nat k)) with (N - k)%nat by lia.
  eapply wp_np_permutation; [done|]. intros seeds w' Hperm Hs'.
  apply HQ; [done|].
  rewrite length_app, !length_replicate in Hs'.
  by replace (k + (N - k))%nat with N in Hs' by lia.
Qed.
End wp_init.

Lemma seeds_binary (seeds : list Z) k m x :
  seeds ≡ₚ replicate k 1 ++ replicate m 0 -> x ∈ seeds -> x = 0 \/ x = 1.
Proof.
  intros -> [Hx|Hx]%elem_of_app; apply elem_of_replicate in Hx as [-> _]; auto.
Qed.

Lemma sum_list_app l1 l2 : sum_list (l1 ++ l2) = sum_list l1 + sum_list l2.
Proof. induction l1 as [|x l1 IH]; simpl; [done|]. rewrite IH. lia. Qed.

Lemma sum_list_perm l1 l2 : l1 ≡ₚ l2 -> sum_list l1 = sum_list l2.
Proof. induction 1; simpl; lia. Qed.

Lemma sum_list_ones n : sum_list (replicate n 1) = Z.of_nat n.
Proof. induction n as [|n IH]; simpl; [done|]. rewrite IH. lia. Qed.

Lemma seeds_sum (seeds : list Z) k m :
  seeds ≡ₚ replicate k 1 ++ replicate m 0 -> sum_list seeds = Z.of_nat k.
Proof.
  intros ->%sum_list_perm.
  rewrite sum_list_app, sum_list_ones, sum_list_zeros. lia.
Qed.

Lemma graph_copy_run G G0 w :
  heap w !! G = Some G0 ->
  graph_copy G w =
    (Ok (fresh (dom (heap w))),
     set_heap (insert (fresh (dom (heap w))) G0) w).
Proof. intros HG. unfold graph_copy, bind, read_graph. by rewrite HG. Qed.

Lemma wp_sis_init G G0 L num_seeds beta mu (Q : locals -> world -> Prop) w :
  heap w !! G = Some G0 ->
  well_formed G0 = true ->
  (1 <= length (g_nodes G0))%nat ->
  1 <= L ->
  0 <= num_seeds <= Z.of_nat (length (g_nodes G0)) ->
  (forall l w', seeded G0 (rng_raw w) (Z.to_nat L) (Z.to_nat num_seeds) l w' ->
     l_H l = fresh (dom (heap w)) ->
     l_beta l = beta_used G0 beta -> l_mu l = mu_used G0 mu -> Q l w') ->
  wp (sis_init G L num_seeds beta mu) Q w.
Proof.
  intros HG Hwf HN HL Hk HQ.
  set (N := length (g_nodes G0)) in *.
  set (h := fresh (dom (heap w))) in *.
  set (raw := rng_raw w). set (p := rng_pos w).
  assert (h <> G) as Hne.
  { intros Heq. apply (is_fresh (dom (heap w))). fold h. rewrite Heq.
    apply elem_of_dom. eauto. }
  unfold sis_init. apply wp_bind.
  eexists _, _. split; [by apply graph_copy_run|]. fold h.
  set (w1 := set_heap (insert h G0) w).
  assert (sees h raw G0 p w1) as Hs1.
  { split; [|done]. simpl. by rewrite lookup_insert_eq. }
  assert (sees G raw G0 p w1) as HsG.
  { split; [|done]. simpl. by rewrite lookup_insert_ne. }
  unfold sis_init_from.
  apply wp_bind. eapply wp_number_of_nodes; [done|]. fold N.
  apply wp_bind. unfold np_zeros.
  destruct (L <? 0) eqn:EL; [lia|]. apply wp_ret.
  apply wp_bind. eapply wp_number_of_nodes; [exact HsG|]. fold N.
  apply wp_bind. eapply wp_graph_nodes; [exact HsG|].
  apply wp_bind. eapply wp_resolve_beta; [done| |].
  { intros n Hn. destruct (well_formed_adj G0 n Hwf Hn) as (js & -> & _). eauto. }
  apply wp_bind. eapply wp_resolve_mu; [done..|].
  apply wp_bind. rewrite <- (Z2Nat.id num_seeds) by lia.
  eapply (wp_draw_seeds h); [exact Hs1|lia|].
  intros seeds w2 Hperm Hs2.
  assert (length seeds = N) as Hlen.
  { rewrite Hperm, length_app, !length_replicate. lia. }
  apply wp_bind. apply wp_set_col; [| done |].
  { unfold shape1. simpl. rewrite length_replicate. lia. }
  simpl.
  apply wp_bind. eexists _, _. split.
  { unfold seed_attr.
    apply (seed_attr_run _ w2 seeds (g_nodes G0) id); [exact Hlen|].
    intros i. apply (index_to_node_lookup (g_nodes G0) 0 i). }
  assert ((zip (g_nodes G0) seeds).*1 = g_nodes G0) as Hkeys.
  { apply fst_zip. fold N. lia. }
  apply wp_bind. eapply wp_set_node_attributes_dict; [done| | |].
  { rewrite Hkeys. by apply well_formed_NoDup. }
  { intros n. rewrite Hkeys. by apply well_formed_attr. }
  intros w3 H3 Hs3 Hsim3 Hoth3 Hout3 Hset3.
  pose proof Hsim3 as (Hn3 & _ & Hd3).
  apply wp_bind. eapply wp_set_node_attributes_const; [done| |].
  { intros n. rewrite Hn3. intros Hn. apply Hd3. by apply well_formed_attr. }
  intros w4 H4 Hs4 Hsim4 Hoth4 Hset4.
  apply wp_ret. apply HQ; [|done..].
  assert (forall i n, g_nodes G0 !! i = Some n ->
            flag H4 n "infected" = seeds !! i) as Hinf.
  { intros i n Hi. rewrite Hoth4 by done.
    destruct (lookup_lt_is_Some_2 seeds i) as [s Hsd].
    { rewrite Hlen. by eapply lookup_lt_Some. }
    rewrite Hsd. apply (Hset3 i).
    by apply lookup_zip_Some. }
  exists H4, (p + N)%nat, seeds. simpl.
  split; [done|]. split; [|split; [done|]; split; [done|]; split; [done|]].
  - split; [by eapply similar_trans|]. intros n Hn. split.
    + apply list_elem_of_lookup in Hn as [i Hi]. rewrite (Hinf i n Hi).
      destruct (lookup_lt_is_Some_2 seeds i) as [s Hsd].
      { rewrite Hlen. by eapply lookup_lt_Some. }
      rewrite Hsd. apply list_elem_of_lookup_2 in Hsd.
      destruct (seeds_binary _ _ _ _ Hperm Hsd) as [-> | ->]; [by left|by right].
    + left. apply Hset4. by rewrite Hn3.
  - split; [done|]. intros n Hn. apply Hset4. by rewrite Hn3.
Qed.

(** ** Failing runs *)

Lemma wr_raise {A} e (R : world -> Prop) w : R w -> wr (@raise A e) e R w.
Proof. intros HR. by exists w. Qed.

Lemma wr_bind {A B} (m : M A) (f : A -> M B) e (R : world -> Prop) w :
  wp m (fun a w1 => wr (f a) e R w1) w -> wr (bind m f) e R w.
Proof.
  intros (a & w1 & Em & w2 & Ef & HR). exists w2. split; [|done].
  by rewrite (bind_Ok _ _ _ _ _ Em).
Qed.

Lemma wr_bind_raise {A B} (m : M A) (f : A -> M B) e (R : world -> Prop) w :
  wr m e R w -> wr (bind m f) e R w.
Proof.
  intros (w1 & Em & HR). exists w1. split; [|done].
  by rewrite (bind_Raise _ _ _ _ _ Em).
Qed.

Lemma sis_init_raises G G0 L num_seeds beta mu w :
  heap w !! G = Some G0 ->
  well_formed G0 = true ->
  (1 <= length (g_nodes G0))%nat ->
  num_seeds < 0 \/ Z.of_nat (length (g_nodes G0)) < num_seeds \/ L < 1 ->
  wr (sis_init G L num_seeds beta mu)
     (request_error (length (g_nodes G0)) L num_seeds)
     (fun w' => rng_raw w' = rng_raw w) w.
Proof.
  intros HG Hwf HN Hbad.
  set (N := length (g_nodes G0)) in *.
  set (h := fresh (dom (heap w))).
  set (raw := rng_raw w). set (p := rng_pos w).
  unfold sis_init. apply wr_bind.
  eexists _, _. split; [by apply graph_copy_run|]. fold h.
  set (w1 := set_heap (insert h G0) w).
  assert (sees h raw G0 p w1) as Hs1.
  { split; [|done]. simpl. by rewrite lookup_insert_eq. }
  assert (h <> G) as Hne.
  { intros Heq. apply (is_fresh (dom (heap w))). fold h. rewrite Heq.
    apply elem_of_dom. eauto. }
  assert (sees G raw G0 p w1) as HsG.
  { split; [|done]. simpl. by rewrite lookup_insert_ne. }
  unfold sis_init_from, request_error.
  apply wr_bind. eapply wp_number_of_nodes; [done|]. fold N.
  unfold np_zeros. destruct (L <? 0) eqn:EL.
  { apply wr_bind_raise. by apply wr_raise. }
  apply wr_bind, wp_ret.
  apply wr_bind. eapply wp_number_of_nodes; [exact HsG|]. fold N.
  apply wr_bind. eapply wp_graph_nodes; [exact HsG|].
  apply wr_bind. eapply wp_resolve_beta; [done| |].
  { intros n Hn. destruct (well_formed_adj G0 n Hwf Hn) as (js & -> & _). eauto. }
  apply wr_bind. eapply wp_resolve_mu; [done..|].
  simpl. destruct (num_seeds <? 0) eqn:Ek.
  { apply wr_bind_raise. unfold draw_seeds, np_repeat. rewrite Ek.
    apply wr_bind_raise. by apply wr_raise. }
  destruct (Z.of_nat N <? num_seeds) eqn:Ek'.
  { apply wr_bind_raise. unfold draw_seeds, np_repeat. rewrite Ek.
    apply wr_bind, wp_ret. apply wr_bind_raise.
    rewrite (proj2 (Z.ltb_lt _ _)) by lia. by apply wr_raise. }
  simpl. apply wr_bind. rewrite <- (Z2Nat.id num_seeds) by lia.
  eapply (wp_draw_seeds h); [exact Hs1|lia|].
  intros seeds w2 Hperm (_ & Hraw & _).
  apply wr_bind_raise. unfold set_col, shape1. simpl.
  rewrite length_replicate. rewrite decide_False by lia.
  by apply wr_raise.
Qed.

(** ** The whole run *)

Lemma seeded_loop_inv G0 raw L k l w :
  (1 <= L)%nat -> (k <= length (g_nodes G0))%nat ->
  seeded G0 raw L k l w ->
  loop_inv (length (g_nodes G0)) L 1 (l_TS l).
Proof.
  intros HL Hk (H & p & seeds & _ & _ & _ & -> & Hperm & _).
  set (N := length (g_nodes G0)) in *.
  assert (col_ok N seeds) as Hseeds.
  { split.
    - rewrite Hperm, length_app, !length_replicate. lia.
    - intros x Hx. by eapply seeds_binary. }
  split; [|split].
  - split; [done|]. split.
    + unfold shape1. simpl. by rewrite length_insert, length_replicate.
    + simpl. intros c Hc. apply list_elem_of_lookup in Hc as [j Hj].
      destruct j as [|j].
      * rewrite list_lookup_insert_eq in Hj by (rewrite length_replicate; lia).
        by injection Hj as <-.
      * rewrite list_lookup_insert_ne in Hj by done.
        apply lookup_replicate in Hj as [-> _]. apply col_ok_zeros.
  - simpl. intros j c Hj. rewrite list_lookup_insert_ne by lia.
    intros [-> _]%lookup_replicate. apply sum_list_zeros.
  - intros j c Hj. lia.
Qed.

(** The two stages of a run on a valid request: initialisation, then
    the loop. *)
Lemma sis_run_stages G G0 L num_seeds beta mu w :
  heap w !! G = Some G0 ->
  well_formed G0 = true ->
  (1 <= length (g_nodes G0))%nat ->
  1 <= L ->
  0 <= num_seeds <= Z.of_nat (length (g_nodes G0)) ->
  exists l w1 TS w2,
    sis_init G L num_seeds beta mu w = (Ok l, w1) /\
    seeded G0 (rng_raw w) (Z.to_nat L) (Z.to_nat num_seeds) l w1 /\
    l_H l = fresh (dom (heap w)) /\
    l_beta l = beta_used G0 beta /\ l_mu l = mu_used G0 mu /\
    sis_loop (l_H l) (l_beta l) (l_mu l) (py_range1 L) (l_TS l) w1 = (Ok TS, w2) /\
    loop_post (l_H l) (rng_raw w) G0 (Z.to_nat L) (l_TS l) TS w2.
Proof.
  intros HG Hwf HN HL Hk.
  destruct (wp_sis_init G G0 L num_seeds beta mu
    (fun l w1 => seeded G0 (rng_raw w) (Z.to_nat L) (Z.to_nat num_seeds) l w1 /\
                 l_H l = fresh (dom (heap w)) /\
                 l_beta l = beta_used G0 beta /\ l_mu l = mu_used G0 mu) w)
    as (l & w1 & Einit & Hseeded & Hl & Hb & Hm); [done..|auto|].
  exists l, w1.
  pose proof Hseeded as (H & p & seeds & Hs & Hst & _).
  destruct (wp_sis_loop (l_H l) (rng_raw w) G0 (l_beta l) (l_mu l) Hwf
              (Z.to_nat L) (Z.to_nat L - 1) 1 (l_TS l) H p w1)
    as (TS & w2 & Eloop & Hpost); [lia|lia|done|done| |].
  { eapply seeded_loop_inv; [lia| |done]. lia. }
  exists TS, w2. done.
Qed.

Lemma pad_full N L TS w :
  Z.of_nat (shape1 TS) = L -> pad N L TS w = (Ok TS, w).
Proof. intros HL. unfold pad. by rewrite (proj2 (Z.ltb_ge _ _)) by lia. Qed.

Lemma simulate_stages G L num_seeds beta mu w l w1 TS w2 :
  sis_init G L num_seeds beta mu w = (Ok l, w1) ->
  sis_loop (l_H l) (l_beta l) (l_mu l) (py_range1 L) (l_TS l) w1 = (Ok TS, w2) ->
  Z.of_nat (shape1 TS) = L ->
  sis_run G L num_seeds beta mu w = (Ok (l, TS), w2) /\
  simulate G L num_seeds beta mu w = (Ok TS, stored l TS w2).
Proof.
  intros Einit Eloop HL.
  assert (sis_run G L num_seeds beta mu w = (Ok (l, TS), w2)) as Erun.
  { unfold sis_run. rewrite (bind_Ok _ _ _ _ _ Einit).
    by rewrite (bind_Ok _ _ _ _ _ Eloop). }
  split; [done|]. unfold simulate. rewrite (bind_Ok _ _ _ _ _ Erun). simpl.
  by rewrite (bind_Ok _ _ _ _ _ (pad_full _ _ _ _ HL)).
Qed.

(** Everything the later theorems need about a run on a valid request. *)
Lemma simulate_valid G G0 L num_seeds beta mu w :
  heap w !! G = Some G0 ->
  well_formed G0 = true ->
  (1 <= length (g_nodes G0))%nat ->
  1 <= L ->
  0 <= num_seeds <= Z.of_nat (length (g_nodes G0)) ->
  exists l w1 TS w2 seeds,
    sis_init G L num_seeds beta mu w = (Ok l, w1) /\
    seeded G0 (rng_raw w) (Z.to_nat L) (Z.to_nat num_seeds) l w1 /\
    sis_run G L num_seeds beta mu w = (Ok (l, TS), w2) /\
    simulate G L num_seeds beta mu w = (Ok TS, stored l TS w2) /\
    shaped (length (g_nodes G0)) (Z.to_nat L) TS /\
    absorbing TS /\
    cols (l_TS l) !! 0%nat = Some seeds /\
    cols TS !! 0%nat = Some seeds /\
    seeds ≡ₚ replicate (Z.to_nat num_seeds) 1 ++
             replicate (length (g_nodes G0) - Z.to_nat num_seeds) 0.
Proof.
  intros HG Hwf HN HL Hk.
  destruct (sis_run_stages G G0 L num_seeds beta mu w)
    as (l & w1 & TS & w2 & Einit & Hseeded & Hl & _ & _ & Eloop & Hpost);
    [done..|].
  destruct Hpost as (_ & Hsh & Habs & Hcol0).
  pose proof Hsh as (_ & Hsh1 & _).
  destruct (simulate_stages G L num_seeds beta mu w l w1 TS w2)
    as [Erun Esim]; [done|done|lia|].
  pose proof Hseeded as (H & p & seeds & _ & _ & _ & HTS & Hperm & _).
  exists l, w1, TS, w2, seeds.
  assert (cols (l_TS l) !! 0%nat = Some seeds) as Hc0.
  { rewrite HTS. simpl. apply list_lookup_insert_eq.
    rewrite length_replicate. lia. }
  repeat (split; [done|]). split; [congruence|done].
Qed.

(** ** Concrete requests *)



(** ** The properties of the simulator *)

(** C3 (shape invariant): on a valid request -- a well-formed graph with
    N >= 1 nodes, L >= 1 and 0 <= num_seeds <= N -- [simulate] returns
    normally, for every beta and mu (in particular for rates in [0,1]) and
    for every outcome of the random draws, and the returned array has
    exactly N rows and exactly L columns, each column holding N entries;
    an early [break] of the loop does not change this. *)
Theorem simulate_shape (w : world) (G : loc) (G0 : Graph) (L num_seeds : Z)
    (beta mu : option pyfloat) :
  heap w !! G = Some G0 ->
  well_formed G0 = true ->
  (1 <= length (g_nodes G0))%nat ->
  1 <= L ->
  0 <= num_seeds <= Z.of_nat (length (g_nodes G0)) ->
  exists TS w',
    simulate G L num_seeds beta mu w = (Ok TS, w') /\
    shape0 TS = length (g_nodes G0) /\
    Z.of_nat (shape1 TS) = L /\
    forall c, c ∈ cols TS -> length c = length (g_nodes G0).
Proof.
  intros HG Hwf HN HL Hk.
  destruct (simulate_valid G G0 L num_seeds beta mu w)
    as (l & w1 & TS & w2 & seeds & _ & _ & _ & Esim & Hsh & _); [done..|].
  destruct Hsh as (Hsh0 & Hsh1 & Hcols).
  exists TS, (stored l TS w2). split; [done|]. split; [done|].
  split; [lia|]. intros c Hc. by destruct (Hcols c Hc).
Qed.

Lemma simulate_shape_witness :
  exists TS w',
    simulate 1%positive 4 1 None None (world0 K2 raw0) = (Ok TS, w') /\
    shape0 TS = 2%nat /\
    Z.of_nat (shape1 TS) = 4 /\
    forall c, c ∈ cols TS -> length c = 2%nat.
Proof.
  apply (simulate_shape (world0 K2 raw0) 1%positive K2 4 1 None None);
    [reflexivity | vm_compute; reflexivity | simpl; lia | lia | simpl; lia].
Defined.

(** C6 (binary invariant): on a valid request every entry of the
    returned array is 0 or 1, whatever the random draws. *)
Theorem simulate_binary (w : world) (G : loc) (G0 : Graph) (L num_seeds : Z)
    (beta mu : option pyfloat) :
  heap w !! G = Some G0 ->
  well_formed G0 = true ->
  (1 <= length (g_nodes G0))%nat ->
  1 <= L ->
  0 <= num_seeds <= Z.of_nat (length (g_nodes G0)) ->
  exists TS w',
    simulate G L num_seeds beta mu w = (Ok TS, w') /\
    forall i t x, entry TS i t = Some x -> x = 0 \/ x = 1.
Proof.
  intros HG Hwf HN HL Hk.
  destruct (simulate_valid G G0 L num_seeds beta mu w)
    as (l & w1 & TS & w2 & seeds & _ & _ & _ & Esim & Hsh & _); [done..|].
  destruct Hsh as (_ & _ & Hcols).
  exists TS, (stored l TS w2). split; [done|].
  intros i t x. unfold entry.
  destruct (cols TS !! t) as [c|] eqn:Hc; [|done]. simpl. intros Hx.
  apply list_elem_of_lookup_2 in Hc, Hx.
  destruct (Hcols c Hc) as [_ Hbin]. by apply Hbin.
Qed.

Lemma simulate_binary_witness :
  exists TS w',
    simulate 1%positive 4 1 None None (world0 K2 raw0) = (Ok TS, w') /\
    forall i t x, entry TS i t = Some x -> x = 0 \/ x = 1.
Proof.
  apply (simulate_binary (world0 K2 raw0) 1%positive K2 4 1 None None);
    [reflexivity | vm_compute; reflexivity | simpl; lia | lia | simpl; lia].
Defined.

Lemma sis_loop_break H beta mu t ts TS w c :
  cols TS !! (t - 1)%nat = Some c -> sum_list c < 1 ->
  sis_loop H beta mu (t :: ts) TS w = (Ok TS, w).
Proof.
  intros Hc Hsum. simpl. unfold bind, col_sum. rewrite Hc. simpl.
  by rewrite (proj2 (Z.ltb_lt _ _) Hsum).
Qed.

(** C5 (extinction is absorbing): on a valid request, if column t of the
    returned array sums to 0 then every later column sums to 0 and holds
    no nonzero entry.  The loop itself stops as soon as the previous
    column sums to less than 1: the iteration returns the array as it is,
    without consuming randomness or touching the graph, and none of the
    remaining iterations runs. *)
Theorem extinction_absorbing (w : world) (G : loc) (G0 : Graph)
    (L num_seeds : Z) (beta mu : option pyfloat) :
  heap w !! G = Some G0 ->
  well_formed G0 = true ->
  (1 <= length (g_nodes G0))%nat ->
  1 <= L ->
  0 <= num_seeds <= Z.of_nat (length (g_nodes G0)) ->
  (exists TS w',
     simulate G L num_seeds beta mu w = (Ok TS, w') /\
     forall t t' c c', (t < t')%nat ->
       cols TS !! t = Some c -> sum_list c = 0 ->
       cols TS !! t' = Some c' ->
       sum_list c' = 0 /\ forall x, x ∈ c' -> x = 0) /\
  (forall H b m t ts TS w0 c,
     cols TS !! (t - 1)%nat = Some c -> sum_list c < 1 ->
     sis_loop H b m (t :: ts) TS w0 = (Ok TS, w0)).
Proof.
  intros HG Hwf HN HL Hk. split; [|apply sis_loop_break].
  destruct (simulate_valid G G0 L num_seeds beta mu w)
    as (l & w1 & TS & w2 & seeds & _ & _ & _ & Esim & Hsh & Habs & _); [done..|].
  exists TS, (stored l TS w2). split; [done|].
  intros t t' c c' Hlt Hc Hsum Hc'.
  assert (sum_list c' = 0) as Hsum' by by eapply Habs.
  split; [done|].
  destruct Hsh as (_ & _ & Hcols).
  destruct (Hcols c') as [_ Hbin]; [by eapply list_elem_of_lookup_2|].
  clear Hc'. induction c' as [|y c' IH]; intros x Hx; [by apply elem_of_nil in Hx|].
  assert (y = 0 \/ y = 1) as Hy by (apply Hbin; left).
  assert (0 <= sum_list c').
  { apply (col_ok_sum (length c')). split; [done|].
    intros z Hz. apply Hbin. by right. }
  simpl in Hsum'. apply elem_of_cons in Hx as [->|Hx]; [lia|].
  apply IH; [lia| |done]. intros z Hz. apply Hbin. by right.
Qed.

Lemma extinction_absorbing_witness :
  (exists TS w',
     simulate 1%positive 4 0 None None (world0 K2 raw0) = (Ok TS, w') /\
     forall t t' c c', (t < t')%nat ->
       cols TS !! t = Some c -> sum_list c = 0 ->
       cols TS !! t' = Some c' ->
       sum_list c' = 0 /\ forall x, x ∈ c' -> x = 0) /\
  (forall H b m t ts TS w0 c,
     cols TS !! (t - 1)%nat = Some c -> sum_list c < 1 ->
     sis_loop H b m (t :: ts) TS w0 = (Ok TS, w0)).
Proof.
  apply (extinction_absorbing (world0 K2 raw0) 1%positive K2 4 0 None None);
    [reflexivity | vm_compute; reflexivity | simpl; lia | lia | simpl; lia].
Defined.

(** The scenario of [test_SIS_small_initial_infected]: on the complete
    graph with 10 nodes, one seed and beta = mu = 1, the infection
    spreads beyond the seed. *)
Example test_SIS_small_initial_infected :
  exists TS,
    (simulate 1%positive 20 1 (Some (Fin 1)) (Some (Fin 1))
       (world0 (complete_graph 10) raw0)).1 = Ok TS /\
    shape0 TS = 10%nat /\ shape1 TS = 20%nat /\
    1 < sum_list (sum_list <$> cols TS).
Proof. eexists. vm_compute. repeat split. Qed.

(** An extinct run: without seeds the loop breaks at once and the
    pre-allocated zero columns are returned. *)
Example extinct_run :
  (simulate 1%positive 4 0 None None (world0 K2 raw0)).1
  = Ok (mkArray 2 [[0; 0]; [0; 0]; [0; 0]; [0; 0]]).
Proof. vm_compute. reflexivity. Qed.

(** C10 (the padding branch is dead): on a valid request the array that
    leaves the loop already has L columns, so the test [TS.shape[1] < L]
    of line 106 is false, [pad] returns its argument, and the array
    returned by [simulate] is the one the loop worked on. *)
Theorem padding_unreachable (w : world) (G : loc) (G0 : Graph)
    (L num_seeds : Z) (beta mu : option pyfloat) :
  heap w !! G = Some G0 ->
  well_formed G0 = true ->
  (1 <= length (g_nodes G0))%nat ->
  1 <= L ->
  0 <= num_seeds <= Z.of_nat (length (g_nodes G0)) ->
  exists l TS w1 w2,
    sis_run G L num_seeds beta mu w = (Ok (l, TS), w1) /\
    (Z.of_nat (shape1 TS) <? L) = false /\
    pad (l_N l) L TS w1 = (Ok TS, w1) /\
    simulate G L num_seeds beta mu w = (Ok TS, w2).
Proof.
  intros HG Hwf HN HL Hk.
  destruct (simulate_valid G G0 L num_seeds beta mu w)
    as (l & w1 & TS & w2 & seeds & _ & _ & Erun & Esim & Hsh & _); [done..|].
  destruct Hsh as (_ & Hsh1 & _).
  exists l, TS, w2, (stored l TS w2). split; [done|].
  split; [apply Z.ltb_ge; lia|]. split; [apply pad_full; lia|done].
Qed.

Lemma padding_unreachable_witness :
  exists l TS w1 w2,
    sis_run 1%positive 4 0 None None (world0 K2 raw0) = (Ok (l, TS), w1) /\
    (Z.of_nat (shape1 TS) <? 4) = false /\
    pad (l_N l) 4 TS w1 = (Ok TS, w1) /\
    simulate 1%positive 4 0 None None (world0 K2 raw0) = (Ok TS, w2).
Proof.
  apply (padding_unreachable (world0 K2 raw0) 1%positive K2 4 0 None None);
    [reflexivity | vm_compute; reflexivity | simpl; lia | lia | simpl; lia].
Defined.



(** C7 (the caller's graph is not mutated): whatever the request and
    whether the call returns or raises, the graph object passed as [G]
    -- its nodes, its edges and its node attributes -- is the same after
    the call as before.  All writes go to the copy made on line 51. *)
Theorem simulate_preserves_input_graph (w : world) (G : loc) (L num_seeds : Z)
    (beta mu : option pyfloat) :
  heap (simulate G L num_seeds beta mu w).2 !! G = heap w !! G.
Proof.
  destruct (heap w !! G) as [G0|] eqn:HG.
  - by apply simulate_keeps_object.
  - assert (simulate G L num_seeds beta mu w = (Raise AttributeError, w)) as ->.
    { unfold simulate, sis_run, sis_init, graph_copy, bind, read_graph.
      by rewrite HG. }
    done.
Qed.

(** The working copy is a new object, and the attributes written to it
    do not appear on the caller's graph. *)
Example input_graph_untouched :
  let w' := (simulate 1%positive 4 1 None None (world0 K2 raw0)).2 in
  heap w' !! 1%positive = Some K2 /\
  (exists H, heap w' !! 2%positive = Some H /\
             flag H 0%nat "next_infected" = Some 0) /\
  flag K2 0%nat "next_infected" = None.
Proof.
  vm_compute. split; [reflexivity|]. split; [|reflexivity].
  eexists. split; reflexivity.
Qed.

Lemma Qinv_nonzero q : Qeq_bool q 0 = false -> Qeq_bool (Qinv q) 0 = false.
Proof.
  destruct q as [[|n|n] d]; unfold Qeq_bool, Qinv; simpl; [done|done|done].
Qed.

Lemma default_beta_truthy h w b w' :
  default_beta h w = (Ok b, w') -> float_truthy b = true.
Proof.
  unfold default_beta. intros E. inv_binds E.
  apply ret_inv_Ok in E as [<- _].
  unfold np_mean. destruct a as [|d ds]; [done|].
  unfold np_reciprocal.
  destruct (Qeq_bool _ 0) eqn:Hq; [done|]. simpl.
  by rewrite Qinv_nonzero.
Qed.

Lemma default_mu_truthy h w m w' :
  default_mu h w = (Ok m, w') -> float_truthy m = true.
Proof.
  unfold default_mu. intros E. inv_binds E.
  destruct a as [|n]; [done|]. by apply ret_inv_Ok in E as [<- _].
Qed.

(** ** Requests outside the documented domain *)

Lemma number_of_nodes_inv h w n w' :
  number_of_nodes h w = (Ok n, w') ->
  exists H, heap w !! h = Some H /\ n = length (g_nodes H) /\ w' = w.
Proof.
  unfold number_of_nodes, bind, read_graph.
  destruct (heap w !! h) as [H|]; [|done]. intros [= <- <-]. eauto.
Qed.

Lemma np_zeros_inv n l w a w' :
  np_zeros n l w = (Ok a, w') ->
  0 <= l /\ a = mkArray n (replicate (Z.to_nat l) (replicate n 0)).
Proof.
  unfold np_zeros. destruct (l <? 0) eqn:E; [done|].
  intros [= <- _]. split; [lia|done].
Qed.

Lemma np_repeat_inv v n w a w' : np_repeat v n w = (Ok a, w') -> 0 <= n.
Proof. unfold np_repeat. destruct (n <? 0) eqn:E; [done|]. lia. Qed.

Lemma draw_seeds_inv N k w s w' :
  draw_seeds N k w = (Ok s, w') -> 0 <= k <= Z.of_nat N.
Proof.
  unfold draw_seeds. intros E.
  apply bind_inv_Ok in E as (ones & w1 & E1 & E).
  apply bind_inv_Ok in E as (zeros & w2 & E2 & E).
  apply np_repeat_inv in E1, E2. lia.
Qed.

Lemma set_col_inv a t v w a' w' :
  set_col a t v w = (Ok a', w') -> (t < shape1 a)%nat.
Proof. unfold set_col. by destruct (decide (t < shape1 a)%nat). Qed.

Lemma sis_init_from_inv h G L num_seeds beta mu w H l w' :
  heap w !! h = Some H ->
  sis_init_from h G L num_seeds beta mu w = (Ok l, w') ->
  1 <= L /\ 0 <= num_seeds <= Z.of_nat (length (g_nodes H)).
Proof.
  intros Hh E. unfold sis_init_from in E.
  apply bind_inv_Ok in E as (N & w1 & E1 & E).
  apply bind_inv_Ok in E as (TS & w2 & E2 & E).
  apply bind_inv_Ok in E as (order & w3 & E3 & E).
  apply bind_inv_Ok in E as (gnodes & w4 & E4 & E).
  apply bind_inv_Ok in E as (b & w5 & E5 & E).
  apply bind_inv_Ok in E as (m & w6 & E6 & E).
  apply bind_inv_Ok in E as (seeds & w7 & E7 & E).
  apply bind_inv_Ok in E as (TS' & w8 & E8 & E).
  apply number_of_nodes_inv in E1 as (H' & Hh' & -> & ->).
  assert (H' = H) as -> by congruence.
  apply np_zeros_inv in E2 as [HL ->].
  apply draw_seeds_inv in E7. apply set_col_inv in E8.
  unfold shape1 in E8. simpl in E8. rewrite length_replicate in E8.
  split; [lia|done].
Qed.

(** A call that returns normally was given a time-series length of at
    least 1 and a seed count between 0 and N. *)
Lemma simulate_Ok_inv G G0 L num_seeds beta mu w TS w' :
  heap w !! G = Some G0 ->
  simulate G L num_seeds beta mu w = (Ok TS, w') ->
  1 <= L /\ 0 <= num_seeds <= Z.of_nat (length (g_nodes G0)).
Proof.
  intros HG E. unfold simulate in E.
  apply bind_inv_Ok in E as ([l TS0] & w1 & Erun & _).
  unfold sis_run in Erun.
  apply bind_inv_Ok in Erun as (l' & w2 & Einit & _).
  unfold sis_init in Einit.
  apply bind_inv_Ok in Einit as (h & w3 & Ecopy & Einit).
  rewrite (graph_copy_run G G0 w HG) in Ecopy. injection Ecopy as <- <-.
  eapply sis_init_from_inv; [|done]. simpl. by rewrite lookup_insert_eq.
Qed.

Lemma simulate_Raise_results G L num_seeds beta mu w e w' :
  simulate G L num_seeds beta mu w = (Raise e, w') -> results w' = results w.
Proof.
  unfold simulate. intros E.
  pose proof (sis_run_keeps_results G L num_seeds beta mu w) as Krun.
  unfold bind in E at 1.
  destruct (sis_run G L num_seeds beta mu w) as [[[l TS0]|e0] w1]; simpl in *.
  - pose proof (keeps_pad results (l_N l) L TS0 w1) as Kpad.
    unfold bind in E at 1.
    destruct (pad (l_N l) L TS0 w1) as [[TS1|e1] w2]; simpl in *.
    + discriminate.
    + injection E as _ <-. congruence.
  - injection E as _ <-. done.
Qed.

(** C1, as the code has it: [simulate] contains no validation and no
    [InvalidParameter], and beta and mu are never looked at before the
    loop.  On a graph with N >= 1 nodes the outcome is decided by the
    seed count and the length alone, for every beta and mu and every
    random outcome.  When [num_seeds] is negative or exceeds N, or when
    L < 1, the call is aborted before the loop by an exception of the
    array library -- [ValueError] for a negative length or an impossible
    seed count, [IndexError] for L = 0 -- so that no array is returned,
    [self.results] is left as it was and the caller's graph is
    unchanged.  Otherwise the call returns normally. *)
Theorem simulate_fails_on_bad_counts (w : world) (G : loc) (G0 : Graph)
    (L num_seeds : Z) (beta mu : option pyfloat) :
  heap w !! G = Some G0 ->
  well_formed G0 = true ->
  (1 <= length (g_nodes G0))%nat ->
  exists w',
    if bad_counts (length (g_nodes G0)) L num_seeds then
      simulate G L num_seeds beta mu w
      = (Raise (request_error (length (g_nodes G0)) L num_seeds), w') /\
      results w' = results w /\
      heap w' !! G = Some G0
    else
      exists TS, simulate G L num_seeds beta mu w = (Ok TS, w').
Proof.
  intros HG Hwf HN.
  destruct (bad_counts (length (g_nodes G0)) L num_seeds) eqn:Hbad.
  - unfold bad_counts in Hbad.
    destruct (sis_init_raises G G0 L num_seeds beta mu w)
      as (w' & Einit & _); [done..|lia|].
    assert (simulate G L num_seeds beta mu w
            = (Raise (request_error (length (g_nodes G0)) L num_seeds), w'))
      as Esim.
    { unfold simulate, sis_run.
      by rewrite (bind_Raise _ _ _ _ _ (bind_Raise _ _ _ _ _ Einit)). }
    exists w'. split; [done|]. split.
    + by eapply simulate_Raise_results.
    + pose proof (simulate_keeps_object G L num_seeds beta mu G w G0 HG) as K.
      by rewrite Esim in K.
  - unfold bad_counts in Hbad.
    destruct (simulate_valid G G0 L num_seeds beta mu w)
      as (l & w1 & TS & w2 & seeds & _ & _ & _ & Esim & _); [done..|lia|lia|].
    eauto.
Qed.

Lemma simulate_fails_on_bad_counts_witness :
  exists w',
    simulate 1%positive 4 3 (Some (Fin (Qmake 1 2))) None (world0 K2 raw0)
    = (Raise ValueError, w') /\
    results w' = results (world0 K2 raw0) /\
    heap w' !! 1%positive = Some K2.
Proof.
  apply (simulate_fails_on_bad_counts (world0 K2 raw0) 1%positive K2 4 3
           (Some (Fin (Qmake 1 2))) None);
    [reflexivity | vm_compute; reflexivity | simpl; lia].
Defined.

(** The exceptions are those of the array library. *)
Example bad_counts_raise :
  (simulate 1%positive 4 3 None None (world0 K2 raw0)).1 = Raise ValueError /\
  (simulate 1%positive 4 (-1) None None (world0 K2 raw0)).1 = Raise ValueError /\
  (simulate 1%positive (-1) 1 None None (world0 K2 raw0)).1 = Raise ValueError /\
  (simulate 1%positive 0 1 None None (world0 K2 raw0)).1 = Raise IndexError.
Proof. vm_compute. repeat split. Qed.

(** C1 fails as stated: beta = 2 is supplied and lies outside [0, 1],
    yet the call on the two-node graph returns a complete time series
    and stores it in [self.results]. *)
Lemma out_of_range_rate_accepted :
  let r := simulate 1%positive 4 1 (Some (Fin (Qmake 2 1))) None (world0 K2 raw0) in
  invalid_request (length (g_nodes K2)) 4 1 (Some (Fin (Qmake 2 1))) None = true /\
  r.1 = Ok (mkArray 2 [[1; 0]; [1; 1]; [1; 1]; [1; 1]]) /\
  results r.2 !! "TS" = Some (PArray (mkArray 2 [[1; 0]; [1; 1]; [1; 1]; [1; 1]])).
Proof. vm_compute. repeat split. Qed.

Lemma uniform_lt_1 r : float_lt (uniform r) (Fin 1) = true.
Proof.
  unfold float_lt, Qlt_bool, uniform. apply negb_true_iff.
  destruct (Qle_bool _ _) eqn:E; [|done]. apply Qle_bool_iff in E.
  unfold Qle in E. simpl in E.
  pose proof (N.mod_lt r (Npos two53)). lia.
Qed.

(** On the single isolated node the default mu is 1 / 1: whatever the
    random draws, a call with beta = 0.0 and mu = 0.0 cures the seed in
    the first timestep. *)
Lemma isolated_seed_recovers (raw : nat -> N) :
  (simulate 1%positive 2 1 (Some (Fin 0)) (Some (Fin 0)) (world0 G1 raw)).1
  = Ok (mkArray 1 [[1]; [0]]).
Proof.
  set (w := world0 G1 raw).
  assert (well_formed G1 = true) as Hwf by (vm_compute; reflexivity).
  destruct (wp_sis_init 1%positive G1 2 1 (Some (Fin 0)) (Some (Fin 0))
    (fun l w1 => seeded G1 raw 2 1 l w1 /\ l_mu l = mu_used G1 (Some (Fin 0))) w)
    as (l & w1 & Einit & Hseeded & Hmu);
    [reflexivity | done | simpl; lia | lia | simpl; lia | |].
  { intros l w' Hs _ _ Hm. by split. }
  destruct Hseeded as (H & p & seeds & Hs & Hst & HN & HTS & Hperm & Hinf & Hnext).
  simpl in Hperm. apply Permutation_singleton_r in Hperm as ->.
  simpl in HTS.
  destruct (wp_sis_step_recover (l_H l) raw G1 Hwf H p (l_beta l) (l_mu l)
    (l_TS l) 1 (fun TS _ => TS = mkArray 1 [[1]; [0]]) w1)
    as (TS & w2 & Estep & ->); [done|done|done| | | | | |].
  { intros n Hn. apply list_elem_of_singleton in Hn as ->. reflexivity. }
  { intros r. rewrite Hmu. apply uniform_lt_1. }
  { by rewrite HTS. }
  { rewrite HTS. unfold shape1. simpl. lia. }
  { intros w'. by rewrite HTS. }
  assert (sis_loop (l_H l) (l_beta l) (l_mu l) (py_range1 2) (l_TS l) w1
          = (Ok (mkArray 1 [[1]; [0]]), w2)) as Eloop.
  { change (py_range1 2) with [1%nat]. simpl.
    erewrite bind_Ok; [|by rewrite HTS]. simpl.
    by erewrite bind_Ok. }
  destruct (simulate_stages 1%positive 2 1 (Some (Fin 0)) (Some (Fin 0))
              w l w1 _ w2 Einit Eloop) as [_ ->]; done.
Qed.

(** C2 fails on the code: with beta = 0.0 and mu = 0.0 the rates are
    replaced by the defaults.  On the two-node graph they are 1 and 1/2,
    and from one seed the infected count rises to 2 in column 1.  On the
    single isolated node the default mu is 1 and the seed is cured in
    the first timestep whatever the random draws: the count falls from
    1 to 0. *)
Theorem zero_rates_do_not_persist :
  (simulate 1%positive 4 1 (Some (Fin 0)) (Some (Fin 0)) (world0 K2 raw0)).1
  = Ok (mkArray 2 [[1; 0]; [1; 1]; [1; 1]; [1; 1]]) /\
  forall raw : nat -> N,
    (simulate 1%positive 2 1 (Some (Fin 0)) (Some (Fin 0)) (world0 G1 raw)).1
    = Ok (mkArray 1 [[1]; [0]]).
Proof. split; [vm_compute; reflexivity | apply isolated_seed_recovers]. Qed.

(** ** The update rule of one pass *)

Lemma is_binary_spec o : is_binary o = true -> binary o.
Proof. destruct o as [[|[| |]|]|]; simpl; try done; [by left|by right]. Qed.

Lemma between_passes_staged H :
  between_passes H = true -> well_formed H = true /\ staged H H.
Proof.
  unfold between_passes. rewrite andb_true_iff, forallb_forall.
  intros [Hwf Hall]. split; [done|]. split; [apply similar_refl|].
  intros n Hn. apply list_elem_of_In, Hall, andb_true_iff in Hn as [H1 H2].
  split; by apply is_binary_spec.
Qed.

(** One visit on the seeded two-node graph with beta = 1/2 and mu = 1/2:
    the draws at positions 0 and 1 are 0 and 1/3, so the neighbour is
    reached and node 0 recovers. *)
Example visit_on_K2 :
  let w' := (visit_node 1%positive (Fin (Qmake 1 2)) (Fin (Qmake 1 2)) 0%nat
               (world0 K2_seeded raw0)).2 in
  exists H', heap w' !! 1%positive = Some H' /\
    flag H' 0%nat "infected" = Some 0 /\
    flag H' 0%nat "next_infected" = Some 0 /\
    flag H' 1%nat "infected" = Some 0 /\
    flag H' 1%nat "next_infected" = Some 1.
Proof. vm_compute. eexists. repeat split. Qed.

(** ** Traces: what a run does column by column *)

Lemma never_below_spec b r : never_below b = true -> float_lt (uniform r) b = false.
Proof.
  destruct b as [q| | |]; simpl; try done. intros Hq.
  unfold Qlt_bool. apply negb_false_iff. apply Qle_bool_iff.
  apply Qle_bool_iff in Hq. eapply Qle_trans; [exact Hq|].
  unfold uniform, Qle. simpl.
  pose proof (N2Z.is_nonneg (r mod N.pos two53)) as Hr.
  revert Hr. generalize (Z.of_N (r mod N.pos two53)). intros z Hz.
  rewrite Z.mul_1_r. done.
Qed.

Lemma always_below_spec b r : always_below b = true -> float_lt (uniform r) b = true.
Proof.
  destruct b as [q| | |]; simpl; try done. intros Hq.
  unfold Qlt_bool. apply negb_true_iff.
  destruct (Qle_bool q (uniform r)) eqn:E; [|done].
  apply Qle_bool_iff in E, Hq.
  assert (Qle 1 (uniform r)) as H1 by (eapply Qle_trans; eauto).
  unfold uniform, Qle in H1. simpl in H1.
  pose proof (N.mod_lt r (Npos two53)). lia.
Qed.

Lemma edgeless_spec G n :
  edgeless G = true -> n ∈ g_nodes G -> g_adj G !! n = Some [].
Proof.
  unfold edgeless. rewrite forallb_forall. intros Hall Hn.
  apply list_elem_of_In, Hall in Hn. by apply bool_decide_eq_true in Hn.
Qed.

Lemma rested_flag_1 G0 H n :
  rested G0 H -> n ∈ g_nodes G0 ->
  (default 0 (flag H n "infected") = 1 <-> flag H n "infected" = Some 1).
Proof.
  intros [[_ Hbin] _] Hn. destruct (Hbin n Hn) as [[-> | ->] _]; simpl;
    split; intros; congruence.
Qed.

Lemma flags_col_lookup G0 H i :
  rested G0 H ->
  flags_col H !! i = (fun n => default 0 (flag H n "infected")) <$> g_nodes G0 !! i.
Proof.
  intros [[(Hn & _) _] _]. unfold flags_col.
  by rewrite attr_items_values, list_lookup_fmap, Hn.
Qed.

Lemma flags_col_1 G0 H i :
  rested G0 H ->
  (flags_col H !! i = Some 1 <->
   exists n, g_nodes G0 !! i = Some n /\ flag H n "infected" = Some 1).
Proof.
  intros Hr. rewrite (flags_col_lookup G0 H i Hr).
  destruct (g_nodes G0 !! i) as [n|] eqn:Hi; simpl.
  - assert (n ∈ g_nodes G0) as Hn by by eapply list_elem_of_lookup_2.
    split.
    + intros [= Hv]. exists n. split; [done|]. by apply (rested_flag_1 G0).
    + intros (n' & [= <-] & Hv). f_equal. by apply (rested_flag_1 G0).
  - split; [done|]. by intros (n & ? & _).
Qed.

Lemma flags_col_ok G0 H :
  rested G0 H -> col_ok (length (g_nodes G0)) (flags_col H).
Proof. intros [Hst _]. by apply staged_column. Qed.

Section wp_trace.
Context (h : loc) (raw : nat -> N) (G0 : Graph).
Hypothesis G0_wf : well_formed G0 = true.

(** A pass, with a property [J] of the nodes visited so far and of the
    working copy. *)
Lemma wp_visit_all_idx (J : list node -> Graph -> Prop) H p beta mu
    (Q : unit -> world -> Prop) w :
  sees h raw H p w -> staged G0 H -> J [] H ->
  (forall vs i H1 H2 p1, staged G0 H1 -> J vs H1 ->
     i ∈ g_nodes G0 -> i ∉ vs ->
     visit_effect beta mu raw G0 p1 i H1 H2 -> J (vs ++ [i]) H2) ->
  (forall w' H' p' vs, sees h raw H' p' w' -> staged G0 H' ->
     vs ≡ₚ g_nodes G0 -> J vs H' -> Q tt w') ->
  wp (visit_all h beta mu) Q w.
Proof.
  intros Hs Hst HJ Hkeep HQ. pose proof Hst as [(Hn & Ha & Hd) Hbin].
  apply wp_bind. eapply wp_graph_nodes; [done|].
  apply wp_bind. eapply wp_np_permutation; [done|].
  intros nodes w1 Hperm Hs1. rewrite Hn in Hperm.
  assert (NoDup nodes) as Hnd.
  { rewrite Hperm. by apply well_formed_NoDup. }
  eapply (wp_for_each (fun k w' => exists H' p',
    sees h raw H' p' w' /\ staged G0 H' /\ J (take k nodes) H')).
  - eauto.
  - intros k i w2 Hk (H2 & p2 & Hs2 & Hst2 & HJ2).
    assert (i ∈ g_nodes G0) as Hi.
    { rewrite <- Hperm. by eapply list_elem_of_lookup_2. }
    assert (i ∉ take k nodes) as Hfresh.
    { intros (j & Hj)%list_elem_of_lookup.
      apply lookup_take_Some in Hj as [Hj Hlt].
      pose proof (NoDup_lookup _ _ _ _ Hnd Hj Hk). lia. }
    eapply wp_visit_node; [done..|].
    intros w3 H3 p3 Hs3 Hst3 Heff. exists H3, p3.
    split; [done|]. split; [done|].
    rewrite (take_S_r _ _ _ Hk). by apply (Hkeep _ i H2 H3 p2).
  - intros w' (H' & p' & Hs' & Hst' & HJ').
    rewrite firstn_all in HJ'. by eapply HQ.
Qed.
End wp_trace.

(** A timestep specification from what each visit keeps. *)
Lemma step_spec_idx G0 beta mu (J : Graph -> list node -> Graph -> Prop)
    (S : Graph -> Graph -> Prop) :
  well_formed G0 = true ->
  (forall H, rested G0 H -> J H [] H) ->
  (forall H vs i H1 H2 raw p1, rested G0 H -> staged G0 H1 -> J H vs H1 ->
     i ∈ g_nodes G0 -> i ∉ vs ->
     visit_effect beta mu raw G0 p1 i H1 H2 -> J H (vs ++ [i]) H2) ->
  (forall H vs H1 H', rested G0 H -> vs ≡ₚ g_nodes G0 -> J H vs H1 ->
     staged G0 H1 -> committed H1 H' -> S H H') ->
  step_spec G0 beta mu S.
Proof.
  intros Hwf HJ0 Hkeep Hend h raw H p TS t Q w Hs Hr HN Ht HQ.
  pose proof Hr as [Hst _].
  apply wp_bind.
  eapply (wp_visit_all_idx h raw G0 Hwf (J H)); [done|done|by apply HJ0| |].
  { intros vs i H1 H2 p1 Hst1 HJ1 Hi Hfresh Heff.
    by apply (Hkeep H vs i H1 H2 raw p1). }
  intros w1 H1 p1 vs Hs1 Hst1 Hvs HJ1. pose proof Hst1 as [(Hn1 & _) Hbin1].
  apply wp_bind. eapply wp_commit; [done| | |].
  { rewrite Hn1. by apply well_formed_NoDup. }
  { intros n. rewrite Hn1. intros Hn.
    destruct (Hbin1 n Hn) as [_ [-> | ->]]; eauto. }
  intros w2 H2 Hs2 Hc2.
  assert (staged G0 H2) as Hst2 by by eapply committed_staged.
  pose proof Hst2 as [(Hn2 & _) Hbin2].
  apply wp_bind. eapply wp_get_node_attributes; [done| |].
  { intros n. rewrite Hn2. intros Hn.
    destruct (Hbin2 n Hn) as [[-> | ->] _]; eauto. }
  pose proof (staged_column G0 H2 Hst2) as Hcol.
  apply wp_set_col; [done|by rewrite HN; apply Hcol|].
  eapply HQ; [done| |by eapply Hend].
  split; [done|]. intros n Hn.
  destruct Hc2 as (_ & _ & Hc). apply Hc. by rewrite Hn1.
Qed.

Section wp_trace_loop.
Context (h : loc) (raw : nat -> N) (G0 : Graph) (beta mu : pyfloat).
Context (S : Graph -> Graph -> Prop) (K : Graph -> Prop).
Hypothesis Hstep : step_spec G0 beta mu S.
Hypothesis HK : forall H H', rested G0 H -> K H -> S H H' -> K H'.

Lemma wp_sis_loop_trace L k : forall t TS H p w,
  (1 <= t)%nat -> (t + k = L)%nat ->
  sees h raw H p w -> rested G0 H -> K H ->
  loop_inv (length (g_nodes G0)) L t TS ->
  cols TS !! (t - 1)%nat = Some (flags_col H) ->
  trace_ok G0 S t TS ->
  wp (sis_loop h beta mu (seq t k) TS) (trace_post h raw G0 S K L TS) w.
Proof.
  induction k as [|k IH]; intros t TS H p w Ht HL Hs Hr HKH Hinv Hcol Htr.
  - simpl. apply wp_ret. destruct Hinv as (Hsh & Hzero & Hlive).
    exists H, p, t. split_and!; try done; lia.
  - simpl. destruct Hinv as (Hsh & Hzero & Hlive).
    pose proof Hsh as (Hsh0 & Hsh1 & Hcols).
    apply wp_bind. unfold col_sum. rewrite Hcol. apply wp_ret.
    destruct (sum_list (flags_col H) <? 1) eqn:Hsum.
    + apply wp_ret. apply Z.ltb_lt in Hsum.
      pose proof (col_ok_sum _ _ (flags_col_ok G0 H Hr)).
      exists H, p, t. split_and!; try done; lia.
    + apply Z.ltb_ge in Hsum. apply wp_bind.
      eapply Hstep; [done..| |].
      { unfold shape1 in *. lia. }
      intros w1 H1 p1 Hs1 Hr1 HS1.
      pose proof (flags_col_ok G0 H1 Hr1) as Hc1.
      assert (t < length (cols TS))%nat as Htlen by (unfold shape1 in *; lia).
      eapply wp_mono.
      * eapply (IH (Datatypes.S t)); [lia|lia|done|done|by apply (HK H H1)| | |].
        -- split; [by apply shaped_set_col|]. simpl. split.
           ++ intros j cj Hj. rewrite list_lookup_insert_ne by lia.
              apply Hzero. lia.
           ++ intros j cj Hj. rewrite list_lookup_insert_ne by lia.
              destruct (decide (j = t - 1)%nat) as [->|].
              ** rewrite Hcol. by intros [= <-].
              ** apply Hlive. lia.
        -- simpl. replace (t - 0)%nat with t by lia.
           by apply list_lookup_insert_eq.
        -- intros j Hj. simpl. destruct (decide (j = t)) as [->|Hne].
           ++ exists H, H1. split; [done|]. split; [done|].
              rewrite list_lookup_insert_ne by lia.
              rewrite list_lookup_insert_eq by done. done.
           ++ destruct (Htr j) as (Ha & Hb & Hra & Hrb & Hca & Hcb & HSab);
                [lia|].
              exists Ha, Hb. split; [done|]. split; [done|].
              rewrite !list_lookup_insert_ne by lia. done.
      * intros TS' w' (H' & p' & t' & Hs' & Hr' & HK' & Ht' & Hcol' & Hz' &
                       Hext' & Htr' & Hsh' & Hc0').
        exists H', p', t'. repeat (split; [done|]).
        simpl in Hc0'. by rewrite list_lookup_insert_ne in Hc0' by lia.
Qed.
End wp_trace_loop.

Lemma flags_col_seeds G0 H (seeds : list Z) :
  rested G0 H ->
  length seeds = length (g_nodes G0) ->
  (forall i n, g_nodes G0 !! i = Some n -> flag H n "infected" = seeds !! i) ->
  flags_col H = seeds.
Proof.
  intros Hr Hlen Hinf. apply list_eq. intros i.
  rewrite (flags_col_lookup G0 H i Hr).
  destruct (g_nodes G0 !! i) as [n|] eqn:Hi; simpl.
  - rewrite (Hinf i n Hi).
    destruct (lookup_lt_is_Some_2 seeds i) as [s Hs].
    { rewrite Hlen. by eapply lookup_lt_Some. }
    by rewrite Hs.
  - symmetry. apply lookup_ge_None. rewrite Hlen. by apply lookup_ge_None.
Qed.

(** The initialisation on a valid request, in full. *)
Lemma wp_sis_init_full G G0 L num_seeds beta mu (Q : locals -> world -> Prop) w :
  heap w !! G = Some G0 ->
  well_formed G0 = true ->
  (1 <= length (g_nodes G0))%nat ->
  1 <= L ->
  0 <= num_seeds <= Z.of_nat (length (g_nodes G0)) ->
  (forall l w',
     init_full G0 (rng_raw w) (rng_pos w) (fresh (dom (heap w)))
       (Z.to_nat L) (Z.to_nat num_seeds) beta mu l w' -> Q l w') ->
  wp (sis_init G L num_seeds beta mu) Q w.
Proof.
  intros HG Hwf HN HL Hk HQ.
  set (N := length (g_nodes G0)) in *.
  set (h := fresh (dom (heap w))) in *.
  set (raw := rng_raw w) in *. set (p := rng_pos w) in *.
  assert (h <> G) as Hne.
  { intros Heq. apply (is_fresh (dom (heap w))). fold h. rewrite Heq.
    apply elem_of_dom. eauto. }
  unfold sis_init. apply wp_bind.
  eexists _, _. split; [by apply graph_copy_run|]. fold h.
  set (w1 := set_heap (insert h G0) w).
  assert (sees h raw G0 p w1) as Hs1.
  { split; [|done]. simpl. by rewrite lookup_insert_eq. }
  assert (sees G raw G0 p w1) as HsG.
  { split; [|done]. simpl. by rewrite lookup_insert_ne. }
  unfold sis_init_from.
  apply wp_bind. eapply wp_number_of_nodes; [done|]. fold N.
  apply wp_bind. unfold np_zeros.
  destruct (L <? 0) eqn:EL; [lia|]. apply wp_ret.
  apply wp_bind. eapply wp_number_of_nodes; [exact HsG|]. fold N.
  apply wp_bind. eapply wp_graph_nodes; [exact HsG|].
  apply wp_bind. eapply wp_resolve_beta; [done| |].
  { intros n Hn. destruct (well_formed_adj G0 n Hwf Hn) as (js & -> & _). eauto. }
  apply wp_bind. eapply wp_resolve_mu; [done..|].
  apply wp_bind. rewrite <- (Z2Nat.id num_seeds) by lia.
  eapply (wp_draw_seeds h); [exact Hs1|lia|].
  intros seeds w2 Hperm Hs2.
  assert (length seeds = N) as Hlen.
  { rewrite Hperm, length_app, !length_replicate. lia. }
  apply wp_bind. apply wp_set_col; [| done |].
  { unfold shape1. simpl. rewrite length_replicate. lia. }
  simpl.
  apply wp_bind. eexists _, _. split.
  { unfold seed_attr.
    apply (seed_attr_run _ w2 seeds (g_nodes G0) id); [exact Hlen|].
    intros i. apply (index_to_node_lookup (g_nodes G0) 0 i). }
  assert ((zip (g_nodes G0) seeds).*1 = g_nodes G0) as Hkeys.
  { apply fst_zip. fold N. lia. }
  apply wp_bind. eapply wp_set_node_attributes_dict; [done| | |].
  { rewrite Hkeys. by apply well_formed_NoDup. }
  { intros n. rewrite Hkeys. by apply well_formed_attr. }
  intros w3 H3 Hs3 Hsim3 Hoth3 Hout3 Hset3.
  pose proof Hsim3 as (Hn3 & _ & Hd3).
  apply wp_bind. eapply wp_set_node_attributes_const; [done| |].
  { intros n. rewrite Hn3. intros Hn. apply Hd3. by apply well_formed_attr. }
  intros w4 H4 Hs4 Hsim4 Hoth4 Hset4.
  apply wp_ret. apply HQ.
  assert (forall i n, g_nodes G0 !! i = Some n ->
            flag H4 n "infected" = seeds !! i) as Hinf.
  { intros i n Hi. rewrite Hoth4 by done.
    destruct (lookup_lt_is_Some_2 seeds i) as [s Hsd].
    { rewrite Hlen. by eapply lookup_lt_Some. }
    rewrite Hsd. apply (Hset3 i). by apply lookup_zip_Some. }
  assert (rested G0 H4) as Hr4.
  { split; [split; [by eapply similar_trans|]|].
    - intros n Hn. split.
      + apply list_elem_of_lookup in Hn as [i Hi]. rewrite (Hinf i n Hi).
        destruct (lookup_lt_is_Some_2 seeds i) as [s Hsd].
        { rewrite Hlen. by eapply lookup_lt_Some. }
        rewrite Hsd. apply list_elem_of_lookup_2 in Hsd.
        destruct (seeds_binary _ _ _ _ Hperm Hsd) as [-> | ->];
          [by left|by right].
      + left. apply Hset4. by rewrite Hn3.
    - intros n Hn. apply Hset4. by rewrite Hn3. }
  exists H4, seeds. split; [exact Hs4|]. split; [done|]. split.
  { intros n name Hne1 Hne2. rewrite Hoth4 by done. by apply Hoth3. }
  split; [done|]. split; [done|].
  by apply (flags_col_seeds G0).
Qed.

Lemma init_loop_inv N L (seeds : list Z) :
  col_ok N seeds -> (1 <= L)%nat ->
  loop_inv N L 1 (mkArray N (<[0%nat := seeds]> (replicate L (replicate N 0)))).
Proof.
  intros Hseeds HL. split; [|split].
  - split; [done|]. split.
    + unfold shape1. simpl. by rewrite length_insert, length_replicate.
    + simpl. intros c Hc. apply list_elem_of_lookup in Hc as [j Hj].
      destruct j as [|j].
      * rewrite list_lookup_insert_eq in Hj by (rewrite length_replicate; lia).
        by injection Hj as <-.
      * rewrite list_lookup_insert_ne in Hj by done.
        apply lookup_replicate in Hj as [-> _]. apply col_ok_zeros.
  - simpl. intros j c Hj. rewrite list_lookup_insert_ne by lia.
    intros [-> _]%lookup_replicate. apply sum_list_zeros.
  - intros j c Hj. lia.
Qed.

(** A run allocates exactly one graph object, the working copy. *)
Lemma sis_run_allocates G G0 L num_seeds beta mu w r w2 :
  heap w !! G = Some G0 ->
  sis_run G L num_seeds beta mu w = (Ok r, w2) ->
  {[fresh (dom (heap w))]} ∪ dom (heap w2)
  = {[fresh (dom (heap w))]} ∪ dom (heap w).
Proof.
  intros HG E. set (h := fresh (dom (heap w))).
  set (obs := fun w : world => ({[h]} : gset loc) ∪ dom (heap w)).
  assert (forall f w, obs (set_rng_pos f w) = obs w) as Hrng by done.
  assert (forall X w, obs (set_heap (insert h X) w) = obs w) as Hheap.
  { intros X w0. unfold obs. simpl. rewrite dom_insert_L. set_solver. }
  unfold sis_run in E.
  apply bind_inv_Ok in E as (l & w1 & Einit & E).
  apply bind_inv_Ok in E as (TS & w3 & Eloop & E).
  apply ret_inv_Ok in E as [_ <-].
  unfold sis_init in Einit.
  apply bind_inv_Ok in Einit as (h' & w0 & Ecopy & Einit).
  rewrite (graph_copy_run G G0 w HG) in Ecopy. injection Ecopy as <- <-.
  fold h in Einit.
  pose proof (sis_init_from_H _ _ _ _ _ _ _ _ _ Einit) as Hl.
  pose proof (keeps_sis_init_from obs h Hrng Hheap G L num_seeds beta mu
                (set_heap (insert h G0) w)) as K1.
  rewrite Einit in K1. simpl in K1.
  pose proof (keeps_sis_loop obs h Hrng Hheap (l_beta l) (l_mu l)
                (py_range1 L) (l_TS l) w1) as K2.
  rewrite Hl in Eloop. rewrite Eloop in K2. simpl in K2.
  change (obs w3 = obs w). rewrite K2, K1. apply Hheap.
Qed.

(** The whole run on a valid request, column by column: [S] relates the
    working copies of consecutive timesteps and [K] is a property of the
    working copy that the timesteps keep. *)
Lemma simulate_trace G G0 L num_seeds beta mu
    (S : Graph -> Graph -> Prop) (K : Graph -> Prop) w :
  heap w !! G = Some G0 ->
  well_formed G0 = true ->
  (1 <= length (g_nodes G0))%nat ->
  1 <= L ->
  0 <= num_seeds <= Z.of_nat (length (g_nodes G0)) ->
  step_spec G0 (beta_used G0 beta) (mu_used G0 mu) S ->
  (forall H H', rested G0 H -> K H -> S H H' -> K H') ->
  (forall H, rested G0 H -> same_other_attrs G0 H -> K H) ->
  exists l w1 TS w2 seeds,
    sis_init G L num_seeds beta mu w = (Ok l, w1) /\
    init_full G0 (rng_raw w) (rng_pos w) (fresh (dom (heap w)))
      (Z.to_nat L) (Z.to_nat num_seeds) beta mu l w1 /\
    simulate G L num_seeds beta mu w = (Ok TS, stored l TS w2) /\
    trace_post (fresh (dom (heap w))) (rng_raw w) G0 S K (Z.to_nat L)
      (l_TS l) TS w2 /\
    cols TS !! 0%nat = Some seeds /\
    seeds ≡ₚ replicate (Z.to_nat num_seeds) 1 ++
             replicate (length (g_nodes G0) - Z.to_nat num_seeds) 0 /\
    results w2 = results w /\
    dom (heap w2) = {[fresh (dom (heap w))]} ∪ dom (heap w).
Proof.
  intros HG Hwf HN HL Hk Hstep HK HK0.
  set (N := length (g_nodes G0)) in *.
  set (h := fresh (dom (heap w))) in *.
  destruct (wp_sis_init_full G G0 L num_seeds beta mu
    (init_full G0 (rng_raw w) (rng_pos w) h (Z.to_nat L)
       (Z.to_nat num_seeds) beta mu) w)
    as (l & w1 & Einit & Hfull); [done..|auto|].
  pose proof Hfull as (H & seeds & Hs & Hr & Hsame & Hl & Hperm & Hflags).
  assert (col_ok N seeds) as Hseeds.
  { split.
    - rewrite Hperm, length_app, !length_replicate. lia.
    - intros x Hx. by eapply seeds_binary. }
  assert (cols (l_TS l) !! 0%nat = Some seeds) as Hc0.
  { rewrite Hl. simpl. apply list_lookup_insert_eq.
    rewrite length_replicate. lia. }
  destruct (wp_sis_loop_trace h (rng_raw w) G0 (l_beta l) (l_mu l) S K)
    with (L := Z.to_nat L) (k := (Z.to_nat L - 1)%nat) (t := 1%nat)
         (TS := l_TS l) (H := H) (p := (rng_pos w + N)%nat) (w := w1)
    as (TS & w2 & Eloop & Hpost).
  { rewrite Hl. simpl. exact Hstep. }
  { exact HK. }
  { lia. }
  { lia. }
  { done. }
  { done. }
  { by apply HK0. }
  { rewrite Hl. simpl. apply init_loop_inv; [done|lia]. }
  { simpl. by rewrite Hc0, Hflags. }
  { intros j Hj. lia. }
  pose proof Hpost as (H' & p' & t' & Hs' & _ & _ & _ & _ & _ & _ & _ &
                       Hsh & Hcol0).
  pose proof Hsh as (_ & Hsh1 & _).
  assert (l_H l = h) as HlH by (by rewrite Hl).
  rewrite <- HlH in Eloop.
  destruct (simulate_stages G L num_seeds beta mu w l w1 TS w2)
    as [Erun Esim]; [done|done|lia|].
  exists l, w1, TS, w2, seeds.
  split; [done|]. split; [done|]. split; [done|]. split; [done|].
  split; [congruence|]. split; [done|]. split.
  - pose proof (sis_run_keeps_results G L num_seeds beta mu w) as Kr.
    by rewrite Erun in Kr.
  - pose proof (sis_run_allocates G G0 L num_seeds beta mu w _ w2 HG Erun)
      as Hdom. fold h in Hdom.
    destruct Hs' as (Hh' & _).
    assert (h ∈ dom (heap w2)) by (apply elem_of_dom; eauto).
    set_solver.
Qed.

Lemma col_zero N c : col_ok N c -> sum_list c = 0 -> forall x, x ∈ c -> x = 0.
Proof.
  intros [_ Hbin]. induction c as [|y c IH]; intros Hsum x Hx;
    [by apply elem_of_nil in Hx|].
  assert (y = 0 \/ y = 1) as Hy by (apply Hbin; left).
  assert (0 <= sum_list c).
  { apply (col_ok_sum (length c)). split; [done|].
    intros z Hz. apply Hbin. by right. }
  simpl in Hsum. apply elem_of_cons in Hx as [->|Hx]; [lia|].
  apply IH; [|lia|done]. intros z Hz. apply Hbin. by right.
Qed.

Lemma entry_zero N L TS i t c x :
  shaped N L TS -> cols TS !! t = Some c -> sum_list c = 0 ->
  entry TS i t = Some x -> x = 0.
Proof.
  intros (_ & _ & Hcols) Hc Hsum. unfold entry. rewrite Hc. simpl. intros Hx.
  eapply col_zero; [|done|by eapply list_elem_of_lookup_2].
  apply Hcols. by eapply list_elem_of_lookup_2.
Qed.

Lemma entry_flags G0 H TS i t :
  rested G0 H -> cols TS !! t = Some (flags_col H) ->
  (entry TS i t = Some 1 <->
   exists n, g_nodes G0 !! i = Some n /\ flag H n "infected" = Some 1).
Proof.
  intros Hr Hc. unfold entry. rewrite Hc. simpl. by apply flags_col_1.
Qed.

(** Two consecutive columns of the returned array either were written
    from two consecutive working copies, or are both zero. *)
Lemma trace_cases h raw G0 S K L TS0 TS w t :
  trace_post h raw G0 S K L TS0 TS w -> (t + 1 < L)%nat ->
  (exists Ha Hb, rested G0 Ha /\ rested G0 Hb /\
     cols TS !! t = Some (flags_col Ha) /\
     cols TS !! (t + 1)%nat = Some (flags_col Hb) /\ S Ha Hb) \/
  ((forall i x, entry TS i t = Some x -> x = 0) /\
   (forall i x, entry TS i (t + 1) = Some x -> x = 0)).
Proof.
  intros (H & p & t' & Hs & Hr & _ & Ht' & Hcol & Hz & Hext & Htr & Hsh & _) Ht.
  destruct (decide (t + 1 < t')%nat) as [Hlt|Hge].
  - left. destruct (Htr (t + 1)%nat) as (Ha & Hb & ? & ? & Hca & ? & ?); [lia|].
    replace (t + 1 - 1)%nat with t in Hca by lia. eauto 10.
  - right. pose proof Hsh as (_ & Hsh1 & _). unfold shape1 in Hsh1.
    assert (forall j, (t' - 1 <= j < L)%nat ->
              forall i x, entry TS i j = Some x -> x = 0) as Hzero.
    { intros j Hj i x.
      destruct (lookup_lt_is_Some_2 (cols TS) j) as [c Hc]; [lia|].
      apply (entry_zero _ _ _ i j c x Hsh Hc).
      destruct (decide (j = t' - 1)%nat) as [->|].
      - rewrite Hcol in Hc. injection Hc as <-. apply Hext. lia.
      - apply (Hz j); [lia|done]. }
    split; apply Hzero; lia.
Qed.

Lemma entry_Some_lt N L TS i t x :
  shaped N L TS -> entry TS i t = Some x -> (t < L)%nat.
Proof.
  intros (_ & Hsh1 & _). unfold entry.
  destruct (cols TS !! t) as [c|] eqn:Hc; [|done]. intros _.
  apply lookup_lt_Some in Hc. unfold shape1 in Hsh1. lia.
Qed.

(** *** Timesteps without transmission *)

Lemma step_spec_no_transmission G0 beta mu :
  well_formed G0 = true ->
  never_below beta || edgeless G0 = true ->
  step_spec G0 beta mu (fun H H' =>
    forall n, n ∈ g_nodes G0 ->
      flag H' n "infected" = Some 1 -> flag H n "infected" = Some 1).
Proof.
  intros Hwf Hno.
  apply (step_spec_idx G0 beta mu (fun H _ H1 =>
    (forall n, flag H1 n "infected" = Some 1 -> flag H n "infected" = Some 1) /\
    (forall n, n ∈ g_nodes G0 -> flag H1 n "next_infected" = Some 1 ->
       flag H n "infected" = Some 1))); [done| | |].
  - intros H [_ Hnext]. split; [done|]. intros n Hn. by rewrite Hnext.
  - intros H vs i H1 H2 raw p1 Hr Hst1 [Hinf Hnx] Hi _
      [[_ ->]|(js & Hjs & Hi1 & Hv)]; [done|].
    destruct Hv as (_ & _ & Hinf2 & Hhit & Hmiss). split.
    + intros n. rewrite Hinf2. destruct (decide _); [done|]. apply Hinf.
    + intros n Hn Hn2.
      assert (~ infects beta raw p1 js (length js) n) as Hni.
      { intros (k & Hk & Hjk & Hlt).
        apply orb_true_iff in Hno as [Hb|He].
        - by rewrite (never_below_spec _ _ Hb) in Hlt.
        - rewrite (edgeless_spec G0 i He Hi) in Hjs. injection Hjs as <-.
          simpl in Hk. lia. }
      destruct (decide (n = i /\ cures mu raw p1 js = false)) as [[-> _]|Hc].
      * by apply Hinf.
      * rewrite Hmiss in Hn2 by tauto. by apply Hnx.
  - intros H vs H1 H' Hr _ [_ Hnx] [(Hn1 & _) _] (_ & _ & Hc) n Hn.
    destruct (Hc n) as [-> _]; [by rewrite Hn1|]. by apply Hnx.
Qed.

(** *** Timesteps without recovery *)

Lemma step_spec_no_recovery G0 beta mu :
  well_formed G0 = true ->
  never_below mu = true ->
  step_spec G0 beta mu (fun H H' =>
    forall n, n ∈ g_nodes G0 ->
      flag H n "infected" = Some 1 -> flag H' n "infected" = Some 1).
Proof.
  intros Hwf Hno.
  apply (step_spec_idx G0 beta mu (fun H vs H1 =>
    (forall n, flag H1 n "infected" = flag H n "infected") /\
    (forall n, n ∈ vs -> flag H n "infected" = Some 1 ->
       flag H1 n "next_infected" = Some 1))); [done| | |].
  - intros H _. split; [done|]. by intros n ?%elem_of_nil.
  - intros H vs i H1 H2 raw p1 Hr Hst1 [Hinf Hnx] Hi Hfresh
      [[Hi0 ->]|(js & Hjs & Hi1 & Hv)].
    + split; [done|]. intros n [Hn| ->%list_elem_of_singleton]%elem_of_app.
      * by apply Hnx.
      * rewrite <- Hinf, Hi0. done.
    + assert (cures mu raw p1 js = false) as Hc.
      { unfold cures. by apply never_below_spec. }
      pose proof Hv as (_ & _ & Hinf2 & Hhit & _). split.
      * intros n. rewrite Hinf2, Hc. rewrite decide_False by naive_solver.
        apply Hinf.
      * intros n [Hn| ->%list_elem_of_singleton]%elem_of_app Hn1.
        -- eapply visited_keeps_set; [done|]. by apply Hnx.
        -- apply Hhit. by right.
  - intros H vs H1 H' Hr Hvs [_ Hnx] [(Hn1 & _) _] (_ & _ & Hc) n Hn Hinf.
    destruct (Hc n) as [-> _]; [by rewrite Hn1|].
    apply Hnx; [by rewrite Hvs|done].
Qed.

(** *** Timesteps with certain transmission *)

Lemma step_spec_certain_transmission G0 beta mu :
  well_formed G0 = true ->
  always_below beta = true ->
  step_spec G0 beta mu (fun H H' =>
    forall i js j, i ∈ g_nodes G0 -> flag H i "infected" = Some 1 ->
      g_adj G0 !! i = Some js -> j ∈ js -> flag H' j "infected" = Some 1).
Proof.
  intros Hwf Hyes.
  apply (step_spec_idx G0 beta mu (fun H vs H1 =>
    (forall n, n ∉ vs -> flag H1 n "infected" = flag H n "infected") /\
    (forall i js j, i ∈ vs -> flag H i "infected" = Some 1 ->
       g_adj G0 !! i = Some js -> j ∈ js ->
       flag H1 j "next_infected" = Some 1))); [done| | |].
  - intros H _. split; [done|]. by intros i js j ?%elem_of_nil.
  - intros H vs i H1 H2 raw p1 Hr Hst1 [Hinf Hnx] Hi Hfresh
      [[Hi0 ->]|(js & Hjs & Hi1 & Hv)].
    + split.
      * intros n Hn. apply Hinf. set_solver.
      * intros i' js' j [Hi'| ->%list_elem_of_singleton]%elem_of_app Hinf'.
        -- by apply Hnx.
        -- rewrite <- (Hinf i Hfresh), Hi0 in Hinf'. done.
    + pose proof Hv as (_ & _ & Hinf2 & Hhit & _). split.
      * intros n Hn. rewrite Hinf2. rewrite decide_False by set_solver.
        apply Hinf. set_solver.
      * intros i' js' j [Hi'| ->%list_elem_of_singleton]%elem_of_app
          Hinf' Hjs' Hj.
        -- eapply visited_keeps_set; [done|]. by eapply Hnx.
        -- assert (js' = js) as -> by congruence.
           apply Hhit. left.
           apply list_elem_of_lookup in Hj as [k Hk].
           exists k. split; [by eapply lookup_lt_Some|]. split; [done|].
           by apply always_below_spec.
  - intros H vs H1 H' Hr Hvs [_ Hnx] [(Hn1 & _) _] (_ & _ & Hc)
      i js j Hi Hinf Hjs Hj.
    destruct (well_formed_adj G0 i Hwf Hi) as (js' & Hjs' & Hnb).
    assert (js' = js) as -> by congruence.
    destruct (Hc j) as [-> _]; [rewrite Hn1; by apply Hnb|].
    eapply Hnx; [by rewrite Hvs|done..].
Qed.

(** *** Timesteps with certain recovery *)

Lemma step_spec_certain_recovery G0 beta mu :
  well_formed G0 = true ->
  always_below mu = true ->
  step_spec G0 beta mu (fun H H' =>
    forall j, j ∈ g_nodes G0 -> flag H' j "infected" = Some 1 ->
      exists i js, i ∈ g_nodes G0 /\ flag H i "infected" = Some 1 /\
                   g_adj G0 !! i = Some js /\ j ∈ js).
Proof.
  intros Hwf Hyes.
  apply (step_spec_idx G0 beta mu (fun H _ H1 =>
    (forall n, flag H1 n "infected" = Some 1 -> flag H n "infected" = Some 1) /\
    (forall j, j ∈ g_nodes G0 -> flag H1 j "next_infected" = Some 1 ->
       exists i js, i ∈ g_nodes G0 /\ flag H i "infected" = Some 1 /\
                    g_adj G0 !! i = Some js /\ j ∈ js))); [done| | |].
  - intros H [_ Hnext]. split; [done|]. intros n Hn. by rewrite Hnext.
  - intros H vs i H1 H2 raw p1 Hr Hst1 [Hinf Hnx] Hi _
      [[_ ->]|(js & Hjs & Hi1 & Hv)]; [done|].
    assert (cures mu raw p1 js = true) as Hc.
    { unfold cures. by apply always_below_spec. }
    destruct Hv as (_ & _ & Hinf2 & Hhit & Hmiss). split.
    + intros n. rewrite Hinf2. destruct (decide _); [done|]. apply Hinf.
    + intros j Hj Hj2.
      destruct (infects_dec beta raw p1 js (length js) j)
        as [(k & _ & Hk & _)|Hni].
      * exists i, js. split; [done|]. split; [by apply Hinf|].
        split; [done|]. by eapply list_elem_of_lookup_2.
      * rewrite Hmiss in Hj2; [by apply Hnx|].
        intros [?|[_ ?]]; [done|congruence].
  - intros H vs H1 H' Hr _ [_ Hnx] [(Hn1 & _) _] (_ & _ & Hc) j Hj.
    destruct (Hc j) as [-> _]; [by rewrite Hn1|]. by apply Hnx.
Qed.

(** ** Further properties of [simulate] *)

Lemma step_spec_any G0 beta mu :
  well_formed G0 = true -> step_spec G0 beta mu (fun _ _ => True).
Proof.
  intros Hwf.
  by apply (step_spec_idx G0 beta mu (fun _ _ _ => True)).
Qed.

(** X6 (no transmission).  On a valid request, if the graph has no
    edges or the infection rate in use is such that no draw is below it
    (a negative or NaN beta; 0.0 is replaced by the default), then a
    node is infected at a timestep only if it was infected at the
    timestep before: [TS[i, t + 1] = 1] implies [TS[i, t] = 1], for
    every outcome of the random draws. *)
Theorem no_transmission_monotone (w : world) (G : loc) (G0 : Graph)
    (L num_seeds : Z) (beta mu : option pyfloat) :
  heap w !! G = Some G0 ->
  well_formed G0 = true ->
  (1 <= length (g_nodes G0))%nat ->
  1 <= L ->
  0 <= num_seeds <= Z.of_nat (length (g_nodes G0)) ->
  never_below (beta_used G0 beta) || edgeless G0 = true ->
  exists TS w',
    simulate G L num_seeds beta mu w = (Ok TS, w') /\
    forall i t, entry TS i (t + 1) = Some 1 -> entry TS i t = Some 1.
Proof.
  intros HG Hwf HN HL Hk Hno.
  destruct (simulate_trace G G0 L num_seeds beta mu _ (fun _ => True) w
              HG Hwf HN HL Hk
              (step_spec_no_transmission G0 _ (mu_used G0 mu) Hwf Hno))
    as (l & w1 & TS & w2 & seeds & _ & _ & Esim & Hpost & _); [done..|].
  exists TS, (stored l TS w2). split; [done|]. intros i t Hi.
  pose proof Hpost as (_ & _ & _ & _ & _ & _ & _ & _ & _ & _ & _ & Hsh & _).
  pose proof (entry_Some_lt _ _ _ _ _ _ Hsh Hi) as Hlt.
  destruct (trace_cases _ _ _ _ _ _ _ _ _ t Hpost Hlt)
    as [(Ha & Hb & Hra & Hrb & Hca & Hcb & HS)|[_ Hz]].
  - destruct (proj1 (entry_flags G0 Hb TS i (t + 1) Hrb Hcb) Hi)
      as (n & Hn & Hf).
    apply (entry_flags G0 Ha); [done..|]. exists n. split; [done|].
    apply HS; [by eapply list_elem_of_lookup_2|done].
  - by apply Hz in Hi.
Qed.

Lemma no_transmission_monotone_witness :
  exists TS w',
    simulate 1%positive 4 1 (Some (Fin (Qmake (-1) 1))) None (world0 K2 raw0)
    = (Ok TS, w') /\
    forall i t, entry TS i (t + 1) = Some 1 -> entry TS i t = Some 1.
Proof.
  apply (no_transmission_monotone (world0 K2 raw0) 1%positive K2 4 1
           (Some (Fin (Qmake (-1) 1))) None);
    [reflexivity | vm_compute; reflexivity | simpl; lia | lia | simpl; lia
    | vm_compute; reflexivity].
Defined.

(** X7 (no recovery).  On a valid request, if the recovery rate in use
    is such that no draw is below it (a negative or NaN mu; 0.0 is
    replaced by the default), an infected node stays infected:
    [TS[i, t] = 1] implies [TS[i, t + 1] = 1] for every later column,
    for every outcome of the random draws. *)
Theorem no_recovery_monotone (w : world) (G : loc) (G0 : Graph)
    (L num_seeds : Z) (beta mu : option pyfloat) :
  heap w !! G = Some G0 ->
  well_formed G0 = true ->
  (1 <= length (g_nodes G0))%nat ->
  1 <= L ->
  0 <= num_seeds <= Z.of_nat (length (g_nodes G0)) ->
  never_below (mu_used G0 mu) = true ->
  exists TS w',
    simulate G L num_seeds beta mu w = (Ok TS, w') /\
    forall i t, Z.of_nat t + 1 < L ->
      entry TS i t = Some 1 -> entry TS i (t + 1) = Some 1.
Proof.
  intros HG Hwf HN HL Hk Hno.
  destruct (simulate_trace G G0 L num_seeds beta mu _ (fun _ => True) w
              HG Hwf HN HL Hk
              (step_spec_no_recovery G0 (beta_used G0 beta) _ Hwf Hno))
    as (l & w1 & TS & w2 & seeds & _ & _ & Esim & Hpost & _); [done..|].
  exists TS, (stored l TS w2). split; [done|]. intros i t Hlt Hi.
  destruct (trace_cases _ _ _ _ _ _ _ _ _ t Hpost)
    as [(Ha & Hb & Hra & Hrb & Hca & Hcb & HS)|[Hz _]]; [lia| |].
  - destruct (proj1 (entry_flags G0 Ha TS i t Hra Hca) Hi) as (n & Hn & Hf).
    apply (entry_flags G0 Hb); [done..|]. exists n. split; [done|].
    apply HS; [by eapply list_elem_of_lookup_2|done].
  - by apply Hz in Hi.
Qed.

Lemma no_recovery_monotone_witness :
  exists TS w',
    simulate 1%positive 4 1 None (Some (Fin (Qmake (-1) 1))) (world0 K2 raw0)
    = (Ok TS, w') /\
    forall i t, Z.of_nat t + 1 < 4 ->
      entry TS i t = Some 1 -> entry TS i (t + 1) = Some 1.
Proof.
  apply (no_recovery_monotone (world0 K2 raw0) 1%positive K2 4 1
           None (Some (Fin (Qmake (-1) 1))));
    [reflexivity | vm_compute; reflexivity | simpl; lia | lia | simpl; lia
    | vm_compute; reflexivity].
Defined.

(** X8 (certain transmission).  On a valid request, if the infection
    rate in use is at least 1 (or infinite), every neighbour of a node
    infected at timestep t is infected at timestep t + 1, whatever mu and
    the random draws are. *)
Theorem certain_transmission (w : world) (G : loc) (G0 : Graph)
    (L num_seeds : Z) (beta mu : option pyfloat) :
  heap w !! G = Some G0 ->
  well_formed G0 = true ->
  (1 <= length (g_nodes G0))%nat ->
  1 <= L ->
  0 <= num_seeds <= Z.of_nat (length (g_nodes G0)) ->
  always_below (beta_used G0 beta) = true ->
  exists TS w',
    simulate G L num_seeds beta mu w = (Ok TS, w') /\
    forall i i' t n js j,
      g_nodes G0 !! i = Some n -> g_adj G0 !! n = Some js -> j ∈ js ->
      g_nodes G0 !! i' = Some j ->
      Z.of_nat t + 1 < L ->
      entry TS i t = Some 1 -> entry TS i' (t + 1) = Some 1.
Proof.
  intros HG Hwf HN HL Hk Hyes.
  destruct (simulate_trace G G0 L num_seeds beta mu _ (fun _ => True) w
              HG Hwf HN HL Hk
              (step_spec_certain_transmission G0 _ (mu_used G0 mu) Hwf Hyes))
    as (l & w1 & TS & w2 & seeds & _ & _ & Esim & Hpost & _); [done..|].
  exists TS, (stored l TS w2). split; [done|].
  intros i i' t n js j Hn Hjs Hj Hi' Hlt Hi.
  destruct (trace_cases _ _ _ _ _ _ _ _ _ t Hpost)
    as [(Ha & Hb & Hra & Hrb & Hca & Hcb & HS)|[Hz _]]; [lia| |].
  - destruct (proj1 (entry_flags G0 Ha TS i t Hra Hca) Hi) as (n' & Hn' & Hf).
    assert (n' = n) as -> by congruence.
    apply (entry_flags G0 Hb); [done..|]. exists j. split; [done|].
    eapply HS; [by eapply list_elem_of_lookup_2|done..].
  - by apply Hz in Hi.
Qed.

Lemma certain_transmission_witness :
  exists TS w',
    simulate 1%positive 4 1 (Some (Fin 1)) None (world0 K2 raw0)
    = (Ok TS, w') /\
    forall i i' t n js j,
      g_nodes K2 !! i = Some n -> g_adj K2 !! n = Some js -> j ∈ js ->
      g_nodes K2 !! i' = Some j ->
      Z.of_nat t + 1 < 4 ->
      entry TS i t = Some 1 -> entry TS i' (t + 1) = Some 1.
Proof.
  apply (certain_transmission (world0 K2 raw0) 1%positive K2 4 1
           (Some (Fin 1)) None);
    [reflexivity | vm_compute; reflexivity | simpl; lia | lia | simpl; lia
    | vm_compute; reflexivity].
Defined.

(** X9 (certain recovery).  On a valid request, if the recovery rate in
    use is at least 1 (or infinite), no node stays infected on its own:
    a node infected at timestep t + 1 is a neighbour of a node that was
    infected at timestep t. *)
Theorem certain_recovery (w : world) (G : loc) (G0 : Graph)
    (L num_seeds : Z) (beta mu : option pyfloat) :
  heap w !! G = Some G0 ->
  well_formed G0 = true ->
  (1 <= length (g_nodes G0))%nat ->
  1 <= L ->
  0 <= num_seeds <= Z.of_nat (length (g_nodes G0)) ->
  always_below (mu_used G0 mu) = true ->
  exists TS w',
    simulate G L num_seeds beta mu w = (Ok TS, w') /\
    forall i' t, entry TS i' (t + 1) = Some 1 ->
      exists i n js j,
        g_nodes G0 !! i' = Some j /\ g_nodes G0 !! i = Some n /\
        g_adj G0 !! n = Some js /\ j ∈ js /\ entry TS i t = Some 1.
Proof.
  intros HG Hwf HN HL Hk Hyes.
  destruct (simulate_trace G G0 L num_seeds beta mu _ (fun _ => True) w
              HG Hwf HN HL Hk
              (step_spec_certain_recovery G0 (beta_used G0 beta) _ Hwf Hyes))
    as (l & w1 & TS & w2 & seeds & _ & _ & Esim & Hpost & _); [done..|].
  exists TS, (stored l TS w2). split; [done|]. intros i' t Hi.
  pose proof Hpost as (_ & _ & _ & _ & _ & _ & _ & _ & _ & _ & _ & Hsh & _).
  pose proof (entry_Some_lt _ _ _ _ _ _ Hsh Hi) as Hlt.
  destruct (trace_cases _ _ _ _ _ _ _ _ _ t Hpost Hlt)
    as [(Ha & Hb & Hra & Hrb & Hca & Hcb & HS)|[_ Hz]].
  - destruct (proj1 (entry_flags G0 Hb TS i' (t + 1) Hrb Hcb) Hi)
      as (j & Hj & Hf).
    destruct (HS j) as (n & js & Hn & Hfn & Hjs & Hin);
      [by eapply list_elem_of_lookup_2|done|].
    apply list_elem_of_lookup in Hn as [i Hin'].
    exists i, n, js, j. repeat (split; [done|]).
    apply (entry_flags G0 Ha); [done..|]. eauto.
  - by apply Hz in Hi.
Qed.

Lemma certain_recovery_witness :
  exists TS w',
    simulate 1%positive 4 1 None (Some (Fin 1)) (world0 K2 raw0)
    = (Ok TS, w') /\
    forall i' t, entry TS i' (t + 1) = Some 1 ->
      exists i n js j,
        g_nodes K2 !! i' = Some j /\ g_nodes K2 !! i = Some n /\
        g_adj K2 !! n = Some js /\ j ∈ js /\ entry TS i t = Some 1.
Proof.
  apply (certain_recovery (world0 K2 raw0) 1%positive K2 4 1
           None (Some (Fin 1)));
    [reflexivity | vm_compute; reflexivity | simpl; lia | lia | simpl; lia
    | vm_compute; reflexivity].
Defined.

Lemma step_spec_die_out G0 beta mu :
  well_formed G0 = true ->
  never_below beta || edgeless G0 = true ->
  always_below mu = true ->
  step_spec G0 beta mu (fun _ H' =>
    forall n, n ∈ g_nodes G0 -> flag H' n "infected" = Some 0).
Proof.
  intros Hwf Hno Hyes.
  apply (step_spec_idx G0 beta mu (fun _ _ H1 =>
    forall n, n ∈ g_nodes G0 -> flag H1 n "next_infected" = Some 0));
    [done| | |].
  - by intros H [_ Hnext].
  - intros H vs i H1 H2 raw p1 Hr Hst1 Hnx Hi _
      [[_ ->]|(js & Hjs & Hi1 & Hv)]; [done|].
    destruct Hv as (_ & _ & _ & _ & Hmiss). intros n Hn.
    rewrite Hmiss; [by apply Hnx|].
    intros [(k & Hk & Hjk & Hlt)|[_ Hc]].
    + apply orb_true_iff in Hno as [Hb|He].
      * by rewrite (never_below_spec _ _ Hb) in Hlt.
      * rewrite (edgeless_spec G0 i He Hi) in Hjs. injection Hjs as <-.
        simpl in Hk. lia.
    + unfold cures in Hc. by rewrite always_below_spec in Hc.
  - intros H vs H1 H' Hr _ Hnx [(Hn1 & _) _] (_ & _ & Hc) n Hn.
    destruct (Hc n) as [-> _]; [by rewrite Hn1|]. by apply Hnx.
Qed.

(** X10 (no spread, certain recovery).  On a valid request, if no
    transmission can succeed (no edges, or no draw is below beta) and
    every recovery trial succeeds (mu at least 1), every column after
    column 0 is zero: the epidemic is extinct at timestep 1. *)
Theorem extinct_after_first_step (w : world) (G : loc) (G0 : Graph)
    (L num_seeds : Z) (beta mu : option pyfloat) :
  heap w !! G = Some G0 ->
  well_formed G0 = true ->
  (1 <= length (g_nodes G0))%nat ->
  1 <= L ->
  0 <= num_seeds <= Z.of_nat (length (g_nodes G0)) ->
  never_below (beta_used G0 beta) || edgeless G0 = true ->
  always_below (mu_used G0 mu) = true ->
  exists TS w',
    simulate G L num_seeds beta mu w = (Ok TS, w') /\
    forall i t x, (1 <= t)%nat -> entry TS i t = Some x -> x = 0.
Proof.
  intros HG Hwf HN HL Hk Hno Hyes.
  destruct (simulate_trace G G0 L num_seeds beta mu _ (fun _ => True) w
              HG Hwf HN HL Hk
              (step_spec_die_out G0 _ _ Hwf Hno Hyes))
    as (l & w1 & TS & w2 & seeds & _ & _ & Esim & Hpost & _); [done..|].
  exists TS, (stored l TS w2). split; [done|]. intros i t x Ht Hi.
  pose proof Hpost as (_ & _ & _ & _ & _ & _ & _ & _ & _ & _ & _ & Hsh & _).
  pose proof (entry_Some_lt _ _ _ _ _ _ Hsh Hi) as Hlt.
  destruct t as [|t]; [lia|]. replace (S t) with (t + 1)%nat in * by lia.
  destruct (trace_cases _ _ _ _ _ _ _ _ _ t Hpost Hlt)
    as [(Ha & Hb & Hra & Hrb & Hca & Hcb & HS)|[_ Hz]].
  - unfold entry in Hi. rewrite Hcb in Hi. simpl in Hi.
    rewrite (flags_col_lookup G0 Hb i Hrb) in Hi.
    destruct (g_nodes G0 !! i) as [n|] eqn:Hn; [|done]. simpl in Hi.
    rewrite (HS n) in Hi by by eapply list_elem_of_lookup_2.
    by injection Hi as <-.
  - by eapply Hz.
Qed.

Lemma extinct_after_first_step_witness :
  exists TS w',
    simulate 1%positive 3 1 None (Some (Fin 1)) (world0 G1 raw0) = (Ok TS, w') /\
    forall i t x, (1 <= t)%nat -> entry TS i t = Some x -> x = 0.
Proof.
  apply (extinct_after_first_step (world0 G1 raw0) 1%positive G1 3 1
           None (Some (Fin 1)));
    [reflexivity | vm_compute; reflexivity | simpl; lia | lia | simpl; lia
    | vm_compute; reflexivity | vm_compute; reflexivity].
Defined.

Lemma sum_list_nonneg (l : list Z) :
  (forall x, x ∈ l -> 0 <= x) -> 0 <= sum_list l.
Proof.
  induction l as [|y l IH]; intros Hl; simpl; [done|].
  assert (0 <= y) by (apply Hl; left).
  assert (0 <= sum_list l) by (apply IH; intros x Hx; apply Hl; by right).
  lia.
Qed.

Lemma sum_list_elem (l : list Z) x :
  (forall y, y ∈ l -> 0 <= y) -> x ∈ l -> x <= sum_list l.
Proof.
  induction l as [|y l IH]; intros Hl Hx; [by apply elem_of_nil in Hx|].
  simpl. assert (0 <= y) by (apply Hl; left).
  assert (0 <= sum_list l).
  { apply sum_list_nonneg. intros z Hz. apply Hl. by right. }
  apply elem_of_cons in Hx as [->|Hx]; [lia|].
  assert (x <= sum_list l); [|lia].
  apply IH; [|done]. intros z Hz. apply Hl. by right.
Qed.

Lemma no_isolated_node_spec G n :
  no_isolated_node G = true -> n ∈ g_nodes G ->
  exists j js, g_adj G !! n = Some (j :: js).
Proof.
  unfold no_isolated_node. rewrite forallb_forall. intros Hall Hn.
  apply list_elem_of_In, Hall in Hn.
  destruct (g_adj G !! n) as [[|j js]|]; [done| |done]. eauto.
Qed.

(** X11 (guaranteed spread).  The assertion of
    [test_SIS_small_initial_infected] holds for every outcome of the
    random draws, and more generally: on a graph in which every node has
    a neighbour, with at least one seed, at least two timesteps and an
    infection rate of at least 1, the entries of the returned array sum
    to more than 1, whatever mu is. *)
Theorem infection_spreads (w : world) (G : loc) (G0 : Graph)
    (L num_seeds : Z) (beta mu : option pyfloat) :
  heap w !! G = Some G0 ->
  well_formed G0 = true ->
  no_isolated_node G0 = true ->
  2 <= L ->
  1 <= num_seeds <= Z.of_nat (length (g_nodes G0)) ->
  always_below (beta_used G0 beta) = true ->
  exists TS w',
    simulate G L num_seeds beta mu w = (Ok TS, w') /\
    1 < sum_list (sum_list <$> cols TS).
Proof.
  intros HG Hwf Hdeg HL Hk Hyes.
  assert (1 <= length (g_nodes G0))%nat as HN by lia.
  destruct (simulate_trace G G0 L num_seeds beta mu _ (fun _ => True) w
              HG Hwf HN ltac:(lia) ltac:(lia)
              (step_spec_certain_transmission G0 _ (mu_used G0 mu) Hwf Hyes))
    as (l & w1 & TS & w2 & seeds & _ & _ & Esim & Hpost & Hc0 & Hperm & _);
    [done..|].
  exists TS, (stored l TS w2). split; [done|].
  pose proof Hpost as (H & p & t' & _ & Hr & _ & Ht' & Hcol & _ & Hext &
                       Htr & Hsh & _).
  pose proof Hsh as (_ & Hsh1 & Hcols).
  assert (sum_list seeds = num_seeds) as Hsum0.
  { rewrite (seeds_sum _ _ _ Hperm). lia. }
  (* column 1 was written *)
  assert (2 <= t')%nat as Ht2.
  { destruct (decide (t' = 1)%nat) as [->|]; [|lia].
    simpl in Hcol. rewrite Hc0 in Hcol. injection Hcol as Hcol.
    rewrite <- Hcol in Hext. specialize (Hext ltac:(lia)). lia. }
  destruct (Htr 1%nat) as (Ha & Hb & Hra & Hrb & Hca & Hcb & HS); [lia|].
  simpl in Hca. rewrite Hc0 in Hca. injection Hca as Hca.
  (* some node is a seed *)
  assert (exists i, seeds !! i = Some 1) as [i Hi].
  { apply list_elem_of_lookup. rewrite Hperm. apply elem_of_app. left.
    apply elem_of_replicate. split; [done|]. lia. }
  rewrite Hca in Hi. apply (flags_col_1 G0 Ha i Hra) in Hi as (n & Hn & Hf).
  assert (n ∈ g_nodes G0) as Hnin by by eapply list_elem_of_lookup_2.
  destruct (no_isolated_node_spec G0 n Hdeg Hnin) as (j & js & Hjs).
  assert (flag Hb j "infected" = Some 1) as Hj.
  { eapply (HS n); [done..|left]. }
  destruct (well_formed_adj G0 n Hwf Hnin) as (js' & Hjs' & Hnb).
  assert (j ∈ g_nodes G0) as Hjin.
  { apply Hnb. rewrite Hjs in Hjs'. injection Hjs' as <-. left. }
  apply list_elem_of_lookup in Hjin as [i' Hi'].
  assert (flags_col Hb !! i' = Some 1) as Hb1.
  { apply (flags_col_1 G0 Hb i' Hrb). eauto. }
  (* the first two columns already sum to at least 2 *)
  destruct (cols TS) as [|c0 [|c1 rest]] eqn:Ecols; [done|done|].
  simpl in Hc0, Hcb. injection Hc0 as ->. injection Hcb as ->.
  change (1 < sum_list seeds +
              (sum_list (flags_col Hb) + sum_list (sum_list <$> rest))).
  assert (1 <= sum_list (flags_col Hb)).
  { apply sum_list_elem; [|by eapply list_elem_of_lookup_2].
    intros y Hy. destruct (flags_col_ok G0 Hb Hrb) as [_ Hbin].
    destruct (Hbin y Hy); lia. }
  assert (0 <= sum_list (sum_list <$> rest)).
  { apply sum_list_nonneg. intros y (c & -> & Hc)%list_elem_of_fmap.
    apply (col_ok_sum (length (g_nodes G0))). apply Hcols.
    right. by right. }
  lia.
Qed.

Lemma infection_spreads_witness :
  exists TS w',
    simulate 1%positive 20 1 (Some (Fin 1)) (Some (Fin 1))
      (world0 (complete_graph 10) raw0) = (Ok TS, w') /\
    1 < sum_list (sum_list <$> cols TS).
Proof.
  apply (infection_spreads (world0 (complete_graph 10) raw0) 1%positive
           (complete_graph 10) 20 1 (Some (Fin 1)) (Some (Fin 1)));
    [reflexivity | vm_compute; reflexivity | vm_compute; reflexivity | lia
    | simpl; lia | vm_compute; reflexivity].
Defined.

Lemma step_spec_other_attrs G0 beta mu :
  well_formed G0 = true ->
  step_spec G0 beta mu same_other_attrs.
Proof.
  intros Hwf.
  apply (step_spec_idx G0 beta mu (fun H _ H1 => same_other_attrs H H1));
    [done| | |].
  - by intros H _ n name.
  - intros H vs i H1 H2 raw p1 Hr Hst1 Hsame Hi _
      [[_ ->]|(js & Hjs & Hi1 & Hv)]; [done|].
    destruct Hv as (_ & Hoth & _). intros n name Hne1 Hne2.
    rewrite Hoth by done. by apply Hsame.
  - intros H vs H1 H' Hr _ Hsame _ (_ & Hoth & _) n name Hne1 Hne2.
    rewrite Hoth by done. by apply Hsame.
Qed.

Lemma stored_results_lookup l TS w :
  results (stored l TS w) !! "TS" = Some (PArray TS) /\
  results (stored l TS w) !! "ground_truth" = Some (PGraph (l_H l)) /\
  results (stored l TS w) !! "index_to_node" = Some (PIndex (l_index_to_node l)) /\
  forall key, key <> "TS" -> key <> "ground_truth" -> key <> "index_to_node" ->
    results (stored l TS w) !! key = results w !! key.
Proof.
  unfold stored. simpl. split; [|split; [|split]].
  - rewrite lookup_insert_ne by done. by rewrite lookup_insert_eq.
  - rewrite !lookup_insert_ne by done. by rewrite lookup_insert_eq.
  - by rewrite lookup_insert_eq.
  - intros key H1 H2 H3. by rewrite !lookup_insert_ne.
Qed.

(** X1 (what is stored).  After a call on a valid request,
    [self.results] holds the returned array under ['TS'], the working
    copy -- not the caller's graph -- under ['ground_truth'], and under
    ['index_to_node'] the dictionary that sends row i to the i-th node
    of [G.nodes]; every other entry of [self.results] is as before. *)
Theorem results_stored (w : world) (G : loc) (G0 : Graph)
    (L num_seeds : Z) (beta mu : option pyfloat) :
  heap w !! G = Some G0 ->
  well_formed G0 = true ->
  (1 <= length (g_nodes G0))%nat ->
  1 <= L ->
  0 <= num_seeds <= Z.of_nat (length (g_nodes G0)) ->
  exists TS w' idx,
    simulate G L num_seeds beta mu w = (Ok TS, w') /\
    results w' !! "TS" = Some (PArray TS) /\
    results w' !! "ground_truth" = Some (PGraph (fresh (dom (heap w)))) /\
    fresh (dom (heap w)) <> G /\
    results w' !! "index_to_node" = Some (PIndex idx) /\
    (forall i, idx !! i = g_nodes G0 !! i) /\
    forall key, key <> "TS" -> key <> "ground_truth" -> key <> "index_to_node" ->
      results w' !! key = results w !! key.
Proof.
  intros HG Hwf HN HL Hk.
  destruct (simulate_trace G G0 L num_seeds beta mu _ (fun _ => True) w
              HG Hwf HN HL Hk (step_spec_any G0 _ _ Hwf))
    as (l & w1 & TS & w2 & seeds & _ & Hfull & Esim & _ & _ & _ & Hres & _);
    [done..|].
  destruct Hfull as (H & seeds' & _ & _ & _ & Hl & _).
  destruct (stored_results_lookup l TS w2) as (R1 & R2 & R3 & R4).
  exists TS, (stored l TS w2), (l_index_to_node l).
  split; [done|]. split; [done|]. split; [by rewrite R2, Hl|].
  split.
  { intros Heq. apply (is_fresh (dom (heap w))). rewrite Heq.
    apply elem_of_dom. eauto. }
  split; [done|]. split.
  - intros i. rewrite Hl. simpl.
    apply (index_to_node_lookup (g_nodes G0) 0 i).
  - intros key H1 H2 H3. rewrite R4 by done. by rewrite Hres.
Qed.

Lemma results_stored_witness :
  exists TS w' idx,
    simulate 1%positive 4 1 None None (world0 K2 raw0) = (Ok TS, w') /\
    results w' !! "TS" = Some (PArray TS) /\
    results w' !! "ground_truth"
    = Some (PGraph (fresh (dom (heap (world0 K2 raw0))))) /\
    fresh (dom (heap (world0 K2 raw0))) <> 1%positive /\
    results w' !! "index_to_node" = Some (PIndex idx) /\
    (forall i, idx !! i = g_nodes K2 !! i) /\
    forall key, key <> "TS" -> key <> "ground_truth" -> key <> "index_to_node" ->
      results w' !! key = results (world0 K2 raw0) !! key.
Proof.
  apply (results_stored (world0 K2 raw0) 1%positive K2 4 1 None None);
    [reflexivity | vm_compute; reflexivity | simpl; lia | lia | simpl; lia].
Defined.

(** X2 (the index map is a bijection).  The dictionary stored under
    ['index_to_node'] is defined exactly on the row indices 0 .. N-1,
    sends different indices to different nodes, and reaches every node
    of the graph. *)
Theorem index_to_node_bijection (w : world) (G : loc) (G0 : Graph)
    (L num_seeds : Z) (beta mu : option pyfloat) :
  heap w !! G = Some G0 ->
  well_formed G0 = true ->
  (1 <= length (g_nodes G0))%nat ->
  1 <= L ->
  0 <= num_seeds <= Z.of_nat (length (g_nodes G0)) ->
  exists TS w' idx,
    simulate G L num_seeds beta mu w = (Ok TS, w') /\
    results w' !! "index_to_node" = Some (PIndex idx) /\
    (forall i, is_Some (idx !! i) <-> (i < shape0 TS)%nat) /\
    (forall i j n, idx !! i = Some n -> idx !! j = Some n -> i = j) /\
    (forall n, n ∈ g_nodes G0 <-> exists i, idx !! i = Some n).
Proof.
  intros HG Hwf HN HL Hk.
  destruct (simulate_trace G G0 L num_seeds beta mu _ (fun _ => True) w
              HG Hwf HN HL Hk (step_spec_any G0 _ _ Hwf))
    as (l & w1 & TS & w2 & seeds & _ & Hfull & Esim & Hpost & _); [done..|].
  destruct Hfull as (H & seeds' & _ & _ & _ & Hl & _).
  destruct Hpost as (_ & _ & _ & _ & _ & _ & _ & _ & _ & _ & _ & Hsh & _).
  destruct Hsh as (Hsh0 & _).
  destruct (stored_results_lookup l TS w2) as (_ & _ & R3 & _).
  assert (forall i, l_index_to_node l !! i = g_nodes G0 !! i) as Hidx.
  { intros i. rewrite Hl. simpl.
    apply (index_to_node_lookup (g_nodes G0) 0 i). }
  exists TS, (stored l TS w2), (l_index_to_node l).
  split; [done|]. split; [done|]. split; [|split].
  - intros i. rewrite Hidx, Hsh0. apply lookup_lt_is_Some.
  - intros i j n. rewrite !Hidx. apply NoDup_lookup.
    by apply well_formed_NoDup.
  - intros n. rewrite list_elem_of_lookup.
    split; intros [i Hi]; exists i; by rewrite ?Hidx in *.
Qed.

Lemma index_to_node_bijection_witness :
  exists TS w' idx,
    simulate 1%positive 4 1 None None (world0 K2 raw0) = (Ok TS, w') /\
    results w' !! "index_to_node" = Some (PIndex idx) /\
    (forall i, is_Some (idx !! i) <-> (i < shape0 TS)%nat) /\
    (forall i j n, idx !! i = Some n -> idx !! j = Some n -> i = j) /\
    (forall n, n ∈ g_nodes K2 <-> exists i, idx !! i = Some n).
Proof.
  apply (index_to_node_bijection (world0 K2 raw0) 1%positive K2 4 1 None None);
    [reflexivity | vm_compute; reflexivity | simpl; lia | lia | simpl; lia].
Defined.

(** X3 (one new object).  A call on a valid request allocates exactly
    one graph object, the working copy: its identity is new, and every
    graph object that existed before the call -- the caller's and any
    other -- is unchanged afterwards. *)
Theorem one_object_allocated (w : world) (G : loc) (G0 : Graph)
    (L num_seeds : Z) (beta mu : option pyfloat) :
  heap w !! G = Some G0 ->
  well_formed G0 = true ->
  (1 <= length (g_nodes G0))%nat ->
  1 <= L ->
  0 <= num_seeds <= Z.of_nat (length (g_nodes G0)) ->
  exists TS w',
    simulate G L num_seeds beta mu w = (Ok TS, w') /\
    heap w !! fresh (dom (heap w)) = None /\
    dom (heap w') = {[fresh (dom (heap w))]} ∪ dom (heap w) /\
    forall g X, heap w !! g = Some X -> heap w' !! g = Some X.
Proof.
  intros HG Hwf HN HL Hk.
  destruct (simulate_trace G G0 L num_seeds beta mu _ (fun _ => True) w
              HG Hwf HN HL Hk (step_spec_any G0 _ _ Hwf))
    as (l & w1 & TS & w2 & seeds & _ & _ & Esim & _ & _ & _ & _ & Hdom);
    [done..|].
  exists TS, (stored l TS w2). split; [done|]. split; [|split; [done|]].
  - apply not_elem_of_dom, is_fresh.
  - intros g X Hg.
    pose proof (simulate_keeps_object G L num_seeds beta mu g w X Hg) as K.
    by rewrite Esim in K.
Qed.

Lemma one_object_allocated_witness :
  exists TS w',
    simulate 1%positive 4 1 None None (world0 K2 raw0) = (Ok TS, w') /\
    heap (world0 K2 raw0) !! fresh (dom (heap (world0 K2 raw0))) = None /\
    dom (heap w')
    = {[fresh (dom (heap (world0 K2 raw0)))]} ∪ dom (heap (world0 K2 raw0)) /\
    forall g X, heap (world0 K2 raw0) !! g = Some X -> heap w' !! g = Some X.
Proof.
  apply (one_object_allocated (world0 K2 raw0) 1%positive K2 4 1 None None);
    [reflexivity | vm_compute; reflexivity | simpl; lia | lia | simpl; lia].
Defined.

(** X4 (the working copy).  The graph stored as ['ground_truth'] has
    the nodes and the edges of the input graph and attribute
    dictionaries for the same nodes; every node attribute other than
    [infected] and [next_infected] has the value it has on the input
    graph; on return every [next_infected] is 0 and every [infected] is
    0 or 1. *)
Theorem ground_truth_structure (w : world) (G : loc) (G0 : Graph)
    (L num_seeds : Z) (beta mu : option pyfloat) :
  heap w !! G = Some G0 ->
  well_formed G0 = true ->
  (1 <= length (g_nodes G0))%nat ->
  1 <= L ->
  0 <= num_seeds <= Z.of_nat (length (g_nodes G0)) ->
  exists TS w' h H',
    simulate G L num_seeds beta mu w = (Ok TS, w') /\
    results w' !! "ground_truth" = Some (PGraph h) /\
    heap w' !! h = Some H' /\
    g_nodes H' = g_nodes G0 /\
    g_adj H' = g_adj G0 /\
    (forall n, is_Some (g_attr H' !! n) <-> is_Some (g_attr G0 !! n)) /\
    (forall n name, name <> "infected" -> name <> "next_infected" ->
       flag H' n name = flag G0 n name) /\
    (forall n, n ∈ g_nodes G0 ->
       flag H' n "next_infected" = Some 0 /\
       (flag H' n "infected" = Some 0 \/ flag H' n "infected" = Some 1)).
Proof.
  intros HG Hwf HN HL Hk.
  destruct (simulate_trace G G0 L num_seeds beta mu same_other_attrs
              (same_other_attrs G0) w HG Hwf HN HL Hk
              (step_spec_other_attrs G0 _ _ Hwf))
    as (l & w1 & TS & w2 & seeds & _ & Hfull & Esim & Hpost & _).
  { intros H H' _ HK HS n name Hne1 Hne2. rewrite HS by done. by apply HK. }
  { by intros H _ Hsame. }
  destruct Hfull as (H0 & seeds' & _ & _ & _ & Hl & _).
  destruct Hpost as (H' & p' & t' & (Hh' & _) & Hr' & HK' & _).
  destruct (stored_results_lookup l TS w2) as (_ & R2 & _ & _).
  destruct Hr' as [[(Hn & Ha & Hd) Hbin] Hnext].
  exists TS, (stored l TS w2), (fresh (dom (heap w))), H'.
  split; [done|]. split; [by rewrite R2, Hl|]. split; [done|].
  split; [done|]. split; [done|]. split; [done|]. split; [done|].
  intros n Hn'. split; [by apply Hnext|]. by destruct (Hbin n Hn').
Qed.

Lemma ground_truth_structure_witness :
  exists TS w' h H',
    simulate 1%positive 4 1 None None (world0 K2 raw0) = (Ok TS, w') /\
    results w' !! "ground_truth" = Some (PGraph h) /\
    heap w' !! h = Some H' /\
    g_nodes H' = g_nodes K2 /\
    g_adj H' = g_adj K2 /\
    (forall n, is_Some (g_attr H' !! n) <-> is_Some (g_attr K2 !! n)) /\
    (forall n name, name <> "infected" -> name <> "next_infected" ->
       flag H' n name = flag K2 n name) /\
    (forall n, n ∈ g_nodes K2 ->
       flag H' n "next_infected" = Some 0 /\
       (flag H' n "infected" = Some 0 \/ flag H' n "infected" = Some 1)).
Proof.
  apply (ground_truth_structure (world0 K2 raw0) 1%positive K2 4 1 None None);
    [reflexivity | vm_compute; reflexivity | simpl; lia | lia | simpl; lia].
Defined.

(** X5 (the snapshot is the last column).  On return the [infected]
    flag of every node of the ['ground_truth'] graph is the entry of
    that node's row in the last column of the returned array, also when
    the loop was left early. *)
Theorem ground_truth_last_column (w : world) (G : loc) (G0 : Graph)
    (L num_seeds : Z) (beta mu : option pyfloat) :
  heap w !! G = Some G0 ->
  well_formed G0 = true ->
  (1 <= length (g_nodes G0))%nat ->
  1 <= L ->
  0 <= num_seeds <= Z.of_nat (length (g_nodes G0)) ->
  exists TS w' h H',
    simulate G L num_seeds beta mu w = (Ok TS, w') /\
    results w' !! "ground_truth" = Some (PGraph h) /\
    heap w' !! h = Some H' /\
    forall i n, g_nodes G0 !! i = Some n ->
      flag H' n "infected" = entry TS i (Z.to_nat L - 1).
Proof.
  intros HG Hwf HN HL Hk.
  destruct (simulate_trace G G0 L num_seeds beta mu _ (fun _ => True) w
              HG Hwf HN HL Hk (step_spec_any G0 _ _ Hwf))
    as (l & w1 & TS & w2 & seeds & _ & Hfull & Esim & Hpost & _); [done..|].
  destruct Hfull as (H0 & seeds' & _ & _ & _ & Hl & _).
  destruct Hpost as (H' & p' & t' & (Hh' & _) & Hr' & _ & Ht' & Hcol & Hz &
                     Hext & _ & Hsh & _).
  destruct (stored_results_lookup l TS w2) as (_ & R2 & _ & _).
  exists TS, (stored l TS w2), (fresh (dom (heap w))), H'.
  split; [done|]. split; [by rewrite R2, Hl|]. split; [done|].
  intros i n Hn.
  assert (n ∈ g_nodes G0) as Hnin by by eapply list_elem_of_lookup_2.
  pose proof Hr' as [[_ Hbin] _].
  assert (flags_col H' !! i = flag H' n "infected") as Hfl.
  { rewrite (flags_col_lookup G0 H' i Hr'), Hn. simpl.
    by destruct (Hbin n Hnin) as [[-> | ->] _]. }
  destruct (decide (t' = Z.to_nat L)) as [->|Hne].
  - unfold entry. rewrite Hcol. simpl. by rewrite Hfl.
  - (* the loop was left early: the working copy and the rest are zero *)
    specialize (Hext ltac:(lia)).
    pose proof (col_zero _ _ (flags_col_ok G0 H' Hr') Hext) as Hzero.
    assert (flag H' n "infected" = Some 0) as ->.
    { rewrite <- Hfl.
      destruct (lookup_lt_is_Some_2 (flags_col H') i) as [x Hx].
      { destruct (flags_col_ok G0 H' Hr') as [-> _]. by eapply lookup_lt_Some. }
      rewrite Hx. f_equal. apply Hzero. by eapply list_elem_of_lookup_2. }
    pose proof Hsh as (_ & Hsh1 & Hcols). unfold shape1 in Hsh1.
    destruct (lookup_lt_is_Some_2 (cols TS) (Z.to_nat L - 1)) as [c Hc]; [lia|].
    destruct (Hcols c) as [Hlen Hbinc]; [by eapply list_elem_of_lookup_2|].
    destruct (lookup_lt_is_Some_2 c i) as [x Hx].
    { rewrite Hlen. by eapply lookup_lt_Some. }
    unfold entry. rewrite Hc. simpl. rewrite Hx. f_equal. symmetry.
    destruct (decide (Z.to_nat L - 1 = t' - 1)%nat) as [Heq|Hneq].
    + rewrite Heq, Hcol in Hc. injection Hc as <-.
      apply Hzero. by eapply list_elem_of_lookup_2.
    + eapply (col_zero _ c); [by split| |by eapply list_elem_of_lookup_2].
      apply (Hz (Z.to_nat L - 1)%nat); [lia|done].
Qed.

Lemma ground_truth_last_column_witness :
  exists TS w' h H',
    simulate 1%positive 4 1 None None (world0 K2 raw0) = (Ok TS, w') /\
    results w' !! "ground_truth" = Some (PGraph h) /\
    heap w' !! h = Some H' /\
    forall i n, g_nodes K2 !! i = Some n ->
      flag H' n "infected" = entry TS i (Z.to_nat 4 - 1).
Proof.
  apply (ground_truth_last_column (world0 K2 raw0) 1%positive K2 4 1 None None);
    [reflexivity | vm_compute; reflexivity | simpl; lia | lia | simpl; lia].
Defined.

Lemma sis_loop_no_pass h beta mu L TS w c :
  cols TS !! 0%nat = Some c -> sum_list c < 1 ->
  sis_loop h beta mu (py_range1 L) TS w = (Ok TS, w).
Proof.
  intros Hc Hsum. unfold py_range1.
  destruct (Z.to_nat L - 1)%nat as [|k]; [done|].
  simpl seq. by apply (sis_loop_break h beta mu 1 _ TS w c).
Qed.

Lemma sum_list_replicate_0 n : sum_list (replicate n 0) = 0.
Proof. induction n as [|n IH]; [done|]. simpl. by rewrite IH. Qed.

(** X12 (no seeds, no epidemic).  With [num_seeds = 0] on a graph with
    at least one node the call returns the N x L array of zeros for
    every beta and mu.  The loop is left at its first test: the world
    on return is the world that the initialisation has left, with the
    three entries of [self.results] added, so the loop draws no random
    number and changes no flag, and every node of the ['ground_truth']
    graph is susceptible. *)
Theorem no_seeds_no_epidemic (w : world) (G : loc) (G0 : Graph)
    (L : Z) (beta mu : option pyfloat) :
  heap w !! G = Some G0 ->
  well_formed G0 = true ->
  (1 <= length (g_nodes G0))%nat ->
  1 <= L ->
  let zeros :=
    mkArray (length (g_nodes G0))
      (replicate (Z.to_nat L) (replicate (length (g_nodes G0)) 0)) in
  exists l w1 H',
    sis_init G L 0 beta mu w = (Ok l, w1) /\
    sis_loop (l_H l) (l_beta l) (l_mu l) (py_range1 L) (l_TS l) w1
    = (Ok zeros, w1) /\
    simulate G L 0 beta mu w = (Ok zeros, stored l zeros w1) /\
    heap (stored l zeros w1) !! fresh (dom (heap w)) = Some H' /\
    forall n, n ∈ g_nodes G0 -> flag H' n "infected" = Some 0.
Proof.
  intros HG Hwf HN HL zeros.
  set (N := length (g_nodes G0)) in *.
  destruct (wp_sis_init_full G G0 L 0 beta mu
              (init_full G0 (rng_raw w) (rng_pos w) (fresh (dom (heap w)))
                 (Z.to_nat L) (Z.to_nat 0) beta mu) w)
    as (l & w1 & Einit & Hfull); [done..|lia|done|].
  destruct Hfull as (H & seeds & (Hh & _ & Hp) & Hr & _ & Hl & Hperm & Hfl).
  fold N in Hperm, Hl, Hp.
  change (Z.to_nat 0) with 0%nat in Hperm. simpl in Hperm.
  rewrite Nat.sub_0_r in Hperm.
  symmetry in Hperm. apply replicate_Permutation in Hperm. subst seeds.
  assert (l_TS l = zeros) as HTS.
  { rewrite Hl. simpl. unfold zeros. f_equal. apply list_insert_id.
    apply lookup_replicate. split; [done|lia]. }
  assert (sis_loop (l_H l) (l_beta l) (l_mu l) (py_range1 L) (l_TS l) w1
          = (Ok (l_TS l), w1)) as Eloop.
  { apply (sis_loop_no_pass _ _ _ _ _ _ (replicate N 0)).
    - rewrite HTS. simpl. apply lookup_replicate. split; [done|lia].
    - rewrite sum_list_replicate_0. lia. }
  destruct (simulate_stages G L 0 beta mu w l w1 (l_TS l) w1 Einit Eloop)
    as [_ Esim].
  { rewrite HTS. unfold shape1. simpl. rewrite length_replicate. lia. }
  exists l, w1, H. rewrite <- HTS.
  split; [done|]. split; [done|]. split; [done|]. split; [done|].
  intros n Hn. apply list_elem_of_lookup in Hn as [i Hi].
  pose proof (flags_col_lookup G0 H i Hr) as Hlk.
  rewrite Hfl, Hi in Hlk. simpl in Hlk.
  pose proof Hr as [[_ Hbin] _].
  assert (n ∈ g_nodes G0) as Hnin by by eapply list_elem_of_lookup_2.
  destruct (Hbin n Hnin) as [[E | E] _]; [done|].
  rewrite E in Hlk. simpl in Hlk.
  assert (replicate N 0 !! i = Some 0) as Hz.
  { apply lookup_replicate. split; [done|]. by eapply lookup_lt_Some. }
  rewrite Hz in Hlk. discriminate.
Qed.

Lemma no_seeds_no_epidemic_witness :
  let w := world0 K2 raw0 in
  let zeros :=
    mkArray (length (g_nodes K2))
      (replicate (Z.to_nat 4) (replicate (length (g_nodes K2)) 0)) in
  exists l w1 H',
    sis_init 1%positive 4 0 None None w = (Ok l, w1) /\
    sis_loop (l_H l) (l_beta l) (l_mu l) (py_range1 4) (l_TS l) w1
    = (Ok zeros, w1) /\
    simulate 1%positive 4 0 None None w = (Ok zeros, stored l zeros w1) /\
    heap (stored l zeros w1) !! fresh (dom (heap w)) = Some H' /\
    forall n, n ∈ g_nodes K2 -> flag H' n "infected" = Some 0.
Proof.
  apply (no_seeds_no_epidemic (world0 K2 raw0) 1%positive K2 4 None None);
    [reflexivity | vm_compute; reflexivity | simpl; lia | lia].
Defined.

(** X13 (a single time step).  With [L = 1] the loop body never runs:
    the returned array is the seed column alone, a permutation of
    [num_seeds] ones and N - [num_seeds] zeros; the world on return is
    the world that the initialisation has left, with the three entries
    of [self.results] added; and the [infected] flags of the
    ['ground_truth'] graph, in node order, are those seeds. *)
Theorem single_step_is_seeding (w : world) (G : loc) (G0 : Graph)
    (num_seeds : Z) (beta mu : option pyfloat) :
  heap w !! G = Some G0 ->
  well_formed G0 = true ->
  (1 <= length (g_nodes G0))%nat ->
  0 <= num_seeds <= Z.of_nat (length (g_nodes G0)) ->
  exists seeds l w1 H',
    sis_init G 1 num_seeds beta mu w = (Ok l, w1) /\
    simulate G 1 num_seeds beta mu w
    = (Ok (mkArray (length (g_nodes G0)) [seeds]),
       stored l (mkArray (length (g_nodes G0)) [seeds]) w1) /\
    seeds ≡ₚ replicate (Z.to_nat num_seeds) 1 ++
             replicate (length (g_nodes G0) - Z.to_nat num_seeds) 0 /\
    heap (stored l (mkArray (length (g_nodes G0)) [seeds]) w1)
      !! fresh (dom (heap w)) = Some H' /\
    flags_col H' = seeds.
Proof.
  intros HG Hwf HN Hk.
  set (N := length (g_nodes G0)) in *.
  destruct (wp_sis_init_full G G0 1 num_seeds beta mu
              (init_full G0 (rng_raw w) (rng_pos w) (fresh (dom (heap w)))
                 (Z.to_nat 1) (Z.to_nat num_seeds) beta mu) w)
    as (l & w1 & Einit & Hfull); [done..|lia|done|done|].
  destruct Hfull as (H & seeds & (Hh & _ & Hp) & Hr & _ & Hl & Hperm & Hfl).
  fold N in Hperm, Hl, Hp.
  assert (l_TS l = mkArray N [seeds]) as HTS by by rewrite Hl.
  assert (sis_loop (l_H l) (l_beta l) (l_mu l) (py_range1 1) (l_TS l) w1
          = (Ok (l_TS l), w1)) as Eloop by done.
  destruct (simulate_stages G 1 num_seeds beta mu w l w1 (l_TS l) w1 Einit Eloop)
    as [_ Esim]; [by rewrite HTS|].
  exists seeds, l, w1, H. rewrite <- HTS.
  by split_and!.
Qed.

Lemma single_step_is_seeding_witness :
  let w := world0 K2 raw0 in
  exists seeds l w1 H',
    sis_init 1%positive 1 1 None None w = (Ok l, w1) /\
    simulate 1%positive 1 1 None None w
    = (Ok (mkArray (length (g_nodes K2)) [seeds]),
       stored l (mkArray (length (g_nodes K2)) [seeds]) w1) /\
    seeds ≡ₚ replicate (Z.to_nat 1) 1 ++
             replicate (length (g_nodes K2) - Z.to_nat 1) 0 /\
    heap (stored l (mkArray (length (g_nodes K2)) [seeds]) w1)
      !! fresh (dom (heap w)) = Some H' /\
    flags_col H' = seeds.
Proof.
  apply (single_step_is_seeding (world0 K2 raw0) 1%positive K2 1 None None);
    [reflexivity | vm_compute; reflexivity | simpl; lia | simpl; lia].
Defined.

(** X14 (the empty graph).  On a graph without nodes and with a
    non-negative [L], a call that leaves [mu] to its default -- [None],
    or a zero -- is aborted by [ZeroDivisionError] at
    [1 / H.number_of_nodes()], whatever [num_seeds] and [beta] are:
    the mean degree of no nodes is NaN and raises nothing.  Nothing is
    stored in [self.results] and the caller's graph is unchanged. *)
Theorem empty_graph_default_mu (w : world) (G : loc) (G0 : Graph)
    (L num_seeds : Z) (beta mu : option pyfloat) :
  heap w !! G = Some G0 ->
  g_nodes G0 = [] ->
  0 <= L ->
  py_not mu = true ->
  exists w',
    simulate G L num_seeds beta mu w = (Raise ZeroDivisionError, w') /\
    results w' = results w /\
    heap w' !! G = Some G0.
Proof.
  intros HG Hnodes HL Hmu.
  set (h := fresh (dom (heap w))).
  set (w1 := set_heap (insert h G0) w).
  assert (sees h (rng_raw w) G0 (rng_pos w) w1) as Hs1.
  { split; [|done]. simpl. by rewrite lookup_insert_eq. }
  assert (h <> G) as Hne.
  { intros Heq. apply (is_fresh (dom (heap w))). fold h. rewrite Heq.
    apply elem_of_dom. eauto. }
  assert (sees G (rng_raw w) G0 (rng_pos w) w1) as HsG.
  { split; [|done]. simpl. by rewrite lookup_insert_ne. }
  assert (wr (sis_init G L num_seeds beta mu) ZeroDivisionError
            (fun _ => True) w) as (w' & Einit & _).
  { unfold sis_init. apply wr_bind.
    eexists _, _. split; [by apply graph_copy_run|]. fold h. fold w1.
    unfold sis_init_from.
    apply wr_bind. eapply wp_number_of_nodes; [exact Hs1|].
    unfold np_zeros. rewrite (proj2 (Z.ltb_ge _ _)) by lia.
    apply wr_bind, wp_ret.
    apply wr_bind. eapply wp_number_of_nodes; [exact HsG|].
    apply wr_bind. eapply wp_graph_nodes; [exact HsG|].
    apply wr_bind. eapply (wp_resolve_beta h); [exact Hs1| |].
    { intros n Hn. rewrite Hnodes in Hn. by apply elem_of_nil in Hn. }
    apply wr_bind_raise.
    assert (wr (default_mu h) ZeroDivisionError (fun _ => True) w1) as Hdef.
    { unfold default_mu. apply wr_bind.
      eapply wp_number_of_nodes; [exact Hs1|]. rewrite Hnodes. simpl.
      by apply wr_raise. }
    unfold resolve_mu. destruct mu as [m|]; [|done]. by rewrite Hmu. }
  assert (simulate G L num_seeds beta mu w = (Raise ZeroDivisionError, w'))
    as Esim.
  { unfold simulate, sis_run.
    by rewrite (bind_Raise _ _ _ _ _ (bind_Raise _ _ _ _ _ Einit)). }
  exists w'. split; [done|]. split.
  - by eapply simulate_Raise_results.
  - pose proof (simulate_keeps_object G L num_seeds beta mu G w G0 HG) as K.
    by rewrite Esim in K.
Qed.

Lemma empty_graph_default_mu_witness :
  exists w',
    simulate 1%positive 4 1 (Some (Fin (Qmake 1 2))) None
      (world0 (mkGraph [] ∅ ∅) raw0)
    = (Raise ZeroDivisionError, w') /\
    results w' = results (world0 (mkGraph [] ∅ ∅) raw0) /\
    heap w' !! 1%positive = Some (mkGraph [] ∅ ∅).
Proof.
  apply (empty_graph_default_mu (world0 (mkGraph [] ∅ ∅) raw0) 1%positive
           (mkGraph [] ∅ ∅) 4 1 (Some (Fin (Qmake 1 2))) None);
    [reflexivity | reflexivity | lia | reflexivity].
Defined.

(** ** The update rule of a whole pass *)

Section wp_pass_effect.
Context (h : loc) (raw : nat -> N) (G0 : Graph).
Hypothesis G0_wf : well_formed G0 = true.

Lemma wp_visits beta mu vs : forall H p (Q : unit -> world -> Prop) w,
  sees h raw H p w -> staged G0 H ->
  (forall i, i ∈ vs -> i ∈ g_nodes G0) ->
  (forall w' H' p', sees h raw H' p' w' -> staged G0 H' ->
     pass_effect beta mu raw G0 p vs H H' p' -> Q tt w') ->
  wp (for_each vs (visit_node h beta mu)) Q w.
Proof.
  induction vs as [|i vs IH]; intros H p Q w Hs Hst Hin HQ; simpl.
  - apply wp_ret. by eapply HQ.
  - apply wp_bind. pose proof Hst as [(Hn & Ha & Hd) Hbin].
    assert (i ∈ g_nodes G0) as Hi by (apply Hin; left).
    destruct (well_formed_adj G0 i G0_wf Hi) as (js & Hjs & Hnb).
    destruct (Hbin i Hi) as [[H0|H1] _].
    + eapply wp_visit_node_susceptible; [done..|].
      eapply IH; [done|done| |].
      { intros j Hj. apply Hin. by right. }
      intros w' H' p' Hs' Hst' Hch. eapply HQ; [done..|].
      exists H. split; [by left|].
      unfold after_visit. by rewrite H0, Hjs.
    + eapply wp_visit_node_infected; [done|done|done|by rewrite Ha| |].
      { intros j Hj. apply Hd. apply well_formed_attr; auto. }
      intros w1 Hm Hs1 Hv.
      eapply IH; [done|by eapply visited_staged| |].
      { intros j Hj. apply Hin. by right. }
      intros w' H' p' Hs' Hst' Hch. eapply HQ; [done..|].
      exists Hm. split; [right; by exists js|].
      unfold after_visit. by rewrite H1, Hjs.
Qed.

Lemma wp_visit_all_effect H p beta mu (Q : unit -> world -> Prop) w :
  sees h raw H p w -> staged G0 H ->
  (forall order p0 w' H' p', order ≡ₚ g_nodes G0 ->
     sees h raw H' p' w' -> staged G0 H' ->
     pass_effect beta mu raw G0 p0 order H H' p' -> Q tt w') ->
  wp (visit_all h beta mu) Q w.
Proof.
  intros Hs Hst HQ. pose proof Hst as [(Hn & Ha & Hd) Hbin].
  apply wp_bind. eapply wp_graph_nodes; [done|].
  apply wp_bind. eapply wp_np_permutation; [done|].
  intros nodes w1 Hperm Hs1.
  eapply wp_visits; [done|done| |].
  - intros i Hi. by rewrite <- Hn, <- Hperm.
  - intros w' H' p' Hs' Hst' Hch.
    eapply (HQ nodes); [by rewrite Hperm, Hn|done..].
Qed.
End wp_pass_effect.

Lemma visit_effect_keeps_set beta mu raw G0 p i H H' n :
  visit_effect beta mu raw G0 p i H H' ->
  flag H n "next_infected" = Some 1 -> flag H' n "next_infected" = Some 1.
Proof.
  intros [[_ ->]|(js & _ & _ & Hv)]; [done|]. by eapply visited_keeps_set.
Qed.

Lemma pass_effect_keeps_set beta mu raw G0 vs : forall p H H' p' n,
  pass_effect beta mu raw G0 p vs H H' p' ->
  flag H n "next_infected" = Some 1 -> flag H' n "next_infected" = Some 1.
Proof.
  induction vs as [|i vs IH]; intros p H H' p' n; simpl.
  - by intros [-> _].
  - intros (Hi & Hv & Hch) Hn. eapply IH; [done|].
    by eapply visit_effect_keeps_set.
Qed.

(** A visit changes the [infected] flag of the visited node only. *)
Lemma visit_effect_infected_frame beta mu raw G0 p i H H' n :
  visit_effect beta mu raw G0 p i H H' -> n <> i ->
  flag H' n "infected" = flag H n "infected".
Proof.
  intros [[_ ->]|(js & _ & _ & _ & _ & Hinf & _)] Hne; [done|].
  rewrite Hinf. rewrite decide_False; [done|]. by intros [? _].
Qed.

Lemma pass_effect_infected_frame beta mu raw G0 vs : forall p H H' p' n,
  pass_effect beta mu raw G0 p vs H H' p' -> n ∉ vs ->
  flag H' n "infected" = flag H n "infected".
Proof.
  induction vs as [|i vs IH]; intros p H H' p' n; simpl.
  - by intros [-> _].
  - intros (Hi & Hv & Hch) Hn. apply not_elem_of_cons in Hn as [Hne Hn].
    rewrite (IH _ _ _ _ _ Hch Hn).
    by eapply visit_effect_infected_frame.
Qed.

(** Every node that is infected when the pass starts is dealt with by
    its own visit: it ends the pass cured, or staged for the next
    timestep. *)
Lemma pass_effect_infected beta mu raw G0 vs : forall p H H' p' n,
  NoDup vs ->
  pass_effect beta mu raw G0 p vs H H' p' ->
  n ∈ vs -> flag H n "infected" = Some 1 ->
  flag H' n "infected" = Some 0 \/
  (flag H' n "infected" = Some 1 /\ flag H' n "next_infected" = Some 1).
Proof.
  induction vs as [|i vs IH]; intros p H H' p' n Hnd; simpl.
  - intros _ Hn. by apply elem_of_nil in Hn.
  - intros (Hi & Hv & Hch) Hn Hinf.
    apply NoDup_cons in Hnd as [Hni Hnd].
    destruct (decide (n = i)) as [->|Hne].
    + pose proof (pass_effect_infected_frame _ _ _ _ _ _ _ _ _ i Hch Hni)
        as Hfr.
      destruct Hv as [[H0 _]|(js & _ & _ & Hvis)]; [congruence|].
      pose proof Hvis as (_ & _ & Hinf' & Hhit & _).
      destruct (cures mu raw p js) eqn:Hc.
      * left. rewrite Hfr, Hinf'. by rewrite decide_True.
      * right. split.
        -- rewrite Hfr, Hinf'. rewrite decide_False; [done|].
           intros [_ ?]. congruence.
        -- eapply pass_effect_keeps_set; [done|]. apply Hhit. by right.
    + apply elem_of_cons in Hn as [?|Hn]; [done|].
      assert (flag Hi n "infected" = Some 1) as Hinf1.
      { by rewrite (visit_effect_infected_frame _ _ _ _ _ _ _ _ _ Hv Hne). }
      by apply (IH _ _ _ _ _ Hnd Hch Hn Hinf1).
Qed.

Lemma staged_between_passes H :
  well_formed H = true -> staged H H -> between_passes H = true.
Proof.
  intros Hwf [_ Hbin]. unfold between_passes.
  rewrite andb_true_iff, forallb_forall. split; [done|].
  intros n Hn. apply list_elem_of_In in Hn.
  destruct (Hbin n Hn) as [[-> | ->] [-> | ->]]; done.
Qed.

(** C8 (the update rule).  Let the working copy [H] be as a pass finds
    it -- any well-formed graph whose flags are all 0 or 1, whether or
    not a node is infected -- with the random stream at position [p].

    One visit.  The visit of a node [i] whose [infected] flag is set,
    with neighbours [js], returns normally and consumes one draw per
    neighbour and one more.  Neighbour number [k] gets [next_infected]
    set to 1 exactly when its own draw [p + k] is below beta, and no
    [next_infected] flag that was 1 before the visit is cleared by it.
    The last draw is the recovery trial: if it is below mu, [infected] of
    [i] is 0 in the state the later visits of the pass start from (a
    visit of [i] from that state does nothing); otherwise [next_infected]
    of [i] is set to 1 and [infected] is left alone.  No other flag
    changes.  The visit of a node whose [infected] flag is 0 does
    nothing.

    The pass.  [visit_all] returns normally, and what it does to the
    working copy is the composition of these visits: the nodes are
    visited once each, in an order [order] that is a permutation of the
    node list, and the visit of each node starts from the state and the
    stream position the visit before it has left ([pass_effect]), so a
    recovery is seen by every later visit and all trials use different
    draws.  Over the pass no [next_infected] flag that was 1 is cleared,
    the [infected] flag of a node changes only at its own visit, and
    every node that was infected when the pass started ends it either
    cured ([infected] = 0) or staged ([next_infected] = 1).

    The commit.  From the state the pass has left -- and from any other
    state between passes -- [commit] returns normally, consumes no
    randomness, copies [next_infected] to [infected] for every node and
    then resets every [next_infected] to 0. *)
Theorem pass_update_rule (w : world) (h : loc) (H : Graph)
    (beta mu : pyfloat) :
  heap w !! h = Some H ->
  between_passes H = true ->
  let raw := rng_raw w in
  let p := rng_pos w in
  (forall i js,
     i ∈ g_nodes H -> flag H i "infected" = Some 1 -> g_adj H !! i = Some js ->
     exists w' H',
       visit_node h beta mu i w = (Ok tt, w') /\
       heap w' !! h = Some H' /\
       rng_pos w' = (p + length js + 1)%nat /\
       visited beta mu raw p i js H H' /\
       (forall n, flag H n "next_infected" = Some 1 ->
          flag H' n "next_infected" = Some 1) /\
       (cures mu raw p js = true ->
          flag H' i "infected" = Some 0 /\
          forall beta' mu', visit_node h beta' mu' i w' = (Ok tt, w')) /\
       (cures mu raw p js = false ->
          flag H' i "infected" = Some 1 /\
          flag H' i "next_infected" = Some 1)) /\
  (forall i', flag H i' "infected" = Some 0 ->
     visit_node h beta mu i' w = (Ok tt, w)) /\
  (exists order p0 w1 H1 w2 H2,
     order ≡ₚ g_nodes H /\
     visit_all h beta mu w = (Ok tt, w1) /\
     heap w1 !! h = Some H1 /\
     rng_raw w1 = raw /\
     between_passes H1 = true /\
     pass_effect beta mu raw H p0 order H H1 (rng_pos w1) /\
     (forall n, flag H n "next_infected" = Some 1 ->
        flag H1 n "next_infected" = Some 1) /\
     (forall n, n ∈ g_nodes H -> flag H n "infected" = Some 0 ->
        flag H1 n "infected" = Some 0) /\
     (forall n, n ∈ g_nodes H -> flag H n "infected" = Some 1 ->
        flag H1 n "infected" = Some 0 \/
        (flag H1 n "infected" = Some 1 /\
         flag H1 n "next_infected" = Some 1)) /\
     commit h w1 = (Ok tt, w2) /\
     heap w2 !! h = Some H2 /\
     rng_raw w2 = raw /\
     rng_pos w2 = rng_pos w1 /\
     committed H1 H2 /\
     forall n, n ∈ g_nodes H ->
       flag H2 n "infected" = flag H1 n "next_infected" /\
       flag H2 n "next_infected" = Some 0) /\
  (exists w' H',
     commit h w = (Ok tt, w') /\
     heap w' !! h = Some H' /\
     rng_pos w' = p /\
     committed H H' /\
     forall n, n ∈ g_nodes H ->
       flag H' n "infected" = flag H n "next_infected" /\
       flag H' n "next_infected" = Some 0).
Proof.
  intros Hh Hready raw p.
  destruct (between_passes_staged H Hready) as [Hwf Hst].
  pose proof Hst as [_ Hbin].
  assert (sees h raw H p w) as Hs by done.
  split; [|split; [|split]].
  - intros i js Hin Hi Hjs.
    destruct (well_formed_adj H i Hwf Hin) as (js' & Hjs' & Hnb).
    assert (js' = js) as -> by congruence.
    destruct (wp_visit_node_infected h raw H p beta mu i 1 js
      (fun _ w' => exists H', sees h raw H' (p + length js + 1)%nat w' /\
                              visited beta mu raw p i js H H') w)
      as ([] & w' & Evisit & H' & Hs' & Hv); [done..| | |].
    { intros j Hj. apply well_formed_attr; auto. }
    { intros w' H' Hs' Hv. eauto. }
    exists w', H'. destruct Hs' as (Hh' & Hraw' & Hp').
    split; [done|]. split; [done|]. split; [done|]. split; [done|].
    split; [|split].
    + intros n. by eapply visited_keeps_set.
    + destruct Hv as (_ & _ & Hinf & _).
      intros Hc. assert (flag H' i "infected" = Some 0) as Hi'.
      { rewrite Hinf. by rewrite decide_True. }
      split; [done|]. intros beta' mu'.
      destruct (wp_visit_node_susceptible h raw H' (p + length js + 1)
        beta' mu' i (fun _ w'' => w'' = w') w')
        as ([] & w'' & E'' & ->); done.
    + destruct Hv as (_ & _ & Hinf & Hhit & _). intros Hc. split.
      * rewrite Hinf. rewrite decide_False; [done|].
        intros [_ ?]. congruence.
      * apply Hhit. by right.
  - intros i' Hi'.
    destruct (wp_visit_node_susceptible h raw H p beta mu i'
      (fun _ w' => w' = w) w) as ([] & w' & E' & ->); done.
  - destruct (wp_visit_all_effect h raw H Hwf H p beta mu
      (fun _ w1 => exists order p0 H1 p1,
         order ≡ₚ g_nodes H /\ sees h raw H1 p1 w1 /\ staged H H1 /\
         pass_effect beta mu raw H p0 order H H1 p1) w)
      as ([] & w1 & Eall & order & p0 & H1 & p1 & Hperm & Hs1 & Hst1 & Hch);
      [done|done| |].
    { intros order p0 w' H' p' Hperm Hs' Hst' Hch.
      exists order, p0, H', p'. done. }
    pose proof Hst1 as [(Hn1 & Ha1 & Hd1) Hbin1].
    assert (NoDup (g_nodes H)) as Hnd by by apply well_formed_NoDup.
    assert (NoDup order) as Hndo by by rewrite Hperm.
    assert (well_formed H1 = true) as Hwf1.
    { revert Hwf. unfold well_formed. rewrite Hn1, Ha1.
      rewrite !andb_true_iff, !bool_decide_eq_true.
      intros [[[? Hda] ?] ?]. split_and!; try done.
      rewrite <- Hda. apply set_eq. intros n. rewrite !elem_of_dom.
      apply Hd1. }
    assert (staged H1 H1) as Hst11.
    { split; [apply similar_refl|]. intros n Hn. apply Hbin1.
      by rewrite <- Hn1. }
    destruct (wp_commit h raw H1 p1
      (fun _ w' => exists H', sees h raw H' p1 w' /\ committed H1 H') w1)
      as ([] & w2 & Ecommit & H2 & Hs2 & Hc); [done| | | |].
    { by rewrite Hn1. }
    { intros n Hn. rewrite Hn1 in Hn.
      destruct (Hbin1 n Hn) as [_ [-> | ->]]; eauto. }
    { intros w' H' Hs' Hc. eauto. }
    destruct Hs1 as (Hh1 & Hraw1 & Hp1). destruct Hs2 as (Hh2 & Hraw2 & Hp2).
    exists order, p0, w1, H1, w2, H2.
    split; [done|]. split; [done|]. split; [done|]. split; [done|].
    split; [by apply staged_between_passes|].
    split; [by rewrite Hp1|].
    split; [intros n; by eapply pass_effect_keeps_set|].
    split; [|split].
    + intros n Hn H0.
      destruct (Hbin1 n Hn) as [[E0|E1] _]; [done|]. exfalso.
      (* a susceptible node is never given the [infected] flag *)
      assert (forall vs q K K' q',
                pass_effect beta mu raw H q vs K K' q' ->
                flag K n "infected" = Some 0 ->
                flag K' n "infected" = Some 0) as Hz.
      { clear. induction vs as [|i vs IH]; intros q K K' q'; simpl.
        - by intros [-> _].
        - intros (Ki & Hv & Hch) H0. eapply IH; [done|].
          destruct Hv as [[_ ->]|(js & _ & _ & _ & _ & Hinf & _)]; [done|].
          rewrite Hinf. by destruct (decide _). }
      rewrite (Hz _ _ _ _ _ Hch H0) in E1. discriminate.
    + intros n Hn Hinf.
      destruct (pass_effect_infected beta mu raw H order p0 H H1 p1 n
                  Hndo Hch) as [?|?]; [by rewrite Hperm|done|by left|by right].
    + split; [done|]. split; [done|]. split; [done|]. split; [by rewrite Hp2|].
      split; [done|]. destruct Hc as (_ & _ & Hc).
      intros n Hn. apply Hc. by rewrite Hn1.
  - destruct (wp_commit h raw H p
      (fun _ w' => exists H', sees h raw H' p w' /\ committed H H') w)
      as ([] & w' & Ecommit & H' & Hs' & Hc); [done| | | |].
    { by apply well_formed_NoDup. }
    { intros n Hn. destruct (Hbin n Hn) as [_ [-> | ->]]; eauto. }
    { intros w' H' Hs' Hc. eauto. }
    exists w', H'. destruct Hs' as (Hh' & Hraw' & Hp').
    split; [done|]. split; [done|]. split; [done|]. split; [done|].
    by destruct Hc as (_ & _ & Hc).
Qed.

Lemma pass_update_rule_witness :
  let w := world0 K2_seeded raw0 in
  let h := 1%positive in
  let H := K2_seeded in
  let beta := Fin (Qmake 1 2) in
  let mu := Fin (Qmake 1 2) in
  let raw := rng_raw w in
  let p := rng_pos w in
  (forall i js,
     i ∈ g_nodes H -> flag H i "infected" = Some 1 -> g_adj H !! i = Some js ->
     exists w' H',
       visit_node h beta mu i w = (Ok tt, w') /\
       heap w' !! h = Some H' /\
       rng_pos w' = (p + length js + 1)%nat /\
       visited beta mu raw p i js H H' /\
       (forall n, flag H n "next_infected" = Some 1 ->
          flag H' n "next_infected" = Some 1) /\
       (cures mu raw p js = true ->
          flag H' i "infected" = Some 0 /\
          forall beta' mu', visit_node h beta' mu' i w' = (Ok tt, w')) /\
       (cures mu raw p js = false ->
          flag H' i "infected" = Some 1 /\
          flag H' i "next_infected" = Some 1)) /\
  (forall i', flag H i' "infected" = Some 0 ->
     visit_node h beta mu i' w = (Ok tt, w)) /\
  (exists order p0 w1 H1 w2 H2,
     order ≡ₚ g_nodes H /\
     visit_all h beta mu w = (Ok tt, w1) /\
     heap w1 !! h = Some H1 /\
     rng_raw w1 = raw /\
     between_passes H1 = true /\
     pass_effect beta mu raw H p0 order H H1 (rng_pos w1) /\
     (forall n, flag H n "next_infected" = Some 1 ->
        flag H1 n "next_infected" = Some 1) /\
     (forall n, n ∈ g_nodes H -> flag H n "infected" = Some 0 ->
        flag H1 n "infected" = Some 0) /\
     (forall n, n ∈ g_nodes H -> flag H n "infected" = Some 1 ->
        flag H1 n "infected" = Some 0 \/
        (flag H1 n "infected" = Some 1 /\
         flag H1 n "next_infected" = Some 1)) /\
     commit h w1 = (Ok tt, w2) /\
     heap w2 !! h = Some H2 /\
     rng_raw w2 = raw /\
     rng_pos w2 = rng_pos w1 /\
     committed H1 H2 /\
     forall n, n ∈ g_nodes H ->
       flag H2 n "infected" = flag H1 n "next_infected" /\
       flag H2 n "next_infected" = Some 0) /\
  (exists w' H',
     commit h w = (Ok tt, w') /\
     heap w' !! h = Some H' /\
     rng_pos w' = p /\
     committed H H' /\
     forall n, n ∈ g_nodes H ->
       flag H' n "infected" = flag H n "next_infected" /\
       flag H' n "next_infected" = Some 0).
Proof.
  apply (pass_update_rule (world0 K2_seeded raw0) 1%positive K2_seeded
           (Fin (Qmake 1 2)) (Fin (Qmake 1 2)));
    [reflexivity | vm_compute; reflexivity].
Defined.

(** ** Rates supplied as zero *)

(** C9 (zero rates are defaulted).  A rate supplied as exactly 0.0 is
    false in the tests [if not beta] and [if not mu], so on a graph with
    N >= 1 nodes it is replaced, exactly as an omitted rate is, by the
    default: for beta the reciprocal of the average degree -- the sum of
    the degrees divided by N; [inf] when that average is zero -- and for
    mu the number 1 / N.  These values are what lines 57-61 compute on
    any graph object with the nodes and edges of the input, in
    particular on the working copy; they are never zero; the loop of
    [simulate] is started with them; and a call with beta = 0.0 and
    mu = 0.0 is the same computation as the call that omits both. *)
Theorem zero_rate_defaulted (w : world) (G : loc) (G0 : Graph) :
  heap w !! G = Some G0 ->
  well_formed G0 = true ->
  (1 <= length (g_nodes G0))%nat ->
  let N := length (g_nodes G0) in
  let avg_k :=
    Qdiv (inject_Z (sum_list (degree_of G0 <$> g_nodes G0)))
         (inject_Z (Z.of_nat N)) in
  let beta0 := if Qeq_bool avg_k 0 then PosInf else Fin (Qinv avg_k) in
  let mu0 := Fin (Qmake 1 (Pos.of_nat N)) in
  py_not (Some (Fin 0)) = true /\
  (forall h w', heap w' !! h = Some G0 ->
     resolve_beta h (Some (Fin 0)) w' = (Ok beta0, w') /\
     resolve_beta h None w' = (Ok beta0, w') /\
     resolve_mu h (Some (Fin 0)) w' = (Ok mu0, w') /\
     resolve_mu h None w' = (Ok mu0, w')) /\
  beta0 <> Fin 0 /\ float_truthy beta0 = true /\
  mu0 <> Fin 0 /\ float_truthy mu0 = true /\
  (forall L num_seeds,
     1 <= L -> 0 <= num_seeds <= Z.of_nat N ->
     exists l w1,
       sis_init G L num_seeds (Some (Fin 0)) (Some (Fin 0)) w = (Ok l, w1) /\
       l_beta l = beta0 /\ l_mu l = mu0) /\
  (forall L num_seeds,
     simulate G L num_seeds (Some (Fin 0)) (Some (Fin 0)) w
     = simulate G L num_seeds None None w).
Proof.
  intros HG Hwf HN N avg_k beta0 mu0.
  assert (beta_used G0 (Some (Fin 0)) = beta0 /\ beta_used G0 None = beta0)
    as [Hb0 HbN].
  { unfold beta_used, beta0, avg_k, N. simpl.
    destruct (g_nodes G0) as [|n ns]; [simpl in HN; lia|].
    rewrite <- (length_fmap (degree_of G0) (n :: ns)). done. }
  assert (mu_used G0 (Some (Fin 0)) = mu0 /\ mu_used G0 None = mu0)
    as [Hm0 HmN] by done.
  assert (float_truthy beta0 = true) as Hbt.
  { unfold beta0. destruct (Qeq_bool avg_k 0) eqn:Hq; [done|]. simpl.
    by rewrite Qinv_nonzero. }
  split; [done|]. split; [|split; [|split; [|split; [|split; [|split]]]]].
  - intros h w' Hh.
    assert (sees h (rng_raw w') G0 (rng_pos w') w') as Hs by done.
    assert (forall n, n ∈ g_nodes G0 -> is_Some (g_adj G0 !! n)) as Hadj.
    { intros n Hn. destruct (well_formed_adj G0 n Hwf Hn) as (js & -> & _).
      eauto. }
    assert (forall beta b, beta_used G0 beta = b ->
              resolve_beta h beta w' = (Ok b, w')) as Hrb.
    { intros beta b Hb.
      destruct (wp_resolve_beta h (rng_raw w') G0 (rng_pos w') beta
                  (fun b' w'' => b' = b /\ w'' = w') w')
        as (b' & w'' & E & -> & ->); done. }
    assert (forall mu m, mu_used G0 mu = m ->
              resolve_mu h mu w' = (Ok m, w')) as Hrm.
    { intros mu m Hm.
      destruct (wp_resolve_mu h (rng_raw w') G0 (rng_pos w') mu
                  (fun m' w'' => m' = m /\ w'' = w') w')
        as (m' & w'' & E & -> & ->); done. }
    split_and!; [by apply Hrb|by apply Hrb|by apply Hrm|by apply Hrm].
  - intros E. rewrite E in Hbt. discriminate.
  - done.
  - done.
  - done.
  - intros L num_seeds HL Hk.
    destruct (wp_sis_init_full G G0 L num_seeds (Some (Fin 0)) (Some (Fin 0))
                (init_full G0 (rng_raw w) (rng_pos w) (fresh (dom (heap w)))
                   (Z.to_nat L) (Z.to_nat num_seeds)
                   (Some (Fin 0)) (Some (Fin 0))) w)
      as (l & w1 & Einit & Hfull); [done..|].
    destruct Hfull as (H & seeds & _ & _ & _ & Hl & _).
    exists l, w1. split; [done|]. rewrite Hl.
    split; [exact Hb0 | exact Hm0].
  - done.
Qed.

Lemma zero_rate_defaulted_witness :
  let w := world0 K2 raw0 in
  let G := 1%positive in
  let G0 := K2 in
  let N := length (g_nodes G0) in
  let avg_k :=
    Qdiv (inject_Z (sum_list (degree_of G0 <$> g_nodes G0)))
         (inject_Z (Z.of_nat N)) in
  let beta0 := if Qeq_bool avg_k 0 then PosInf else Fin (Qinv avg_k) in
  let mu0 := Fin (Qmake 1 (Pos.of_nat N)) in
  py_not (Some (Fin 0)) = true /\
  (forall h w', heap w' !! h = Some G0 ->
     resolve_beta h (Some (Fin 0)) w' = (Ok beta0, w') /\
     resolve_beta h None w' = (Ok beta0, w') /\
     resolve_mu h (Some (Fin 0)) w' = (Ok mu0, w') /\
     resolve_mu h None w' = (Ok mu0, w')) /\
  beta0 <> Fin 0 /\ float_truthy beta0 = true /\
  mu0 <> Fin 0 /\ float_truthy mu0 = true /\
  (forall L num_seeds,
     1 <= L -> 0 <= num_seeds <= Z.of_nat N ->
     exists l w1,
       sis_init G L num_seeds (Some (Fin 0)) (Some (Fin 0)) w = (Ok l, w1) /\
       l_beta l = beta0 /\ l_mu l = mu0) /\
  (forall L num_seeds,
     simulate G L num_seeds (Some (Fin 0)) (Some (Fin 0)) w
     = simulate G L num_seeds None None w).
Proof.
  apply (zero_rate_defaulted (world0 K2 raw0) 1%positive K2);
    [reflexivity | vm_compute; reflexivity | simpl; lia].
Defined.

(** On the two-node graph the defaults are beta = 1 / (2 / 2) and
    mu = 1 / 2; on a single isolated node they are [inf] and 1. *)
Example zero_rate_defaults_computed :
  (resolve_beta 1%positive (Some (Fin 0)) (world0 K2 raw0)).1
  = Ok (Fin (Qinv (Qdiv 2 2))) /\
  (resolve_mu 1%positive (Some (Fin 0)) (world0 K2 raw0)).1
  = Ok (Fin (Qmake 1 2)) /\
  (resolve_beta 1%positive (Some (Fin 0)) (world0 G1 raw0)).1 = Ok PosInf /\
  (resolve_mu 1%positive (Some (Fin 0)) (world0 G1 raw0)).1
  = Ok (Fin (Qmake 1 1)).
Proof. repeat split; reflexivity. Qed.
